(** * Mintos: queue, worker and webhook core

    A shallow embedding of the mint queue of the Mintos repository
    (Redis queue store, dedup set, history table, worker loop, minting
    pipeline, health snapshot, split creation route, webhook route,
    webhook signature check and middleware) together with the properties
    established about it.

    Conventions of the embedding.
    - A JavaScript string is a Rocq [string] holding the UTF-8 bytes of the
      text, so [Buffer.from(s)] is the identity and the byte length of a
      buffer is [String.length].
    - A JavaScript value reachable from [JSON.parse] is a [JsVal] tree.
    - An [async] function that reads or writes the stores is a function in
      the monad [M]: it takes the [World] and gives back either a value or
      a thrown value, and the new [World].
    - What the outside world answers (HTTP responses, time-outs, the clock,
      the chain, the Neynar client) is read from an [Env] record. *)

From Stdlib Require Import ZArith NArith Ascii String List Lia Bool.
From stdpp Require Import gmap strings list pretty.
Import ListNotations.

Set Warnings "-register-all".
Local Open Scope N_scope.

(* ===================================================================== *)
(** * JavaScript strings *)
(* ===================================================================== *)

Module Js.

Definition bytes (s : string) : list N :=
  map N_of_ascii (list_ascii_of_string s).

Definition of_bytes (l : list N) : string :=
  string_of_list_ascii (map ascii_of_N l).

Definition in_range (lo hi a : N) : bool := (lo <=? a) && (a <=? hi).

(** [String.prototype.toLowerCase], on the letters A to Z.  Characters
    outside ASCII are left as they are: none of them lower-cases to a
    character that the patterns of this program accept, so every test made
    on a lower-cased string is decided as in JavaScript. *)
Definition lower_byte (a : N) : N :=
  if in_range 65 90 a then a + 32 else a.

Definition toLowerCase (s : string) : string :=
  of_bytes (map lower_byte (bytes s)).

(** White space and line terminators of ECMAScript ([\s], and what [trim]
    strips), by their UTF-8 encodings: U+0009 to U+000D and U+0020;
    U+00A0; U+1680; U+2000 to U+200A, U+2028, U+2029, U+202F, U+205F;
    U+3000; U+FEFF. *)
Definition ws1 (a : N) : bool := in_range 9 13 a || (a =? 32).

Definition ws2 (a b : N) : bool := (a =? 194) && (b =? 160).

Definition ws3 (a b c : N) : bool :=
  (a =? 225) && (b =? 154) && (c =? 128)
  || (a =? 226) && (b =? 128)
       && (in_range 128 138 c || (c =? 168) || (c =? 169) || (c =? 175))
  || (a =? 226) && (b =? 129) && (c =? 159)
  || (a =? 227) && (b =? 128) && (c =? 128)
  || (a =? 239) && (b =? 187) && (c =? 191).

(** Drops the leading characters that a table of one-, two- and
    three-byte encodings accepts. *)
Fixpoint drop_leading (p1 : N -> bool) (p2 : N -> N -> bool) (p3 : N -> N -> N -> bool)
    (l : list N) : list N :=
  match l with
  | [] => []
  | a :: r1 =>
      if p1 a then drop_leading p1 p2 p3 r1
      else match r1 with
           | [] => l
           | b :: r2 =>
               if p2 a b then drop_leading p1 p2 p3 r2
               else match r2 with
                    | [] => l
                    | c :: r3 => if p3 a b c then drop_leading p1 p2 p3 r3 else l
                    end
           end
  end.

(** [trimStart] on bytes. *)
Definition dropWs : list N -> list N := drop_leading ws1 ws2 ws3.

(** [trimEnd] on the reversed bytes: the same table read backwards. *)
Definition dropWsRev : list N -> list N :=
  drop_leading ws1 (fun a b => ws2 b a) (fun a b c => ws3 c b a).

Definition trim_bytes (l : list N) : list N :=
  rev (dropWsRev (rev (dropWs l))).

Definition trim (s : string) : string := of_bytes (trim_bytes (bytes s)).

Definition is_digit (a : N) : bool := in_range 48 57 a.

Definition is_lower_hex (a : N) : bool := is_digit a || in_range 97 102 a.

Definition is_hex (a : N) : bool := is_lower_hex a || in_range 65 70 a.

Definition hex_value (a : N) : N :=
  if is_digit a then a - 48
  else if in_range 97 102 a then a - 87 else a - 55.

(** Lower-case hexadecimal digit of a value below 16. *)
Definition hex_digit (n : N) : N := if n <? 10 then 48 + n else 87 + n.

(** UTF-8 encoding of a code point; a lone surrogate is written with the
    three-byte form, as it has no other. *)
Definition utf8 (cp : N) : list N :=
  if cp <? 128 then [cp]
  else if cp <? 2048 then [192 + cp / 64; 128 + cp mod 64]
  else if cp <? 65536 then
    [224 + cp / 4096; 128 + (cp / 64) mod 64; 128 + cp mod 64]
  else [240 + cp / 262144; 128 + (cp / 4096) mod 64;
        128 + (cp / 64) mod 64; 128 + cp mod 64].

(** The UTF-16 code units of a string, each as a string: a character of
    the basic plane is one unit, any other is a surrogate pair. *)
Fixpoint units (l : list N) : list (list N) :=
  match l with
  | [] => []
  | a :: r1 =>
      if a <? 192 then [a] :: units r1
      else match r1 with
           | [] => [[a]]
           | b :: r2 =>
               if a <? 224 then [a; b] :: units r2
               else match r2 with
                    | [] => [[a; b]]
                    | c :: r3 =>
                        if a <? 240 then [a; b; c] :: units r3
                        else match r3 with
                             | [] => [[a; b; c]]
                             | d :: r4 =>
                                 let cp := (a mod 8) * 262144 + (b mod 64) * 4096
                                           + (c mod 64) * 64 + d mod 64 in
                                 utf8 (55296 + (cp - 65536) / 1024)
                                   :: utf8 (56320 + (cp - 65536) mod 1024)
                                   :: units r4
                             end
                    end
           end
  end.

End Js.

(* ===================================================================== *)
(** * JavaScript values *)
(* ===================================================================== *)

(** The values that [JSON.parse] can build, and [undefined].  A number is
    kept as the decimal [m * 10 ^ e] that was written; an object is the
    list of its own properties in property order. *)
Inductive JsVal : Type :=
| VUndef
| VNull
| VBool (b : bool)
| VNum (m e : Z)
| VStr (s : string)
| VArr (items : list JsVal)
| VObj (props : list (string * JsVal)).

(** What a JavaScript [throw] can carry in this program: an instance of
    [Error] (with its [name] and [message]), or any other value, such as
    the error object that the history-store client hands back. *)
Inductive Thrown : Type :=
| ErrorInstance (name message : string)
| ThrownValue (v : JsVal).

Inductive Result (A : Type) : Type :=
| Ok (a : A)
| Throw (e : Thrown).
Arguments Ok {A} a.
Arguments Throw {A} e.

Definition TypeError (msg : string) : Thrown := ErrorInstance "TypeError" msg.
Definition SyntaxError (msg : string) : Thrown := ErrorInstance "SyntaxError" msg.
Definition RangeError (msg : string) : Thrown := ErrorInstance "RangeError" msg.
Definition Error (msg : string) : Thrown := ErrorInstance "Error" msg.

(** [error instanceof Error] *)
Definition instanceofError (e : Thrown) : bool :=
  match e with ErrorInstance _ _ => true | ThrownValue _ => false end.

Module Number.

(** Strips the trailing zeros of a mantissa into the exponent. *)
Fixpoint normalize_aux (fuel : nat) (m e : Z) : Z * Z :=
  match fuel with
  | O => (m, e)
  | S f => if (m mod 10 =? 0)%Z then normalize_aux f (m / 10)%Z (e + 1)%Z else (m, e)
  end.

Definition normalize (m e : Z) : Z * Z :=
  if (m =? 0)%Z then (0, 0)%Z
  else normalize_aux (String.length (pretty (Z.abs m))) m e.

Definition zeros (n : Z) : string := Js.of_bytes (repeat 48 (Z.to_nat n)).

(** [Number::toString] for a decimal whose digits are the shortest ones
    that denote its double, which holds for every literal of at most
    fifteen significant digits. *)
Definition toString (m e : Z) : string :=
  let '(m, e) := normalize m e in
  if (m =? 0)%Z then "0"
  else
    let sign := if (m <? 0)%Z then "-" else "" in
    let digits := pretty (Z.abs m) in
    let n := Z.of_nat (String.length digits) in
    let k := (n + e)%Z in
    let body :=
      if (n <=? k)%Z && (k <=? 21)%Z then digits +:+ zeros (k - n)
      else if (0 <? k)%Z && (k <=? 21)%Z then
        substring 0 (Z.to_nat k) digits +:+ "."
          +:+ substring (Z.to_nat k) (Z.to_nat (n - k)) digits
      else if (-6 <? k)%Z && (k <=? 0)%Z then "0." +:+ zeros (- k) +:+ digits
      else
        let x := (k - 1)%Z in
        let ex := (if (x <? 0)%Z then "e-" else "e+") +:+ pretty (Z.abs x) in
        if (n =? 1)%Z then digits +:+ ex
        else substring 0 1 digits +:+ "."
               +:+ substring 1 (Z.to_nat (n - 1)) digits +:+ ex in
    sign +:+ body.

(** The double nearest to 0.69 is [M069 / 2 ^ 53]. *)
Definition M069 : Z := Eval vm_compute in ((69 * 2 ^ 53 + 50) / 100)%Z.

(** [x < 0.69] for the double nearest to the decimal [m * 10 ^ e]:
    rounding to nearest is monotone, so the test holds exactly when the
    decimal lies below the midpoint of [0.69] and its predecessor, or on
    it when the tie goes down to the predecessor (even mantissa). *)
Definition below_069 (m e : Z) : bool :=
  let lhs := (if (0 <=? e)%Z then m * 10 ^ e * 2 ^ 54 else m * 2 ^ 54)%Z in
  let rhs := (if (0 <=? e)%Z then 2 * M069 - 1 else (2 * M069 - 1) * 10 ^ (- e))%Z in
  (lhs <? rhs)%Z || ((lhs =? rhs)%Z && Z.odd M069).

End Number.

Module Value.

(** [!v] is [negb (truthy v)]. *)
Definition truthy (v : JsVal) : bool :=
  match v with
  | VUndef | VNull => false
  | VBool b => b
  | VNum m _ => negb (m =? 0)%Z
  | VStr s => negb (String.eqb s "")
  | VArr _ | VObj _ => true
  end.

Definition nullish (v : JsVal) : bool :=
  match v with VUndef | VNull => true | _ => false end.

(** A canonical array index: ["0"], or digits without a leading zero. *)
Definition index_of_key (k : string) : option N :=
  match Js.bytes k with
  | [] => None
  | a :: r =>
      if forallb Js.is_digit (a :: r)
         && (negb (a =? 48) || match r with [] => true | _ => false end)
      then let n := fold_left (fun acc d => 10 * acc + (d - 48)) (a :: r) 0 in
           if n <? 4294967295 then Some n else None
      else None
  end.

(** Last property of that name, as duplicate keys of a JSON text leave the
    last value. *)
Fixpoint lookup_prop (k : string) (o : list (string * JsVal)) : option JsVal :=
  match o with
  | [] => None
  | (k', v) :: r => if String.eqb k k' then Some v else lookup_prop k r
  end.

(** Property read [v.k] or [v[k]] on a value that is neither [null] nor
    [undefined].  The names read by this program are own properties or
    indices; no prototype of a primitive or array has them. *)
Definition get (v : JsVal) (k : string) : JsVal :=
  match v with
  | VObj o => match lookup_prop k o with Some x => x | None => VUndef end
  | VArr l =>
      match index_of_key k with
      | Some i => nth (N.to_nat i) l VUndef
      | None => if String.eqb k "length" then VNum (Z.of_nat (length l)) 0 else VUndef
      end
  | VStr s =>
      match index_of_key k with
      | Some i => match nth_error (Js.units (Js.bytes s)) (N.to_nat i) with
                  | Some c => VStr (Js.of_bytes c)
                  | None => VUndef
                  end
      | None => if String.eqb k "length"
                then VNum (Z.of_nat (length (Js.units (Js.bytes s)))) 0 else VUndef
      end
  | _ => VUndef
  end.

(** [v.k]: a [TypeError] on [null] and [undefined]. *)
Definition member (v : JsVal) (k : string) : Result JsVal :=
  if nullish v
  then Throw (TypeError ("Cannot read properties of " +:+
                (match v with VNull => "null" | _ => "undefined" end) +:+
                " (reading '" +:+ k +:+ "')"))
  else Ok (get v k).

(** [v?.k] *)
Definition member_opt (v : JsVal) (k : string) : JsVal :=
  if nullish v then VUndef else get v k.

(** [String(v)], also the conversion made by a template literal. *)
Fixpoint toString (v : JsVal) : string :=
  match v with
  | VUndef => "undefined"
  | VNull => "null"
  | VBool b => if b then "true" else "false"
  | VNum m e => Number.toString m e
  | VStr s => s
  | VArr l =>
      (fix join (l : list JsVal) : string :=
         match l with
         | [] => ""
         | [x] => if nullish x then "" else toString x
         | x :: r => (if nullish x then "" else toString x) +:+ "," +:+ join r
         end) l
  | VObj _ => "[object Object]"
  end.

(** [a || b] *)
Definition or (a b : JsVal) : JsVal := if truthy a then a else b.

(** [v === 'literal'] *)
Definition is_string (literal : string) (v : JsVal) : bool :=
  match v with
  | VStr s => String.eqb s literal
  | _ => false
  end.

End Value.

(** [error instanceof Error ? error.message : String(error)] *)
Definition error_text (e : Thrown) : string :=
  match e with
  | ErrorInstance _ message => message
  | ThrownValue v => Value.toString v
  end.

(* ===================================================================== *)
(** * Objects and JSON *)
(* ===================================================================== *)

Module Obj.

(** Defines or overwrites an own property, keeping property order: array
    indices in ascending order first, then names in order of creation. *)
Fixpoint set (k : string) (v : JsVal) (o : list (string * JsVal))
  : list (string * JsVal) :=
  match o with
  | [] => [(k, v)]
  | (k', v') :: r =>
      if String.eqb k k' then (k, v) :: r
      else match Value.index_of_key k, Value.index_of_key k' with
           | Some i, Some j => if i <? j then (k, v) :: o else (k', v') :: set k v r
           | Some _, None => (k, v) :: o
           | None, _ => (k', v') :: set k v r
           end
  end.

(** An object literal [{k1: v1, ..., kn: vn}]. *)
Definition literal (kvs : list (string * JsVal)) : JsVal :=
  VObj (fold_left (fun o kv => set (fst kv) (snd kv) o) kvs []).

(** The own enumerable properties copied by a spread [{...v}]. *)
Definition own_props (v : JsVal) : list (string * JsVal) :=
  match v with
  | VObj o => o
  | VArr l => imap (fun i x => (pretty (N.of_nat i), x)) l
  | VStr s => imap (fun i c => (pretty (N.of_nat i), VStr (Js.of_bytes c)))
                   (Js.units (Js.bytes s))
  | _ => []
  end.

End Obj.

Module JSON.

Definition is_ws (a : N) : bool := (a =? 32) || (a =? 9) || (a =? 10) || (a =? 13).

Fixpoint skip_ws (l : list N) : list N :=
  match l with
  | a :: r => if is_ws a then skip_ws r else l
  | [] => []
  end.

Fixpoint take_digits (l : list N) : list N * list N :=
  match l with
  | a :: r => if Js.is_digit a
              then let '(ds, rest) := take_digits r in (a :: ds, rest)
              else ([], l)
  | [] => ([], [])
  end.

Definition digits_value (ds : list N) : Z :=
  fold_left (fun acc d => (10 * acc + Z.of_N (d - 48))%Z) ds 0%Z.

(** A JSON number: an optional minus sign, an integer part without a
    leading zero, an optional fraction, an optional exponent. *)
Definition parse_number (l : list N) : option (JsVal * list N) :=
  let '(neg, l1) := match l with 45 :: r => (true, r) | _ => (false, l) end in
  let '(ip, l2) := take_digits l1 in
  match ip with
  | [] => None
  | d0 :: ipr =>
      if (d0 =? 48) && negb (match ipr with [] => true | _ => false end) then None
      else
        let frac :=
          match l2 with
          | 46 :: r => let '(fp, l3) := take_digits r in
                       match fp with [] => None | _ => Some (fp, l3) end
          | _ => Some ([], l2)
          end in
        match frac with
        | None => None
        | Some (fp, l3) =>
            let expo :=
              match l3 with
              | c :: r =>
                  if (c =? 101) || (c =? 69) then
                    let '(eneg, r1) :=
                      match r with
                      | 45 :: r' => (true, r')
                      | 43 :: r' => (false, r')
                      | _ => (false, r)
                      end in
                    let '(ep, l4) := take_digits r1 in
                    match ep with
                    | [] => None
                    | _ => Some ((if eneg then - digits_value ep else digits_value ep)%Z, l4)
                    end
                  else Some (0%Z, l3)
              | [] => Some (0%Z, l3)
              end in
            match expo with
            | None => None
            | Some (ex, l4) =>
                let m := digits_value (ip ++ fp) in
                let '(m', e') := Number.normalize (if neg then - m else m)%Z
                                                  (ex - Z.of_nat (length fp))%Z in
                Some (VNum m' e', l4)
            end
        end
  end.

Definition hex4 (a b c d : N) : option N :=
  if Js.is_hex a && Js.is_hex b && Js.is_hex c && Js.is_hex d
  then Some (Js.hex_value a * 4096 + Js.hex_value b * 256
             + Js.hex_value c * 16 + Js.hex_value d)
  else None.

(** The characters of a string literal after its opening quote; [acc]
    holds the bytes read so far, last first. *)
Fixpoint parse_string (fuel : nat) (l acc : list N) : option (string * list N) :=
  match fuel with
  | O => None
  | S f =>
      match l with
      | [] => None
      | a :: r =>
          if a =? 34 then Some (Js.of_bytes (rev acc), r)
          else if a <? 32 then None
          else if a =? 92 then
            match r with
            | [] => None
            | c :: r' =>
                if (c =? 34) || (c =? 92) || (c =? 47) then parse_string f r' (c :: acc)
                else if c =? 98 then parse_string f r' (8 :: acc)
                else if c =? 102 then parse_string f r' (12 :: acc)
                else if c =? 110 then parse_string f r' (10 :: acc)
                else if c =? 114 then parse_string f r' (13 :: acc)
                else if c =? 116 then parse_string f r' (9 :: acc)
                else if c =? 117 then
                  match r' with
                  | h1 :: h2 :: h3 :: h4 :: r2 =>
                      match hex4 h1 h2 h3 h4 with
                      | None => None
                      | Some u =>
                          let single := parse_string f r2 (rev (Js.utf8 u) ++ acc) in
                          if Js.in_range 55296 56319 u then
                            match r2 with
                            | 92 :: 117 :: g1 :: g2 :: g3 :: g4 :: r3 =>
                                match hex4 g1 g2 g3 g4 with
                                | Some w =>
                                    if Js.in_range 56320 57343 w
                                    then parse_string f r3
                                           (rev (Js.utf8 (65536 + (u - 55296) * 1024 + (w - 56320))) ++ acc)
                                    else single
                                | None => single
                                end
                            | _ => single
                            end
                          else single
                      end
                  | _ => None
                  end
                else None
            end
          else parse_string f r (a :: acc)
      end
  end.

Definition expect (word : string) (v : JsVal) (l : list N) : option (JsVal * list N) :=
  let w := Js.bytes word in
  if bool_decide (firstn (length w) l = w) then Some (v, skipn (length w) l) else None.

Inductive Mode : Type :=
| MValue
| MElements (acc : list JsVal)
| MMembers (acc : list (string * JsVal)).

(** Recursive descent.  [MValue] reads one value; [MElements] reads the
    elements of an array after its bracket, [MMembers] the members of an
    object after its brace, both up to and including the closing one. *)
Fixpoint parse_go (fuel : nat) (mode : Mode) (l : list N) : option (JsVal * list N) :=
  match fuel with
  | O => None
  | S f =>
      match mode with
      | MValue =>
          match skip_ws l with
          | [] => None
          | a :: r =>
              if a =? 123 then
                match skip_ws r with
                | 125 :: r' => Some (VObj [], r')
                | _ => parse_go f (MMembers []) r
                end
              else if a =? 91 then
                match skip_ws r with
                | 93 :: r' => Some (VArr [], r')
                | _ => parse_go f (MElements []) r
                end
              else if a =? 34 then
                match parse_string (S (length r)) r [] with
                | Some (s, r') => Some (VStr s, r')
                | None => None
                end
              else if a =? 116 then expect "true" (VBool true) (a :: r)
              else if a =? 102 then expect "false" (VBool false) (a :: r)
              else if a =? 110 then expect "null" VNull (a :: r)
              else parse_number (a :: r)
          end
      | MElements acc =>
          match parse_go f MValue l with
          | None => None
          | Some (v, r) =>
              match skip_ws r with
              | 44 :: r' => parse_go f (MElements (v :: acc)) r'
              | 93 :: r' => Some (VArr (rev (v :: acc)), r')
              | _ => None
              end
          end
      | MMembers acc =>
          match skip_ws l with
          | 34 :: r =>
              match parse_string (S (length r)) r [] with
              | None => None
              | Some (k, r1) =>
                  match skip_ws r1 with
                  | 58 :: r2 =>
                      match parse_go f MValue r2 with
                      | None => None
                      | Some (v, r3) =>
                          match skip_ws r3 with
                          | 44 :: r4 => parse_go f (MMembers (Obj.set k v acc)) r4
                          | 125 :: r4 => Some (VObj (Obj.set k v acc), r4)
                          | _ => None
                          end
                      end
                  | _ => None
                  end
              end
          | _ => None
          end
      end
  end.

(** [JSON.parse(text)]: the value, or a thrown [SyntaxError]. *)
Definition parse (text : string) : Result JsVal :=
  let l := Js.bytes text in
  match parse_go (2 * length l + 2) MValue l with
  | Some (v, r) =>
      match skip_ws r with
      | [] => Ok v
      | _ => Throw (SyntaxError "Unexpected non-whitespace character after JSON")
      end
  | None => Throw (SyntaxError "Unexpected token in JSON")
  end.

Definition hex4_of (n : N) : list N :=
  [Js.hex_digit (n / 4096); Js.hex_digit ((n / 256) mod 16);
   Js.hex_digit ((n / 16) mod 16); Js.hex_digit (n mod 16)].

(** The characters of a quoted string, escaped. *)
Fixpoint quote_bytes (l : list N) : list N :=
  match l with
  | [] => []
  | a :: r =>
      if a =? 34 then 92 :: 34 :: quote_bytes r
      else if a =? 92 then 92 :: 92 :: quote_bytes r
      else if a =? 8 then 92 :: 98 :: quote_bytes r
      else if a =? 12 then 92 :: 102 :: quote_bytes r
      else if a =? 10 then 92 :: 110 :: quote_bytes r
      else if a =? 13 then 92 :: 114 :: quote_bytes r
      else if a =? 9 then 92 :: 116 :: quote_bytes r
      else if a <? 32 then 92 :: 117 :: hex4_of a ++ quote_bytes r
      else match r with
           | b :: c :: r' =>
               if (a =? 237) && Js.in_range 160 191 b
               then 92 :: 117 :: hex4_of (53248 + (b mod 64) * 64 + c mod 64)
                      ++ quote_bytes r'
               else a :: quote_bytes r
           | _ => a :: quote_bytes r
           end
  end.

Definition quote (s : string) : string :=
  Js.of_bytes (34 :: quote_bytes (Js.bytes s) ++ [34]).

(** The text of a value inside a document; [undefined] prints as [null],
    which is what an array element does, and a property holding
    [undefined] is left out. *)
Fixpoint stringify_val (v : JsVal) : string :=
  match v with
  | VUndef | VNull => "null"
  | VBool b => if b then "true" else "false"
  | VNum m e => Number.toString m e
  | VStr s => quote s
  | VArr l =>
      "[" +:+ String.concat ","
                ((fix items (l : list JsVal) : list string :=
                    match l with
                    | [] => []
                    | x :: r => stringify_val x :: items r
                    end) l) +:+ "]"
  | VObj o =>
      "{" +:+ String.concat ","
                ((fix members (o : list (string * JsVal)) : list string :=
                    match o with
                    | [] => []
                    | (k, VUndef) :: r => members r
                    | (k, x) :: r => (quote k +:+ ":" +:+ stringify_val x) :: members r
                    end) o) +:+ "}"
  end.

(** [JSON.stringify(v)]: [None] stands for the result [undefined]. *)
Definition stringify (v : JsVal) : option string :=
  match v with
  | VUndef => None
  | _ => Some (stringify_val v)
  end.

End JSON.

(* ===================================================================== *)
(** * Node's [crypto]: SHA-256, HMAC, constant-time comparison *)
(* ===================================================================== *)

Module Crypto.

Definition w32 (x : N) : N := x mod 2 ^ 32.
Definition add32 (a b : N) : N := w32 (a + b).
Definition rotr (n x : N) : N := N.lor (N.shiftr x n) (w32 (N.shiftl x (32 - n))).
Definition not32 (x : N) : N := 2 ^ 32 - 1 - x.

Definition Ch (x y z : N) : N := N.lxor (N.land x y) (N.land (not32 x) z).
Definition Maj (x y z : N) : N :=
  N.lxor (N.lxor (N.land x y) (N.land x z)) (N.land y z).
Definition Sigma0 (x : N) : N := N.lxor (N.lxor (rotr 2 x) (rotr 13 x)) (rotr 22 x).
Definition Sigma1 (x : N) : N := N.lxor (N.lxor (rotr 6 x) (rotr 11 x)) (rotr 25 x).
Definition sigma0 (x : N) : N := N.lxor (N.lxor (rotr 7 x) (rotr 18 x)) (N.shiftr x 3).
Definition sigma1 (x : N) : N := N.lxor (N.lxor (rotr 17 x) (rotr 19 x)) (N.shiftr x 10).

(** Integer cube root by bisection, for the round constants. *)
Fixpoint icbrt_aux (bits : nat) (acc n : N) : N :=
  match bits with
  | O => acc
  | S b => let c := N.lor acc (N.shiftl 1 (N.of_nat b)) in
           icbrt_aux b (if c * c * c <=? n then c else acc) n
  end.

Definition primes64 : list N :=
  [2; 3; 5; 7; 11; 13; 17; 19; 23; 29; 31; 37; 41; 43; 47; 53; 59; 61; 67; 71;
   73; 79; 83; 89; 97; 101; 103; 107; 109; 113; 127; 131; 137; 139; 149; 151;
   157; 163; 167; 173; 179; 181; 191; 193; 197; 199; 211; 223; 227; 229; 233;
   239; 241; 251; 257; 263; 269; 271; 277; 281; 283; 293; 307; 311].

(** Round constants: the first 32 bits of the fractional parts of the cube
    roots of the first 64 primes. *)
Definition K256 : list N :=
  Eval vm_compute in map (fun p => w32 (icbrt_aux 44 0 (p * 2 ^ 96))) primes64.

(** Initial hash value: the same for the square roots of the first 8. *)
Definition H256 : list N :=
  Eval vm_compute in map (fun p => w32 (N.sqrt (p * 2 ^ 64))) (firstn 8 primes64).

(** Message schedule; [w] holds the words so far, newest first. *)
Fixpoint schedule (n : nat) (w : list N) : list N :=
  match n with
  | O => w
  | S n' =>
      schedule n'
        (add32 (add32 (sigma1 (nth 1 w 0)) (nth 6 w 0))
               (add32 (sigma0 (nth 14 w 0)) (nth 15 w 0)) :: w)
  end.

Definition round (st : list N) (kw : N * N) : list N :=
  match st with
  | [a; b; c; d; e; f; g; h] =>
      let t1 := add32 (add32 (add32 h (Sigma1 e)) (add32 (Ch e f g) (fst kw))) (snd kw) in
      let t2 := add32 (Sigma0 a) (Maj a b c) in
      [add32 t1 t2; a; b; c; add32 d t1; e; f; g]
  | _ => st
  end.

Fixpoint zipWith {A B C : Type} (f : A -> B -> C) (l : list A) (m : list B) : list C :=
  match l, m with
  | a :: l', b :: m' => f a b :: zipWith f l' m'
  | _, _ => []
  end.

Definition compress (h block : list N) : list N :=
  let w := rev (schedule 48 (rev block)) in
  zipWith add32 h (fold_left round (zipWith pair K256 w) h).

Definition be_word (b0 b1 b2 b3 : N) : N :=
  N.lor (N.lor (N.shiftl b0 24) (N.shiftl b1 16)) (N.lor (N.shiftl b2 8) b3).

Fixpoint words_of_bytes (fuel : nat) (bs : list N) : list N :=
  match fuel, bs with
  | S f, b0 :: b1 :: b2 :: b3 :: r => be_word b0 b1 b2 b3 :: words_of_bytes f r
  | _, _ => []
  end.

Fixpoint blocks (fuel : nat) (h ws : list N) : list N :=
  match fuel with
  | O => h
  | S f => match ws with
           | [] => h
           | _ => blocks f (compress h (firstn 16 ws)) (skipn 16 ws)
           end
  end.

Definition be_bytes4 (x : N) : list N :=
  [N.shiftr x 24 mod 256; N.shiftr x 16 mod 256; N.shiftr x 8 mod 256; x mod 256].

Definition pad (msg : list N) : list N :=
  let l := N.of_nat (length msg) in
  let k := N.to_nat ((64 + 55 - l mod 64) mod 64) in
  msg ++ [128] ++ repeat 0 k
      ++ be_bytes4 (N.shiftr (8 * l) 32 mod 2 ^ 32) ++ be_bytes4 (8 * l mod 2 ^ 32).

Definition sha256 (msg : list N) : list N :=
  let p := pad msg in
  let ws := words_of_bytes (length p) p in
  flat_map be_bytes4 (blocks (length ws) H256 ws).

Definition hmac_sha256 (key msg : list N) : list N :=
  let k0 := if Nat.ltb 64 (length key) then sha256 key else key in
  let k := k0 ++ repeat 0 (Nat.sub 64 (length k0)) in
  sha256 (map (N.lxor 92) k ++ sha256 (map (N.lxor 54) k ++ msg)).

Fixpoint hex (bs : list N) : list N :=
  match bs with
  | [] => []
  | b :: r => Js.hex_digit ((b / 16) mod 16) :: Js.hex_digit (b mod 16) :: hex r
  end.

(** [crypto.createHmac('sha256', secret).update(data).digest('hex')] *)
Definition hmac_sha256_hex (secret data : string) : string :=
  Js.of_bytes (hex (hmac_sha256 (Js.bytes secret) (Js.bytes data))).

(** [crypto.timingSafeEqual(Buffer.from(a), Buffer.from(b))]: buffers of
    different byte lengths make it throw a [RangeError]. *)
Definition timingSafeEqual (a b : string) : Result bool :=
  if Nat.eqb (String.length a) (String.length b)
  then Ok (String.eqb a b)
  else Throw (RangeError "Input buffers must have the same byte length").

End Crypto.

(* ===================================================================== *)
(** * lib/webhook.ts *)
(* ===================================================================== *)

(** A parameter of type [string | null] is an [option string]. *)
Definition falsy_string (s : option string) : bool :=
  match s with
  | None => true
  | Some s => String.eqb s ""
  end.

Definition verifyWebhookSignature
    (payload : string) (signature timestamp : option string) (secret : string)
  : Result bool :=
  if falsy_string signature || falsy_string timestamp then Ok false
  else
    match signature, timestamp with
    | Some signature, Some timestamp =>
        (* Recreate the signature using the webhook secret *)
        let signaturePayload := timestamp +:+ "." +:+ payload in
        let expectedSignature := Crypto.hmac_sha256_hex secret signaturePayload in
        (* Compare signatures using a timing-safe comparison *)
        Crypto.timingSafeEqual signature expectedSignature
    | _, _ => Ok false
    end.

(* ===================================================================== *)
(** * The world: stores, module state, and what the outside answers *)
(* ===================================================================== *)

(** The Redis keyspace: lists and sets by key. *)
Record Redis : Type := {
  lists : gmap string (list string);
  sets : gmap string (gset string)
}.

(** A row of the table [minted_casts]; a column holds the value that was
    sent for it, [VUndef] when none was. *)
Record MintedCast : Type := {
  cast_hash : JsVal;
  zora_url : JsVal;
  caster_username : JsVal;
  minter_username : JsVal;
  mint_hash : JsVal;
  minted_at : JsVal;
  contract_address : JsVal;
  token_id : JsVal
}.

(** The module-level [queueHealth] object of the worker. *)
Record QueueHealth : Type := {
  status : string;
  lastProcessed : option string;
  currentQueueSize : N;
  failedMintsCount : N;
  errors : list string
}.

(** A transaction handed to [walletClient.sendTransaction]. *)
Record Transaction : Type := {
  tx_to : string;
  tx_data : string
}.

(** Effects in the order they happened: a journal kept beside the state,
    which the program itself never reads. *)
Inductive Event : Type :=
| Persisted (cast_hash : string)        (* history row written *)
| Marked (cast_hash : string)           (* added to the dedup set *)
| Replied (parent : string)             (* confirmation reply accepted *)
| FailedPushed (entry : string)         (* pushed on the failed list *)
| Enqueued (entry : string)             (* pushed on the pending list *)
| Dequeued (entry : string)             (* popped from the pending list *)
| Scheduled (delay : N)                 (* setTimeout(processQueueItem, delay) *)
| Requested (url : string) (attempt : nat)      (* a fetch made by fetchWithRetry *)
| Waited (delay : N)                    (* a pause before a retry *)
| Submitted (tx : Transaction).         (* transaction sent to the chain *)

Record World : Type := {
  redis : Redis;
  minted_casts : gmap string MintedCast;     (* keyed by the unique cast_hash *)
  deployed_splits : gset string;             (* split addresses that exist on chain *)
  isProcessing : bool;
  isShuttingDown : bool;
  lastProcessedTime : option string;
  queueHealth : QueueHealth;
  journal : list Event                       (* newest first *)
}.

Record Response : Type := {
  resp_status : N;
  resp_body : string
}.

Definition resp_ok (r : Response) : bool := Js.in_range 200 299 (resp_status r).

Record RequestInit : Type := {
  req_method : string;
  req_headers : list (string * string);
  req_body : option string
}.

(** How a [fetch] settles, and after how many milliseconds. *)
Inductive Settled : Type :=
| Responds (r : Response)
| Fails (message : string).

Record FetchOutcome : Type := {
  elapsed_ms : N;
  settled : Settled
}.

(** The answer of the chain to [sendTransaction] followed by
    [waitForTransactionReceipt]. *)
Inductive TxOutcome : Type :=
| Mined (transactionHash : string)         (* receipt of a successful transaction *)
| Reverted (transactionHash : string)      (* receipt of a reverted transaction *)
| Rejected (message : string)              (* sendTransaction throws *)
| NoReceipt (message : string).            (* sent, but waiting for the receipt throws *)

(** The configuration handed to the splits SDK. *)
Record SplitsConfig : Type := {
  recipients : list (string * N);          (* address, percentAllocation *)
  distributorFeePercent : N
}.

Record Env : Type := {
  now : string;                                        (* new Date().toISOString() *)
  fetch : string -> RequestInit -> nat -> FetchOutcome;  (* by url, options, attempt *)
  insert_failure : MintedCast -> option Thrown;        (* the store refuses the insert *)
  select_failure : string -> option Thrown;            (* the store refuses the select *)
  (* the splits SDK and the chain: the address of an immutable split is
     a function of its configuration *)
  predictImmutableSplitAddress : SplitsConfig -> Result string;
  createSplit_callData : SplitsConfig -> Result (string * string);  (* data, address *)
  sendTransaction : Transaction -> TxOutcome;
  (* process.env *)
  NEYNAR_API_KEY : option string;
  NEYNAR_SIGNER_UUID : option string;
  API_KEY : option string;
  NEXT_PUBLIC_CONTRACT_ADDRESS : option string;
  NEXT_PUBLIC_APP_URL : option string
}.

(** [process.env.X || ''] and friends *)
Definition env_or (v : option string) (d : string) : string :=
  match v with
  | Some s => if String.eqb s "" then d else s
  | None => d
  end.

(* ===================================================================== *)
(** * The monad of effectful code *)
(* ===================================================================== *)

Definition M (A : Type) : Type := World -> Result A * World.

Definition ret {A : Type} (a : A) : M A := fun w => (Ok a, w).

Definition throw {A : Type} (e : Thrown) : M A := fun w => (Throw e, w).

Definition bind {A B : Type} (m : M A) (k : A -> M B) : M B :=
  fun w => match m w with
           | (Ok a, w') => k a w'
           | (Throw e, w') => (Throw e, w')
           end.

Definition lift {A : Type} (r : Result A) : M A := fun w => (r, w).

Definition gets {A : Type} (f : World -> A) : M A := fun w => (Ok (f w), w).

Definition modify (f : World -> World) : M unit := fun w => (Ok tt, f w).

Declare Scope monad_scope.
Delimit Scope monad_scope with monad.
Notation "x <- m ;; k" := (bind m (fun x => k))
  (at level 100, m at next level, right associativity) : monad_scope.
Notation "m ;;; k" := (bind m (fun _ => k))
  (at level 100, right associativity) : monad_scope.

(** [try { body } catch (error) { handler } finally { final }] *)
Definition try_catch_finally (body : M unit) (handler : Thrown -> M unit)
    (final : M unit) : M unit :=
  fun w =>
    match body w with
    | (Ok _, w1) => final w1
    | (Throw e, w1) =>
        match handler e w1 with
        | (Ok _, w2) => final w2
        | (Throw e', w2) =>
            match final w2 with
            | (Ok _, w3) => (Throw e', w3)
            | (Throw e'', w3) => (Throw e'', w3)
            end
        end
    end.

(** [try { body } catch (error) { handler }], with a result. *)
Definition try_catch {A : Type} (body : M A) (handler : Thrown -> M A) : M A :=
  fun w =>
    match body w with
    | (Ok a, w1) => (Ok a, w1)
    | (Throw e, w1) => handler e w1
    end.

Definition set_redis (r : Redis) (w : World) : World :=
  {| redis := r; minted_casts := minted_casts w; deployed_splits := deployed_splits w;
     isProcessing := isProcessing w; isShuttingDown := isShuttingDown w;
     lastProcessedTime := lastProcessedTime w; queueHealth := queueHealth w;
     journal := journal w |}.

Definition set_minted_casts (t : gmap string MintedCast) (w : World) : World :=
  {| redis := redis w; minted_casts := t; deployed_splits := deployed_splits w;
     isProcessing := isProcessing w; isShuttingDown := isShuttingDown w;
     lastProcessedTime := lastProcessedTime w; queueHealth := queueHealth w;
     journal := journal w |}.

Definition set_deployed_splits (d : gset string) (w : World) : World :=
  {| redis := redis w; minted_casts := minted_casts w; deployed_splits := d;
     isProcessing := isProcessing w; isShuttingDown := isShuttingDown w;
     lastProcessedTime := lastProcessedTime w; queueHealth := queueHealth w;
     journal := journal w |}.

Definition set_isProcessing (b : bool) (w : World) : World :=
  {| redis := redis w; minted_casts := minted_casts w; deployed_splits := deployed_splits w;
     isProcessing := b; isShuttingDown := isShuttingDown w;
     lastProcessedTime := lastProcessedTime w; queueHealth := queueHealth w;
     journal := journal w |}.

Definition set_lastProcessedTime (t : option string) (w : World) : World :=
  {| redis := redis w; minted_casts := minted_casts w; deployed_splits := deployed_splits w;
     isProcessing := isProcessing w; isShuttingDown := isShuttingDown w;
     lastProcessedTime := t; queueHealth := queueHealth w;
     journal := journal w |}.

Definition set_queueHealth (h : QueueHealth) (w : World) : World :=
  {| redis := redis w; minted_casts := minted_casts w; deployed_splits := deployed_splits w;
     isProcessing := isProcessing w; isShuttingDown := isShuttingDown w;
     lastProcessedTime := lastProcessedTime w; queueHealth := h;
     journal := journal w |}.

Definition record_event (e : Event) (w : World) : World :=
  {| redis := redis w; minted_casts := minted_casts w; deployed_splits := deployed_splits w;
     isProcessing := isProcessing w; isShuttingDown := isShuttingDown w;
     lastProcessedTime := lastProcessedTime w; queueHealth := queueHealth w;
     journal := e :: journal w |}.

Definition emit (e : Event) : M unit := modify (record_event e).

(** [setTimeout(processQueueItem, delay)] *)
Definition setTimeout_processQueueItem (delay : N) : M unit := emit (Scheduled delay).

Local Open Scope monad_scope.

(* ===================================================================== *)
(** * lib/redis.ts *)
(* ===================================================================== *)

Definition MINT_QUEUE : string := "mint_queue".
Definition FAILED_MINT_QUEUE : string := "failed_mint_queue".

(** The Redis commands behind the [redis] object of the module.  The
    store is taken to be reachable: a command always answers. *)
Module RedisCmd.

Definition list_at (key : string) (r : Redis) : list string :=
  default [] (lists r !! key).

Definition set_at (key : string) (r : Redis) : gset string :=
  default ∅ (sets r !! key).

(** A key is removed when its list becomes empty. *)
Definition store_list (key : string) (l : list string) (r : Redis) : Redis :=
  {| lists := match l with [] => delete key (lists r) | _ => <[key := l]> (lists r) end;
     sets := sets r |}.

Definition store_set (key : string) (s : gset string) (r : Redis) : Redis :=
  {| lists := lists r; sets := <[key := s]> (sets r) |}.

(** SADD: the number of members added. *)
Definition SADD (key value : string) (r : Redis) : N * Redis :=
  if bool_decide (value ∈ set_at key r) then (0, r)
  else (1, store_set key ({[value]} ∪ set_at key r) r).

Definition SISMEMBER (key value : string) (r : Redis) : bool :=
  bool_decide (value ∈ set_at key r).

(** LPUSH: the head of the list is index 0; gives the new length. *)
Definition LPUSH (key value : string) (r : Redis) : N * Redis :=
  let l := value :: list_at key r in
  (N.of_nat (length l), store_list key l r).

(** LRANGE with inclusive bounds; a negative index counts from the tail. *)
Definition LRANGE (key : string) (start stop : Z) (r : Redis) : list string :=
  let l := list_at key r in
  let n := Z.of_nat (length l) in
  let s := (if start <? 0 then Z.max 0 (n + start) else start)%Z in
  let e := (if stop <? 0 then n + stop else Z.min stop (n - 1))%Z in
  if (e <? s)%Z then [] else take (Z.to_nat (e - s + 1)) (drop (Z.to_nat s) l).

(** RPOP: removes and gives the tail element. *)
Definition RPOP (key : string) (r : Redis) : option string * Redis :=
  match last (list_at key r) with
  | None => (None, r)
  | Some x => (Some x, store_list key (removelast (list_at key r)) r)
  end.

End RedisCmd.

(** The client accepts only strings as arguments. *)
Definition redis_argument (v : JsVal) : Result string :=
  match v with
  | VStr s => Ok s
  | _ => Throw (TypeError "Invalid argument type")
  end.

Module redis_ops.

Definition sAdd (key : string) (value : JsVal) : M N :=
  value <- lift (redis_argument value) ;;
  fun w => let '(n, r) := RedisCmd.SADD key value (redis w) in (Ok n, set_redis r w).

Definition sIsMember (key : string) (value : JsVal) : M bool :=
  value <- lift (redis_argument value) ;;
  gets (fun w => RedisCmd.SISMEMBER key value (redis w)).

Definition lPush (key : string) (value : option string) : M N :=
  match value with
  | None => throw (TypeError "Invalid argument type")
  | Some value =>
      fun w => let '(n, r) := RedisCmd.LPUSH key value (redis w) in (Ok n, set_redis r w)
  end.

Definition lRange (key : string) (start stop : Z) : M (list string) :=
  gets (fun w => RedisCmd.LRANGE key start stop (redis w)).

Definition rPop (key : string) : M (option string) :=
  fun w => let '(x, r) := RedisCmd.RPOP key (redis w) in (Ok x, set_redis r w).

End redis_ops.

(** Marks a cast as processed, to prevent duplicate processing. *)
Definition markCastAsProcessed (castHash : JsVal) : M unit :=
  _ <- redis_ops.sAdd "processed_casts" castHash ;;
  match castHash with
  | VStr h => emit (Marked h)
  | _ => ret tt
  end.

(** Checks if a cast has already been processed. *)
Definition isCastProcessed (castHash : JsVal) : M bool :=
  redis_ops.sIsMember "processed_casts" castHash.

Definition enqueueCast (data : JsVal) : M N :=
  n <- redis_ops.lPush MINT_QUEUE (JSON.stringify data) ;;
  match JSON.stringify data with
  | Some s => emit (Enqueued s) ;;; ret n
  | None => ret n
  end.

(** Gets the next cast from the queue without removing it. *)
Definition peekQueue : M JsVal :=
  data <- redis_ops.lRange MINT_QUEUE 0 0 ;;
  match data with
  | [] => ret VNull
  | d0 :: _ => lift (JSON.parse d0)
  end.

(** Gets and removes the next cast from the queue. *)
Definition dequeueCast : M JsVal :=
  data <- redis_ops.rPop MINT_QUEUE ;;
  match data with
  | None => ret VNull
  | Some data =>
      emit (Dequeued data) ;;;
      if String.eqb data "" then ret VNull
      else lift (JSON.parse data)
  end.

(** Adds a failed mint to the failed list. *)
Definition addToFailedQueue (env : Env) (data : JsVal) (error : string) : M N :=
  let failedMint :=
    VObj (Obj.set "failedAt" (VStr (now env))
            (Obj.set "error" (VStr error) (Obj.own_props data))) in
  n <- redis_ops.lPush FAILED_MINT_QUEUE (JSON.stringify failedMint) ;;
  emit (FailedPushed (default "" (JSON.stringify failedMint))) ;;;
  ret n.

Fixpoint parse_all (l : list string) : Result (list JsVal) :=
  match l with
  | [] => Ok []
  | x :: r =>
      match JSON.parse x with
      | Throw e => Throw e
      | Ok v => match parse_all r with
                | Throw e => Throw e
                | Ok vs => Ok (v :: vs)
                end
      end
  end.

(** Gets all failed mints. *)
Definition getFailedMints : M (list JsVal) :=
  data <- redis_ops.lRange FAILED_MINT_QUEUE 0 (-1) ;;
  lift (parse_all data).

(* ===================================================================== *)
(** * lib/supabase.ts and the table [minted_casts] *)
(* ===================================================================== *)

Module Supabase.

(** The text stored in a [text] column for a JSON value. *)
Definition as_text (v : JsVal) : string :=
  match v with
  | VStr s => s
  | _ => JSON.stringify_val v
  end.

(** The error object of the client for a refused statement. *)
Definition pg_error (code message : string) : Thrown :=
  ThrownValue (VObj [("code", VStr code); ("details", VNull); ("hint", VNull);
                     ("message", VStr message)]).

(** The columns declared [not null] without a default. *)
Definition not_null_ok (row : MintedCast) : bool :=
  negb (Value.nullish (cast_hash row)) && negb (Value.nullish (zora_url row))
  && negb (Value.nullish (caster_username row))
  && negb (Value.nullish (minter_username row))
  && negb (Value.nullish (mint_hash row)) && negb (Value.nullish (minted_at row)).

(** [supabase.from('minted_casts').insert([row])]: the [error] of the
    answer, [None] for [null].  [cast_hash] is [unique]. *)
Definition insert (env : Env) (row : MintedCast) : M (option Thrown) :=
  fun w =>
    match insert_failure env row with
    | Some e => (Ok (Some e), w)
    | None =>
        if negb (not_null_ok row)
        then (Ok (Some (pg_error "23502" "null value violates not-null constraint")), w)
        else
          let key := as_text (cast_hash row) in
          match minted_casts w !! key with
          | Some _ =>
              (Ok (Some (pg_error "23505"
                           "duplicate key value violates unique constraint")), w)
          | None =>
              (Ok None,
               record_event (Persisted key)
                 (set_minted_casts (<[key := row]> (minted_casts w)) w))
          end
    end.

(** [select('*').eq('cast_hash', castHash).single()]: the row, or the
    error; no row is the error with code PGRST116. *)
Definition select_single (env : Env) (castHash : JsVal) : M (Result MintedCast) :=
  gets (fun w =>
    match select_failure env (as_text castHash) with
    | Some e => Throw e
    | None =>
        match minted_casts w !! as_text castHash with
        | Some row => Ok row
        | None => Throw (pg_error "PGRST116" "JSON object requested, no rows returned")
        end
    end).

Definition row_value (row : MintedCast) : JsVal :=
  VObj [("cast_hash", VStr (as_text (cast_hash row)));
        ("zora_url", zora_url row);
        ("caster_username", caster_username row);
        ("minter_username", minter_username row);
        ("mint_hash", mint_hash row);
        ("minted_at", minted_at row);
        ("contract_address", Value.or (contract_address row) VNull);
        ("token_id", Value.or (token_id row) VNull)].

End Supabase.

(** Stores a newly minted NFT in the database. *)
Definition storeMintedNFT (env : Env)
    (castHash zoraUrl casterUsername minterUsername mintHash timestamp
     contractAddress tokenId : JsVal) : M unit :=
  error <- Supabase.insert env
             {| cast_hash := castHash; zora_url := zoraUrl;
                caster_username := casterUsername; minter_username := minterUsername;
                mint_hash := mintHash; minted_at := timestamp;
                contract_address := contractAddress; token_id := tokenId |} ;;
  match error with
  | Some error => throw error
  | None => ret tt
  end.

Definition thrown_code (e : Thrown) : JsVal :=
  match e with
  | ThrownValue v => Value.member_opt v "code"
  | ErrorInstance _ _ => VUndef
  end.

(** Retrieves complete minting details for a cast, [null] when not minted. *)
Definition getMintingDetails (env : Env) (castHash : JsVal) : M JsVal :=
  answer <- Supabase.select_single env castHash ;;
  match answer with
  | Throw error =>
      match thrown_code error with
      | VStr "PGRST116" => ret VNull
      | _ => throw error
      end
  | Ok data => ret (Supabase.row_value data)
  end.


(* ===================================================================== *)
(** * lib/neynar.ts *)
(* ===================================================================== *)

(** [response.json()] and [response.text()] *)
Definition resp_json (r : Response) : Result JsVal := JSON.parse (resp_body r).
Definition resp_text (r : Response) : string := resp_body r.

(** A bare [await fetch(url, init)]: no abort signal, so the call settles
    whenever the outside does. *)
Definition plain_fetch (env : Env) (url : string) (init : RequestInit) : Result Response :=
  match settled (fetch env url init 0) with
  | Responds r => Ok r
  | Fails message => Throw (TypeError message)
  end.

Definition NEYNAR_API_BASE : string := "https://api.neynar.com/v2/farcaster".

Module neynarClient.

Definition publishCast (env : Env) (signer_uuid text parent embeds : JsVal) : M JsVal :=
  let embeds := match embeds with VUndef => VArr [] | _ => embeds end in
  response <- lift (plain_fetch env (NEYNAR_API_BASE +:+ "/cast")
     {| req_method := "POST";
        req_headers := [("api_key", default "" (NEYNAR_API_KEY env));
                        ("Content-Type", "application/json")];
        req_body := JSON.stringify
                      (Obj.literal [("signer_uuid", signer_uuid); ("text", text);
                                    ("parent", parent); ("embeds", embeds)]) |}) ;;
  if negb (resp_ok response) then
    error <- lift (resp_json response) ;;
    message <- lift (Value.member error "message") ;;
    throw (Error ("Neynar API error: " +:+
                  Value.toString (Value.or message (VStr "Unknown error"))))
  else
    emit (Replied (Value.toString parent)) ;;;
    lift (resp_json response).

End neynarClient.

(* ===================================================================== *)
(** * api/createSplit/route.ts *)
(* ===================================================================== *)

Module CreateSplit.

(** Platform wallet address that receives the platform's share. *)
Definition EDITMINT_WALLET : string := "0x9e1C8368d6773183e2E0b521e73a49D094D25818".

(** Revenue distribution percentages. *)
Definition PLATFORM_SHARE : N := 45.
Definition CASTER_SHARE : N := 50.
Definition MINTER_SHARE : N := 5.

Definition typeof (v : JsVal) : string :=
  match v with
  | VUndef => "undefined"
  | VNull | VArr _ | VObj _ => "object"
  | VBool _ => "boolean"
  | VNum _ _ => "number"
  | VStr _ => "string"
  end.

(** [/^0x[0-9a-f]{40}$/.test(s)] *)
Definition is_address (s : string) : bool :=
  match Js.bytes s with
  | 48 :: 120 :: digits => Nat.eqb (length digits) 40 && forallb Js.is_lower_hex digits
  | _ => false
  end.

(** Validates and normalizes Ethereum addresses. *)
Definition validateAndConvertAddress (address : JsVal) : Result string :=
  match address with
  | VStr a =>
      let trimmedAddress := Js.toLowerCase (Js.trim a) in
      if negb (is_address trimmedAddress)
      then Throw (Error ("Invalid wallet address format: " +:+ a))
      else Ok trimmedAddress
  | _ => Throw (Error ("Wallet address must be a string. Received type: "
                       +:+ typeof address))
  end.

(** Check if caster and minter are the same. *)
Definition isSameAddress (casterAddress minterAddress : string) : bool :=
  String.eqb (Js.toLowerCase casterAddress) (Js.toLowerCase minterAddress).

Definition splitsConfig (casterAddress minterAddress : string) : SplitsConfig :=
  {| recipients :=
       if isSameAddress casterAddress minterAddress
       then [ (* If same address, combine caster and minter shares *)
              (casterAddress, CASTER_SHARE + MINTER_SHARE);
              (EDITMINT_WALLET, PLATFORM_SHARE) ]
       else [ (casterAddress, CASTER_SHARE);
              (minterAddress, MINTER_SHARE);
              (EDITMINT_WALLET, PLATFORM_SHARE) ];
     distributorFeePercent := 0 |}.

Definition percent (n : N) : JsVal := VStr (pretty n +:+ "%").

(** The [shares] object of the answer. *)
Definition shares (casterAddress minterAddress : string) : JsVal :=
  if isSameAddress casterAddress minterAddress
  then Obj.literal [("caster", percent (CASTER_SHARE + MINTER_SHARE));
                    ("platform", percent PLATFORM_SHARE)]
  else Obj.literal [("caster", percent CASTER_SHARE);
                    ("minter", percent MINTER_SHARE);
                    ("platform", percent PLATFORM_SHARE)].

(** Predicts the split address and deploys the split unless it exists:
    the address, and the transaction hash ([VUndef] for an existing one). *)
Definition resolveSplit (env : Env) (cfg : SplitsConfig) : M (string * JsVal) :=
  predicted <- lift (predictImmutableSplitAddress env cfg) ;;
  splitExists <- gets (fun w => bool_decide (predicted ∈ deployed_splits w)) ;;
  if negb splitExists then
    (* Create new split contract if one doesn't already exist *)
    call <- lift (createSplit_callData env cfg) ;;
    let '(splitData, address) := call in
    let tx := {| tx_to := address; tx_data := splitData |} in
    emit (Submitted tx) ;;;
    match sendTransaction env tx with
    | Rejected message => throw (Error message)
    | NoReceipt message => throw (Error message)
    | Reverted transactionHash => ret (predicted, VStr transactionHash)
    | Mined transactionHash =>
        modify (fun w => set_deployed_splits ({[predicted]} ∪ deployed_splits w) w) ;;;
        ret (predicted, VStr transactionHash)
    end
  else ret (predicted, VUndef).

Definition json_response (answer : N * JsVal) : Response :=
  {| resp_status := fst answer; resp_body := default "" (JSON.stringify (snd answer)) |}.

(** The handler up to the serialization of its answer: the status and
    the object that becomes the body. *)
Definition handle (env : Env) (body : string) : M (N * JsVal) :=
  try_catch
    (data <- lift (JSON.parse body) ;;
     (* Validate required wallet addresses *)
     let casterWallet := Value.member_opt data "casterWallet" in
     let minterWallet := Value.member_opt data "minterWallet" in
     if negb (Value.truthy casterWallet) || negb (Value.truthy minterWallet)
     then throw (Error "Both casterWallet and minterWallet addresses are required")
     else
       (* Validate and convert addresses *)
       casterAddress <- lift (validateAndConvertAddress casterWallet) ;;
       minterAddress <- lift (validateAndConvertAddress minterWallet) ;;
       resolved <- resolveSplit env (splitsConfig casterAddress minterAddress) ;;
       let '(splitAddress, transactionHash) := resolved in
       (* Return successful response with split contract details *)
       ret (201,
            Obj.literal
              [("success", VBool true);
               ("split", Obj.literal
                  [("address", VStr splitAddress);
                   ("transactionHash", transactionHash);
                   ("shares", shares casterAddress minterAddress)])]))
    (fun error =>
       ret (500,
            Obj.literal
              [("success", VBool false);
               ("error", VStr (match error with
                               | ErrorInstance _ message => message
                               | ThrownValue _ =>
                                   "An unexpected error occurred while creating the split contract"
                               end))])).

Definition POST (env : Env) (body : string) : M Response :=
  answer <- handle env body ;;
  ret (json_response answer).

End CreateSplit.

(* ===================================================================== *)
(** * api/webhook/neynar/route.ts *)
(* ===================================================================== *)

Module Webhook.

Record Request : Type := {
  headers : list (string * string);
  body : string
}.

(** Splits off a prefix. *)
Fixpoint strip_prefix (p l : list N) : option (list N) :=
  match p, l with
  | [], _ => Some l
  | a :: p', b :: l' => if a =? b then strip_prefix p' l' else None
  | _ :: _, [] => None
  end.

(** [first \s+ second], anchored at both ends, on lower-cased bytes. *)
Definition two_words (first second : string) (l : list N) : bool :=
  match strip_prefix (Js.bytes first) l with
  | None => false
  | Some rest =>
      let after := Js.dropWs rest in
      negb (Nat.eqb (length after) (length rest))
      && bool_decide (after = Js.bytes second)
  end.

(** [text.match(/^(!mint|ok\s+banger|@edit\s+mint)$/i)] is not [null]. *)
Definition is_mint_command (text : string) : bool :=
  let l := map Js.lower_byte (Js.bytes text) in
  bool_decide (l = Js.bytes "!mint")
  || two_words "ok" "banger" l
  || two_words "@edit" "mint" l.

(** [Number(s) < 0.69] for a string: white space is trimmed, the empty
    string is 0, a decimal literal is its value, [Infinity] with a sign is
    itself, a literal in base 16, 8 or 2 is below exactly when it is 0,
    and anything else is [NaN], for which every comparison is false. *)
Definition string_below_069 (s : string) : bool :=
  let t := Js.trim_bytes (Js.bytes s) in
  match t with
  | [] => true
  | a :: r =>
      if bool_decide (t = Js.bytes "-Infinity") then true
      else if (a =? 48) && match r with
                           | p :: d :: ds =>
                               ((p =? 120) || (p =? 88)) && forallb Js.is_hex (d :: ds)
                               || ((p =? 111) || (p =? 79)) && forallb (Js.in_range 48 55) (d :: ds)
                               || ((p =? 98) || (p =? 66)) && forallb (Js.in_range 48 49) (d :: ds)
                           | _ => false
                           end
      then match r with
           | _ :: ds => forallb (N.eqb 48) ds
           | [] => false
           end
      else
        let '(neg, u) := if a =? 45 then (true, r) else if a =? 43 then (false, r) else (false, t) in
        let '(ip, u1) := JSON.take_digits u in
        let '(fp, u2) := match u1 with
                         | 46 :: u' => JSON.take_digits u'
                         | _ => ([], u1)
                         end in
        let dot := match u1 with 46 :: _ => true | _ => false end in
        if match ip, fp with [], [] => true | _, _ => false end then false
        else
          let expo :=
            match u2 with
            | [] => Some 0%Z
            | c :: v =>
                if (c =? 101) || (c =? 69) then
                  let '(eneg, v1) := match v with
                                     | 45 :: v' => (true, v')
                                     | 43 :: v' => (false, v')
                                     | _ => (false, v)
                                     end in
                  match JSON.take_digits v1 with
                  | (_ :: _ as ep, []) =>
                      Some (if eneg then - JSON.digits_value ep else JSON.digits_value ep)%Z
                  | _ => None
                  end
                else None
            end in
          match expo with
          | None => false
          | Some ex =>
              let m := JSON.digits_value (ip ++ fp) in
              Number.below_069 (if neg then - m else m)%Z (ex - Z.of_nat (length fp))%Z
          end
  end.

(** [v < 0.69], with the conversion of [v] to a number. *)
Fixpoint below_069 (v : JsVal) : bool :=
  match v with
  | VUndef => false
  | VNull => true
  | VBool b => negb b
  | VNum m e => Number.below_069 m e
  | VStr s => string_below_069 s
  | VArr [] => true
  | VArr [x] =>
      match x with
      | VUndef | VNull => true
      | VBool _ | VObj _ => false
      | _ => below_069 x
      end
  | VArr _ => false
  | VObj _ => false
  end.

Definition reply (status : N) (body : list (string * JsVal)) : Response :=
  CreateSplit.json_response (status, Obj.literal body).

Definition POST (env : Env) (request : Request) : M Response :=
  try_catch
    ((* Check required environment variable *)
     if String.eqb (env_or (NEYNAR_SIGNER_UUID env) "") ""
     then ret (reply 500 [("error", VStr "Server configuration error")])
     else
       (* Parse webhook payload *)
       let body := body request in
       payload <- lift (JSON.parse body) ;;
       type <- lift (Value.member payload "type") ;;
       (* Check if this is a cast event *)
       if Value.is_string "cast.created" type then
         data <- lift (Value.member payload "data") ;;
         text <- lift (Value.member data "text") ;;
         text <- lift (match text with
                       | VStr s => Ok (Js.trim s)
                       | _ => Throw (TypeError "payload.data.text.trim is not a function")
                       end) ;;
         let parentHash := Value.get data "parent_hash" in
         (* Check if it's a reply *)
         if negb (Value.truthy parentHash)
         then ret (reply 200 [("success", VBool true); ("message", VStr "Not a reply")])
         (* Check if it's a mint command *)
         else if negb (is_mint_command text)
         then ret (reply 200 [("success", VBool true); ("message", VStr "Not a mint command")])
         else
           (* Check user's neynar score *)
           experimental <- lift (Value.member (Value.get data "author") "experimental") ;;
           let userScore := Value.member_opt experimental "neynar_user_score" in
           if negb (Value.truthy userScore) || below_069 userScore then
             try_catch
               (_ <- neynarClient.publishCast env
                       (VStr (default "" (NEYNAR_SIGNER_UUID env)))
                       (VStr ("Sorry, your Neynar user score ("
                              +:+ Value.toString (Value.or userScore (VNum 0 0))
                              +:+ ") is too low to mint. A minimum score of 0.69 is required."))
                       (Value.get data "hash") VUndef ;;
                ret tt)
               (fun _ => ret tt) ;;;
             ret (reply 200 [("success", VBool true); ("message", VStr "User score too low")])
           (* Check if parent cast data exists *)
           else if negb (Value.truthy (Value.get data "parent_author"))
           then ret (reply 400 [("error", VStr "Parent cast data not found")])
           else
             try_catch
               ((* Check if cast was already processed *)
                processed <- isCastProcessed parentHash ;;
                if processed
                then ret (reply 200 [("success", VBool true);
                                     ("message", VStr "Cast already processed")])
                else
                  (* Check if cast was already minted *)
                  existingMint <- getMintingDetails env parentHash ;;
                  if Value.truthy existingMint
                  then ret (reply 200 [("success", VBool true);
                                       ("message", VStr "Returned existing mint");
                                       ("minter", Value.get existingMint "minter_username")])
                  else
                    (* Add cast to minting queue *)
                    let queueData :=
                      Obj.literal [("castHash", Value.get data "hash");
                                   ("parentHash", Value.get data "parent_hash");
                                   ("text", Value.get data "text");
                                   ("author", Value.get data "author");
                                   ("parentAuthor", Value.get data "parent_author");
                                   ("timestamp", Value.get data "timestamp")] in
                    _ <- enqueueCast queueData ;;
                    ret (reply 200 [("success", VBool true);
                                    ("message", VStr "Cast queued for minting")]))
               (fun _ => ret (reply 500 [("error", VStr "Failed to process mint command")]))
       else ret (reply 200 [("success", VBool true)]))
    (fun _ => ret (reply 500 [("error", VStr "Error processing webhook")])).

End Webhook.

(* ===================================================================== *)
(** * workers/mint-worker.ts *)
(* ===================================================================== *)

Definition RETRY_DELAY : N := 5000.     (* 5 seconds between processing attempts *)
Definition MAX_RETRIES : nat := 3.      (* Maximum number of retries for API calls *)
Definition API_TIMEOUT : N := 30000.    (* 30 seconds timeout for API calls *)

Definition API_BASE (env : Env) : string :=
  env_or (NEXT_PUBLIC_APP_URL env) "http://localhost:3000".

(** What [fetch] rejects with when its signal is aborted. *)
Definition AbortError : Thrown := ErrorInstance "AbortError" "This operation was aborted".

Definition error_name (e : Thrown) : string :=
  match e with
  | ErrorInstance name _ => name
  | ThrownValue _ => ""
  end.

(** One [fetch] under the abort timer of [API_TIMEOUT] milliseconds: when
    the outside has not settled by then, the controller aborts and the
    call rejects with an [AbortError]. *)
Definition fetch_with_signal (env : Env) (url : string) (options : RequestInit)
    (attempt : nat) : Result Response :=
  let outcome := fetch env url options attempt in
  if API_TIMEOUT <=? elapsed_ms outcome then Throw AbortError
  else match settled outcome with
       | Responds r => Ok r
       | Fails message => Throw (TypeError message)
       end.

(** Helper function for API calls with retries; [attempt] numbers the
    calls made so far for the outside. *)
Fixpoint fetchWithRetry_from (attempt : nat) (env : Env) (url : string)
    (options : RequestInit) (retries : nat) : M Response :=
  emit (Requested url attempt) ;;;
  match fetch_with_signal env url options attempt with
  | Ok response => ret response
  | Throw error =>
      match retries with
      | S retries' =>
          if instanceofError error && negb (String.eqb (error_name error) "AbortError")
          then emit (Waited RETRY_DELAY) ;;;
               fetchWithRetry_from (S attempt) env url options retries'
          else throw error
      | O => throw error
      end
  end.

Definition fetchWithRetry (env : Env) (url : string) (options : RequestInit)
    (retries : nat) : M Response :=
  fetchWithRetry_from 0 env url options retries.

Definition with_status (s : string) (h : QueueHealth) : QueueHealth :=
  {| status := s; lastProcessed := lastProcessed h;
     currentQueueSize := currentQueueSize h; failedMintsCount := failedMintsCount h;
     errors := errors h |}.

Definition with_lastProcessed (t : option string) (h : QueueHealth) : QueueHealth :=
  {| status := status h; lastProcessed := t;
     currentQueueSize := currentQueueSize h; failedMintsCount := failedMintsCount h;
     errors := errors h |}.

Definition with_currentQueueSize (n : N) (h : QueueHealth) : QueueHealth :=
  {| status := status h; lastProcessed := lastProcessed h;
     currentQueueSize := n; failedMintsCount := failedMintsCount h;
     errors := errors h |}.

Definition with_failedMintsCount (n : N) (h : QueueHealth) : QueueHealth :=
  {| status := status h; lastProcessed := lastProcessed h;
     currentQueueSize := currentQueueSize h; failedMintsCount := n;
     errors := errors h |}.

(** [errors.push(e)] *)
Definition push_error (e : string) (h : QueueHealth) : QueueHealth :=
  {| status := status h; lastProcessed := lastProcessed h;
     currentQueueSize := currentQueueSize h; failedMintsCount := failedMintsCount h;
     errors := errors h ++ [e] |}.

Definition update_health (f : QueueHealth -> QueueHealth) : M unit :=
  modify (fun w => set_queueHealth (f (queueHealth w)) w).

(** The value of the health check: the [queueHealth] object, and the
    [error] property when reading the stores failed. *)
Record HealthStatus : Type := {
  health : QueueHealth;
  health_error : option string
}.

(** Health check endpoint data. *)
Definition getHealthStatus : M HealthStatus :=
  try_catch
    ((* Get current queue size *)
     nextItem <- peekQueue ;;
     failedMints <- getFailedMints ;;
     update_health (with_currentQueueSize (if Value.truthy nextItem then 1 else 0)) ;;;
     update_health (with_failedMintsCount (N.of_nat (length failedMints))) ;;;
     lastProcessedTime <- gets lastProcessedTime ;;
     update_health (with_lastProcessed lastProcessedTime) ;;;
     h <- gets queueHealth ;;
     ret {| health := h; health_error := None |})
    (fun error =>
       h <- gets queueHealth ;;
       ret {| health := h;
              health_error := Some (match error with
                                    | ErrorInstance _ message => message
                                    | ThrownValue _ => "Unknown error"
                                    end) |}).

(** [v?.verified_addresses?.eth_addresses?.[0]] *)
Definition first_eth_address (v : JsVal) : JsVal :=
  Value.member_opt
    (Value.member_opt (Value.member_opt v "verified_addresses") "eth_addresses") "0".

Definition json_headers (env : Env) : list (string * string) :=
  [("Content-Type", "application/json"); ("x-api-key", env_or (API_KEY env) "")].

Definition post_json (env : Env) (body : JsVal) : RequestInit :=
  {| req_method := "POST"; req_headers := json_headers env;
     req_body := JSON.stringify body |}.

(** [await response.json().catch(() => ({ error: 'Failed to parse error response' }))] *)
Definition json_or_parse_failure (r : Response) : JsVal :=
  match resp_json r with
  | Ok v => v
  | Throw _ => Obj.literal [("error", VStr "Failed to parse error response")]
  end.

(** The message thrown for an answer that is not ok, at the three calls
    that share the pattern. *)
Definition failed_call (what : string) (r : Response) : M unit :=
  let error := json_or_parse_failure r in
  detail <- lift (Value.member error "error") ;;
  throw (Error ("Failed to " +:+ what +:+ " (" +:+ pretty (resp_status r) +:+ "): "
                +:+ Value.toString (Value.or detail (VStr "Unknown error")))).

(** What the first part of the pipeline hands to the rest. *)
Record Minted : Type := {
  minted_author : JsVal;       (* data.author *)
  minted_zoraUrl : string
}.

(** The [try] block of [processQueueItem] from its first statement
    through [storeMintedNFT]: the steps up to and including the write of
    the history record. *)
Definition mintAndRecord (env : Env) (data : JsVal) : M Minted :=
  modify (set_isProcessing true) ;;;
  update_health (with_status "processing") ;;;
  (* Get minter's ETH address from the mint command *)
  author <- lift (Value.member data "author") ;;
  verified <- lift (Value.member author "verified_addresses") ;;
  let minterWallet := Value.member_opt (Value.member_opt verified "eth_addresses") "0" in
  if negb (Value.truthy minterWallet)
  then throw (Error "Minter has no verified ETH address")
  else
  (* Get parent cast data first *)
  parentCastResponse <-
    fetchWithRetry env
      ("https://api.neynar.com/v2/farcaster/cast?identifier="
       +:+ Value.toString (Value.get data "parentHash") +:+ "&type=hash")
      {| req_method := "GET";
         req_headers := [("api_key", env_or (NEYNAR_API_KEY env) "")];
         req_body := None |} MAX_RETRIES ;;
  if negb (resp_ok parentCastResponse)
  then throw (Error ("Failed to fetch parent cast: " +:+ pretty (resp_status parentCastResponse)))
  else
  parentCastData <- lift (resp_json parentCastResponse) ;;
  parentCast <- lift (Value.member parentCastData "cast") ;;
  if negb (Value.truthy parentCast)
  then throw (Error "Parent cast not found")
  else
  (* Get parent cast author's details from Neynar API *)
  fid <- lift (Value.member (Value.get parentCast "author") "fid") ;;
  userResponse <-
    fetchWithRetry env
      ("https://api.neynar.com/v2/farcaster/user/bulk?fids=" +:+ Value.toString fid)
      {| req_method := "GET";
         req_headers := [("api_key", env_or (NEYNAR_API_KEY env) "");
                         ("x-neynar-experimental", "true")];
         req_body := None |} MAX_RETRIES ;;
  if negb (resp_ok userResponse)
  then throw (Error ("Failed to fetch parent author details: "
                     +:+ pretty (resp_status userResponse)))
  else
  userData <- lift (resp_json userResponse) ;;
  users <- lift (Value.member userData "users") ;;
  parentAuthor <- lift (Value.member users "0") ;;
  if negb (Value.truthy (first_eth_address parentAuthor))
  then throw (Error "Parent cast author has no verified ETH address")
  else
  let casterWallet := first_eth_address parentAuthor in
  (* Store parent cast author details for metadata *)
  parentAuthorUsername <- lift (Value.member (Value.get parentCast "author") "username") ;;
  let parentCastText := Value.get parentCast "text" in
  (* 1. Create image and upload to IPFS *)
  let imageRequestBody := Obj.literal [("hash", Value.get data "parentHash")] in
  imageResponse <-
    fetchWithRetry env (API_BASE env +:+ "/api/createImage")
      (post_json env imageRequestBody) MAX_RETRIES ;;
  (if negb (resp_ok imageResponse) then
     let responseText := resp_text imageResponse in
     let errorJson := match JSON.parse responseText with
                      | Ok v => v
                      | Throw _ => Obj.literal [("error", VStr responseText)]
                      end in
     detail <- lift (Value.member errorJson "error") ;;
     throw (Error ("Failed to create image (" +:+ pretty (resp_status imageResponse)
                   +:+ "): "
                   +:+ Value.toString
                         (Value.or (Value.or detail (VStr responseText))
                                   (VStr "Unknown error"))))
   else ret tt) ;;;
  imageResponseData <- lift (resp_json imageResponse) ;;
  imageUri <- lift (Value.member imageResponseData "url") ;;
  (* Create metadata with parent cast author details *)
  let metadata :=
    Obj.literal
      [("name", VStr ("Cast by " +:+ Value.toString parentAuthorUsername));
       ("description", parentCastText);
       ("image", imageUri);
       ("properties",
        Obj.literal [("casterUsername", parentAuthorUsername);
                     ("minterUsername", Value.get author "username");
                     ("castHash", Value.get data "parentHash");
                     ("mintHash", Value.get data "castHash");
                     ("timestamp", Value.get data "timestamp")])] in
  (* Upload metadata to IPFS *)
  metadataResponse <-
    fetchWithRetry env (API_BASE env +:+ "/api/ipfs") (post_json env metadata) MAX_RETRIES ;;
  (if negb (resp_ok metadataResponse) then failed_call "upload metadata to IPFS" metadataResponse else ret tt) ;;;
  metadataJson <- lift (resp_json metadataResponse) ;;
  metadataUri <- lift (Value.member metadataJson "url") ;;
  (* 3. Create split contract *)
  splitResponse <-
    fetchWithRetry env (API_BASE env +:+ "/api/createSplit")
      (post_json env (Obj.literal [("casterWallet", casterWallet);
                                   ("minterWallet", minterWallet)])) MAX_RETRIES ;;
  (if negb (resp_ok splitResponse) then failed_call "create split contract" splitResponse else ret tt) ;;;
  splitJson <- lift (resp_json splitResponse) ;;
  split <- lift (Value.member splitJson "split") ;;
  (* 4. Create NFT *)
  splitAddress <- lift (Value.member split "address") ;;
  tokenResponse <-
    fetchWithRetry env (API_BASE env +:+ "/api/createToken")
      (post_json env
         (Obj.literal
            [("contractAddress",
              match NEXT_PUBLIC_CONTRACT_ADDRESS env with
              | Some a => VStr a
              | None => VUndef
              end);
             ("tokenUri", metadataUri);
             ("splitAddress", splitAddress)])) MAX_RETRIES ;;
  (if negb (resp_ok tokenResponse) then failed_call "create token" tokenResponse else ret tt) ;;;
  tokenJson <- lift (resp_json tokenResponse) ;;
  token <- lift (Value.member tokenJson "token") ;;
  (* Format Zora URL with referrer *)
  contractAddress <- lift (Value.member token "contractAddress") ;;
  let tokenId := Value.get token "tokenId" in
  let zoraUrl :=
    "https://zora.co/collect/base:" +:+ Value.toString contractAddress +:+ "/"
    +:+ Value.toString tokenId
    +:+ "?referrer=0xB70399fc376c1B3Cf3493556d2f14942323eF44f" in
  (* Store minted NFT data *)
  storeMintedNFT env (Value.get data "parentHash") (VStr zoraUrl) parentAuthorUsername
    (Value.get author "username") (Value.get data "castHash")
    (Value.get data "timestamp") contractAddress tokenId ;;;
  ret {| minted_author := author; minted_zoraUrl := zoraUrl |}.

(** The confirmation reply: [neynarClient.publishCast] with the mint
    frame. *)
Definition notify (env : Env) (data : JsVal) (minted : Minted) : M JsVal :=
  let author := minted_author minted in
  let zoraUrl := minted_zoraUrl minted in
  let replyText :=
    "This cast has been minted by @" +:+ Value.toString (Value.get author "username")
    +:+ Js.of_bytes [10; 10] +:+ "Collect here: " +:+ zoraUrl in
  neynarClient.publishCast env
    (match NEYNAR_SIGNER_UUID env with Some u => VStr u | None => VUndef end)
    (VStr replyText) (Value.get data "parentHash")
    (VArr [Obj.literal [("url", VStr zoraUrl)]]).

(** The body of the [try] block of [processQueueItem]. *)
Definition mintPipeline (env : Env) (data : JsVal) : M unit :=
  (* ... Store minted NFT data *)
  minted <- mintAndRecord env data ;;
  (* Mark cast as processed *)
  markCastAsProcessed (Value.get data "parentHash") ;;;
  (* Post reply with mint frame *)
  _ <- notify env data minted ;;
  (* Update health metrics *)
  modify (set_lastProcessedTime (Some (now env))) ;;;
  update_health (with_lastProcessed (Some (now env))) ;;;
  update_health (with_status "success").

(** The [catch] block of [processQueueItem]. *)
Definition onPipelineError (env : Env) (data : JsVal) (error : Thrown) : M unit :=
  (* Update health metrics *)
  update_health (with_status "error") ;;;
  update_health (push_error (error_text error)) ;;;
  (* Add to failed queue for retry *)
  match error with
  | ErrorInstance _ message =>
      _ <- addToFailedQueue env data message ;;
      update_health (fun h => with_failedMintsCount (failedMintsCount h + 1) h)
  | ThrownValue _ => ret tt
  end.

Definition processQueueItem (env : Env) : M unit :=
  (* Check shutdown status *)
  shuttingDown <- gets isShuttingDown ;;
  if shuttingDown then ret tt
  else
    processing <- gets isProcessing ;;
    if processing then setTimeout_processQueueItem RETRY_DELAY
    else
      (* Get next item from queue *)
      data <- dequeueCast ;;
      if negb (Value.truthy data) then
        (* Update health status *)
        update_health (with_status "idle") ;;;
        update_health (with_currentQueueSize 0) ;;;
        (* Schedule next check and return *)
        setTimeout_processQueueItem RETRY_DELAY
      else
        try_catch_finally
          (mintPipeline env data)
          (onPipelineError env data)
          (modify (set_isProcessing false) ;;;
           (* Schedule next processing *)
           setTimeout_processQueueItem RETRY_DELAY).

(* ===================================================================== *)
(** * middleware.ts *)
(* ===================================================================== *)

Module Middleware.

(** What the middleware reads of a request: the path of its URL, and its
    headers through [request.headers.get]. *)
Record Request : Type := {
  pathname : string;
  header : string -> option string
}.

(** [NextResponse.next()] with the headers set on it, or a response of
    the middleware's own. *)
Inductive Answer : Type :=
| Next (headers : list (string * string))
| Respond (r : Response).

(** [s.startsWith(prefix)] *)
Definition startsWith (prefix s : string) : bool :=
  match Webhook.strip_prefix (Js.bytes prefix) (Js.bytes s) with
  | Some _ => true
  | None => false
  end.

Definition refuse (status : N) (error : string) : Answer :=
  Respond {| resp_status := status;
             resp_body := JSON.stringify_val (Obj.literal [("error", VStr error)]) |}.

(** [[NEXT_PUBLIC_APP_URL, 'http://localhost:3000', 'http://127.0.0.1:3000'].filter(Boolean)] *)
Definition allowedOrigins (env : Env) : list string :=
  (if falsy_string (NEXT_PUBLIC_APP_URL env) then []
   else match NEXT_PUBLIC_APP_URL env with Some url => [url] | None => [] end)
  ++ ["http://localhost:3000"; "http://127.0.0.1:3000"].

(** [a !== b] for a header value and a variable of the environment *)
Definition differs (a b : option string) : bool :=
  match a, b with
  | Some a, Some b => negb (String.eqb a b)
  | _, _ => true
  end.

(** [allowedOrigins.includes(origin)] *)
Definition includes (l : list string) (s : string) : bool :=
  existsb (String.eqb s) l.

(** Handles API route security and CORS settings; [NODE_ENV] is
    [process.env.NODE_ENV]. *)
Definition middleware (env : Env) (NODE_ENV : option string) (request : Request) : Answer :=
  (* Only apply middleware to /api routes *)
  if negb (startsWith "/api" (pathname request)) then Next []
  (* Allow requests to the Neynar webhook endpoint without any checks *)
  else if String.eqb (pathname request) "/api/webhook/neynar" then Next []
  (* In production, block all API routes except the Neynar webhook endpoint *)
  else if negb (differs NODE_ENV (Some "production"))
  then refuse 403 "Not available in production"
  else
    (* In development, check for a valid API key in the 'x-api-key' header *)
    let apiKey := header request "x-api-key" in
    if falsy_string apiKey || differs apiKey (API_KEY env) then refuse 401 "Unauthorized"
    else
      (* In development, verify that the request origin is allowed *)
      let origin := header request "origin" in
      if falsy_string origin || negb (includes (allowedOrigins env) (default "" origin))
      then refuse 403 "Forbidden"
      else
        (* If all checks pass, add CORS headers for the allowed origin *)
        Next [("Access-Control-Allow-Origin", default "" origin);
              ("Access-Control-Allow-Methods", "GET, POST, PUT, DELETE, OPTIONS");
              ("Access-Control-Allow-Headers", "Content-Type, x-api-key")].

End Middleware.

(* ===================================================================== *)
(** * Runs and scenarios *)
(* ===================================================================== *)

(** The pending list, the failed list and the dedup set of a world. *)
Definition pending (w : World) : list string :=
  RedisCmd.list_at MINT_QUEUE (redis w).

Definition failed (w : World) : list string :=
  RedisCmd.list_at FAILED_MINT_QUEUE (redis w).

Definition processed (w : World) : gset string :=
  RedisCmd.set_at "processed_casts" (redis w).

(** The world of a process that has just started. *)
Definition world0 : World :=
  {| redis := {| lists := ∅; sets := ∅ |};
     minted_casts := ∅;
     deployed_splits := ∅;
     isProcessing := false;
     isShuttingDown := false;
     lastProcessedTime := None;
     queueHealth := {| status := "starting"; lastProcessed := None;
                       currentQueueSize := 0; failedMintsCount := 0; errors := [] |};
     journal := [] |}.

(** A call made on the queue by either side. *)
Inductive QueueCall : Type :=
| CallEnqueue (data : JsVal)
| CallDequeue.

Definition call (c : QueueCall) : M unit :=
  match c with
  | CallEnqueue data => _ <- enqueueCast data ;; ret tt
  | CallDequeue => _ <- dequeueCast ;; ret tt
  end.

(** The world after a sequence of calls, whatever each one answered. *)
Fixpoint run_calls (calls : list QueueCall) (w : World) : World :=
  match calls with
  | [] => w
  | c :: rest => run_calls rest (snd (call c w))
  end.

(** The entries enqueued, and the entries dequeued, in a stretch of
    events given oldest first. *)
Definition enqueued_in (events : list Event) : list string :=
  flat_map (fun e => match e with Enqueued s => [s] | _ => [] end) events.

Definition dequeued_in (events : list Event) : list string :=
  flat_map (fun e => match e with Dequeued s => [s] | _ => [] end) events.

(** What [dequeueCast] answers for a popped entry. *)
Definition decode (entry : string) : Result JsVal :=
  if String.eqb entry "" then Ok VNull else JSON.parse entry.


Definition split_transaction_of (answer : JsVal) : JsVal :=
  Value.get (Value.get answer "split") "transactionHash".

(** Ways for the outside to settle a [fetch]. *)
Definition answers (status : N) (v : JsVal) : FetchOutcome :=
  {| elapsed_ms := 120;
     settled := Responds {| resp_status := status; resp_body := JSON.stringify_val v |} |}.

Definition answers_after (ms : N) (status : N) (v : JsVal) : FetchOutcome :=
  {| elapsed_ms := ms;
     settled := Responds {| resp_status := status; resp_body := JSON.stringify_val v |} |}.

Definition connection_reset : FetchOutcome :=
  {| elapsed_ms := 15; settled := Fails "fetch failed" |}.

(** A stand-in for the address of an immutable split: a digest of its
    recipients, allocations and fee. *)
Definition split_address (cfg : SplitsConfig) : string :=
  "0x" +:+ substring 0 8
             (Js.of_bytes
                (Crypto.hex
                   (Crypto.sha256
                      (Js.bytes
                         (String.concat ","
                            (map (fun r => fst r +:+ ":" +:+ pretty (snd r)) (recipients cfg))
                          +:+ "/" +:+ pretty (distributorFeePercent cfg)))))).

(** An environment with the given network and history-store behaviour;
    the chain mines every transaction. *)
Definition environment
    (fetch : string -> RequestInit -> nat -> FetchOutcome)
    (insert_failure : MintedCast -> option Thrown) : Env :=
  {| now := "2025-02-18T12:00:00.000Z";
     fetch := fetch;
     insert_failure := insert_failure;
     select_failure := fun _ => None;
     predictImmutableSplitAddress := fun cfg => Ok (split_address cfg);
     createSplit_callData := fun cfg => Ok ("0xcalldata", "0xSplitMain");
     sendTransaction := fun _ => Mined "0xtxhash";
     NEYNAR_API_KEY := Some "neynar-key";
     NEYNAR_SIGNER_UUID := Some "signer-uuid";
     API_KEY := Some "api-key";
     NEXT_PUBLIC_CONTRACT_ADDRESS := Some "0xc0117ac7";
     NEXT_PUBLIC_APP_URL := Some "https://mintos.example" |}.

(** A network where the first attempt of every call takes 31 seconds and
    every later attempt answers at once. *)
Definition slow_then_fast (url : string) (options : RequestInit) (attempt : nat)
  : FetchOutcome :=
  match attempt with
  | O => answers_after 31000 200 (VObj [])
  | S _ => answers 200 (VObj [])
  end.

(** A network where the first attempt of every call fails in transport
    and every later attempt answers. *)
Definition reset_then_fast (url : string) (options : RequestInit) (attempt : nat)
  : FetchOutcome :=
  match attempt with
  | O => connection_reset
  | S _ => answers 200 (VObj [])
  end.

Definition get_request : RequestInit :=
  {| req_method := "GET"; req_headers := []; req_body := None |}.

(** [hay.includes(needle)] *)
Fixpoint contains_bytes (needle hay : list N) : bool :=
  match Webhook.strip_prefix needle hay with
  | Some _ => true
  | None => match hay with
            | [] => false
            | _ :: rest => contains_bytes needle rest
            end
  end.

Definition contains (needle hay : string) : bool :=
  contains_bytes (Js.bytes needle) (Js.bytes hay).

(** A queued mint request: the reply [castHash] by bob asks to mint the
    cast [parentHash]. *)
Definition mint_request (castHash parentHash : string) : JsVal :=
  Obj.literal
    [("castHash", VStr castHash);
     ("parentHash", VStr parentHash);
     ("text", VStr "!mint");
     ("author",
      Obj.literal
        [("fid", VNum 11 0); ("username", VStr "bob");
         ("verified_addresses",
          Obj.literal
            [("eth_addresses",
              VArr [VStr "0x1111111111111111111111111111111111111111"])])]);
     ("parentAuthor", Obj.literal [("fid", VNum 7 0); ("username", VStr "alice")]);
     ("timestamp", VStr "2025-02-18T11:59:00.000Z")].

(** The url of the confirmation reply. *)
Definition reply_url : string := NEYNAR_API_BASE +:+ "/cast".

(** A network where every service answers as it should. *)
Definition network_up (url : string) (options : RequestInit) (attempt : nat)
  : FetchOutcome :=
  if String.eqb url reply_url then
    answers 200 (Obj.literal [("success", VBool true)])
  else if contains "/cast?identifier=" url then
    answers 200
      (Obj.literal
         [("cast",
           Obj.literal
             [("text", VStr "gm");
              ("author", Obj.literal [("fid", VNum 7 0); ("username", VStr "alice")])])])
  else if contains "/user/bulk?fids=" url then
    answers 200
      (Obj.literal
         [("users",
           VArr [Obj.literal
                   [("verified_addresses",
                     Obj.literal
                       [("eth_addresses",
                         VArr [VStr "0x2222222222222222222222222222222222222222"])])]])])
  else if contains "/api/createImage" url then
    answers 200 (Obj.literal [("url", VStr "ipfs://image")])
  else if contains "/api/ipfs" url then
    answers 200 (Obj.literal [("url", VStr "ipfs://metadata")])
  else if contains "/api/createSplit" url then
    answers 201
      (Obj.literal [("success", VBool true);
                    ("split", Obj.literal [("address", VStr "0x5p117")])])
  else if contains "/api/createToken" url then
    answers 201
      (Obj.literal [("success", VBool true);
                    ("token", Obj.literal [("contractAddress", VStr "0xc0117ac7");
                                           ("tokenId", VStr "7")])])
  else connection_reset.

(** The same network, with one url settled otherwise. *)
Definition except_at (target : string) (outcome : FetchOutcome)
    (network : string -> RequestInit -> nat -> FetchOutcome)
    (url : string) (options : RequestInit) (attempt : nat) : FetchOutcome :=
  if String.eqb url target then outcome else network url options attempt.

Definition env_up : Env := environment network_up (fun _ => None).

(** The Neynar service refuses the confirmation reply. *)
Definition env_reply_refused : Env :=
  environment
    (except_at reply_url
       (answers 500 (Obj.literal [("message", VStr "Rate limit exceeded")]))
       network_up)
    (fun _ => None).

(** The image route answers 500. *)
Definition env_image_down : Env :=
  environment
    (except_at "https://mintos.example/api/createImage"
       (answers 500 (Obj.literal [("error", VStr "render failed")]))
       network_up)
    (fun _ => None).

(** One request pending. *)
Definition world_one_request : World :=
  run_calls [CallEnqueue (mint_request "0xreply1" "0xabc")] world0.


(** The split route called twice with the same two wallets. *)
Definition split_body : string :=
  JSON.stringify_val
    (Obj.literal
       [("casterWallet", VStr "0x1111111111111111111111111111111111111111");
        ("minterWallet", VStr "0x2222222222222222222222222222222222222222")]).

Definition split_first : Result (N * JsVal) * World :=
  CreateSplit.handle env_up split_body world0.

Definition split_second : Result (N * JsVal) * World :=
  CreateSplit.handle env_up split_body (snd split_first).

Definition answer_of (r : Result (N * JsVal)) : JsVal :=
  match r with
  | Ok (_, v) => v
  | Throw _ => VUndef
  end.

(** Two requests pending. *)
Definition world_two_requests : World :=
  run_calls [CallEnqueue (mint_request "0xreply1" "0xabc");
             CallEnqueue (mint_request "0xreply2" "0xdef")] world0.

(** A webhook delivery: the reply [0xreply1] asks to mint [parentHash]. *)
Definition cast_created (parentHash : string) : JsVal :=
  Obj.literal
    [("type", VStr "cast.created");
     ("data",
      Obj.literal
        [("hash", VStr "0xreply1");
         ("parent_hash", VStr parentHash);
         ("text", VStr "!mint");
         ("timestamp", VStr "2025-02-18T11:59:00.000Z");
         ("author",
          Obj.literal
            [("fid", VNum 11 0); ("username", VStr "bob");
             ("experimental", Obj.literal [("neynar_user_score", VNum 93 (-2))]);
             ("verified_addresses",
              Obj.literal
                [("eth_addresses",
                  VArr [VStr "0x1111111111111111111111111111111111111111"])])]);
         ("parent_author", Obj.literal [("fid", VNum 7 0)])])].

Definition webhook_secret : string := "whsec_3f9a".
Definition webhook_timestamp : string := "1739879940".

(** The body that was signed, the signature made for it, and a body in
    which the target was changed afterwards. *)
Definition signed_body : string := JSON.stringify_val (cast_created "0xabc").

Definition signed_signature : string :=
  Crypto.hmac_sha256_hex webhook_secret (webhook_timestamp +:+ "." +:+ signed_body).

Definition tampered_body : string := JSON.stringify_val (cast_created "0xdef").

Definition tampered_request : Webhook.Request :=
  {| Webhook.headers := [("x-neynar-signature", signed_signature);
                         ("x-neynar-timestamp", webhook_timestamp)];
     Webhook.body := tampered_body |}.

Definition unsigned_request : Webhook.Request :=
  {| Webhook.headers := []; Webhook.body := tampered_body |}.

(** The item that the webhook queues for a delivery. *)
Definition queued_for (parentHash : string) : string :=
  JSON.stringify_val
    (let data := Value.get (cast_created parentHash) "data" in
     Obj.literal [("castHash", Value.get data "hash");
                  ("parentHash", Value.get data "parent_hash");
                  ("text", Value.get data "text");
                  ("author", Value.get data "author");
                  ("parentAuthor", Value.get data "parent_author");
                  ("timestamp", Value.get data "timestamp")]).

(** A pending list whose only entry is not a JSON text, as any other
    client of the store can leave it. *)
Definition world_malformed_entry : World :=
  set_redis (snd (RedisCmd.LPUSH MINT_QUEUE "{oops" (redis world0))) world0.

(** A network that answers every call at once with status 503. *)
Definition unavailable (url : string) (options : RequestInit) (attempt : nat)
  : FetchOutcome :=
  answers 503 (Obj.literal [("error", VStr "Service Unavailable")]).

(** A delivery of the webhook that asks to mint the cast [0xabc]. *)
Definition delivery_request : Webhook.Request :=
  {| Webhook.headers := [("content-type", "application/json")];
     Webhook.body := JSON.stringify_val (cast_created "0xabc") |}.

(** Two entries pending: a mint request, and behind it, at the tail, the
    JSON text [null]. *)
Definition world_null_entry : World :=
  set_redis (snd (RedisCmd.LPUSH MINT_QUEUE
                    (JSON.stringify_val (mint_request "0xreply1" "0xabc"))
                    (snd (RedisCmd.LPUSH MINT_QUEUE "null" (redis world0))))) world0.

(** A chain that refuses every transaction. *)
Definition env_chain_refuses : Env :=
  {| now := now env_up;
     fetch := fetch env_up;
     insert_failure := insert_failure env_up;
     select_failure := select_failure env_up;
     predictImmutableSplitAddress := predictImmutableSplitAddress env_up;
     createSplit_callData := createSplit_callData env_up;
     sendTransaction := fun _ => Rejected "insufficient funds for gas";
     NEYNAR_API_KEY := NEYNAR_API_KEY env_up;
     NEYNAR_SIGNER_UUID := NEYNAR_SIGNER_UUID env_up;
     API_KEY := API_KEY env_up;
     NEXT_PUBLIC_CONTRACT_ADDRESS := NEXT_PUBLIC_CONTRACT_ADDRESS env_up;
     NEXT_PUBLIC_APP_URL := NEXT_PUBLIC_APP_URL env_up |}.

(** The history table after the mint of [0xabc] was stored. *)
Definition world_minted : World :=
  snd (storeMintedNFT env_up (VStr "0xabc") (VStr "https://zora.co/collect/base:0xc/7")
         (VStr "alice") (VStr "bob") (VStr "0xreply1")
         (VStr "2025-02-18T11:59:00.000Z") (VStr "0xc") (VStr "7") world0).

(** What happens to a running system, one step at a time: the worker
    polls, the health of the worker is read, or a webhook is delivered. *)
Inductive SystemStep : Type :=
| StepPoll
| StepHealth
| StepDelivery (request : Webhook.Request).

Definition system_step (env : Env) (s : SystemStep) : M unit :=
  match s with
  | StepPoll => processQueueItem env
  | StepHealth => _ <- getHealthStatus ;; ret tt
  | StepDelivery request => _ <- Webhook.POST env request ;; ret tt
  end.

(** The world after a sequence of steps, whatever each one answered. *)
Fixpoint run_steps (env : Env) (steps : list SystemStep) (w : World) : World :=
  match steps with
  | [] => w
  | s :: rest => run_steps env rest (snd (system_step env s w))
  end.

(** Enqueues the items one after the other. *)
Fixpoint enqueue_each (items : list JsVal) : M unit :=
  match items with
  | [] => ret tt
  | data :: rest => _ <- enqueueCast data ;; enqueue_each rest
  end.

(** Calls [dequeueCast] a number of times and collects the answers. *)
Fixpoint dequeue_times (n : nat) : M (list JsVal) :=
  match n with
  | O => ret []
  | S n => x <- dequeueCast ;; rest <- dequeue_times n ;; ret (x :: rest)
  end.

(* ===================================================================== *)
(** * Vocabulary of the properties *)
(* ===================================================================== *)

(** One step of [drop_leading]: the rest after one accepted character. *)
Definition strip_one (p1 : N -> bool) (p2 : N -> N -> bool) (p3 : N -> N -> N -> bool)
    (l : list N) : option (list N) :=
  match l with
  | [] => None
  | a :: r1 =>
      if p1 a then Some r1
      else match r1 with
           | [] => None
           | b :: r2 =>
               if p2 a b then Some r2
               else match r2 with
                    | [] => None
                    | c :: r3 => if p3 a b c then Some r3 else None
                    end
           end
  end.

(** [hoare P m Q R]: from a world satisfying [P], [m] either returns a
    value and a world satisfying [Q], or throws a value with a world
    satisfying [R]. *)
Definition hoare {A : Type} (P : World -> Prop) (m : M A)
    (Q : A -> World -> Prop) (R : Thrown -> World -> Prop) : Prop :=
  forall w, P w ->
    match m w with
    | (Ok a, w') => Q a w'
    | (Throw e, w') => R e w'
    end.

(** A fetch and the pause before a retry leave the stores alone. *)
Definition io_event (e : Event) : Prop :=
  match e with
  | Requested _ _ | Waited _ => True
  | _ => False
  end.

(** [w] differs from [w0] by network traffic and by the fields that the
    first part of the pipeline writes ([isProcessing], the status and
    [lastProcessed] of the health object): stores, chain, counters and
    the list of errors are those of [w0]. *)
Record Quiet (w0 w : World) : Prop := {
  quiet_redis : redis w = redis w0;
  quiet_table : minted_casts w = minted_casts w0;
  quiet_splits : deployed_splits w = deployed_splits w0;
  quiet_shutting : isShuttingDown w = isShuttingDown w0;
  quiet_time : lastProcessedTime w = lastProcessedTime w0;
  quiet_errors : errors (queueHealth w) = errors (queueHealth w0);
  quiet_failed : failedMintsCount (queueHealth w) = failedMintsCount (queueHealth w0);
  quiet_size : currentQueueSize (queueHealth w) = currentQueueSize (queueHealth w0);
  quiet_journal : exists evs, journal w = evs ++ journal w0 /\ Forall io_event evs
}.

(** [m] keeps every world quiet with respect to any earlier one. *)
Definition quiet {A : Type} (m : M A) : Prop :=
  forall w0, hoare (Quiet w0) m (fun _ => Quiet w0) (fun _ => Quiet w0).

(** The history row of [key] has been written since [w0], and nothing
    else has happened to the stores. *)
Record Recorded (key : string) (w0 w : World) : Prop := {
  recorded_redis : redis w = redis w0;
  recorded_fresh : minted_casts w0 !! key = None;
  recorded_table : exists row, minted_casts w = <[key := row]> (minted_casts w0);
  recorded_splits : deployed_splits w = deployed_splits w0;
  recorded_shutting : isShuttingDown w = isShuttingDown w0;
  recorded_time : lastProcessedTime w = lastProcessedTime w0;
  recorded_errors : errors (queueHealth w) = errors (queueHealth w0);
  recorded_failed : failedMintsCount (queueHealth w) = failedMintsCount (queueHealth w0);
  recorded_size : currentQueueSize (queueHealth w) = currentQueueSize (queueHealth w0);
  recorded_journal :
    exists evs, journal w = Persisted key :: evs ++ journal w0 /\ Forall io_event evs
}.

(** The world after the dedup mark of [h]. *)
Definition marked (h : string) (w : World) : World :=
  record_event (Marked h)
    (set_redis (snd (RedisCmd.SADD "processed_casts" h (redis w))) w).

(** The world after the health update that ends a successful run. *)
Definition completed (env : Env) (w : World) : World :=
  set_queueHealth
    (with_status "success"
       (with_lastProcessed (Some (now env)) (queueHealth w)))
    (set_lastProcessedTime (Some (now env)) w).

(** How a run of the [try] block on [data] from [w0] ends: with which
    result and in which world. *)
Inductive PipelineEnd (env : Env) (data : JsVal) (w0 : World)
  : Result unit -> World -> Prop :=
| EndBeforeRecord (e : Thrown) (w1 : World) :
    mintAndRecord env data w0 = (Throw e, w1) ->
    Quiet w0 w1 ->
    PipelineEnd env data w0 (Throw e) w1
| EndAtMark (minted : Minted) (wr : World) :
    mintAndRecord env data w0 = (Ok minted, wr) ->
    Recorded (Supabase.as_text (Value.get data "parentHash")) w0 wr ->
    (forall h, Value.get data "parentHash" <> VStr h) ->
    PipelineEnd env data w0 (Throw (TypeError "Invalid argument type")) wr
| EndAtNotify (minted : Minted) (wr : World) (h : string) (e : Thrown) (w1 : World) :
    mintAndRecord env data w0 = (Ok minted, wr) ->
    Recorded h w0 wr ->
    Value.get data "parentHash" = VStr h ->
    notify env data minted (marked h wr) = (Throw e, w1) ->
    instanceofError e = true ->
    w1 = marked h wr \/ w1 = record_event (Replied h) (marked h wr) ->
    PipelineEnd env data w0 (Throw e) w1
| EndComplete (minted : Minted) (wr : World) (h : string) (v : JsVal) :
    mintAndRecord env data w0 = (Ok minted, wr) ->
    Recorded h w0 wr ->
    Value.get data "parentHash" = VStr h ->
    notify env data minted (marked h wr) = (Ok v, record_event (Replied h) (marked h wr)) ->
    PipelineEnd env data w0 (Ok tt) (completed env (record_event (Replied h) (marked h wr))).

(** The entry that [addToFailedQueue] pushes for an item and a reason. *)
Definition failed_entry (env : Env) (data : JsVal) (reason : string) : string :=
  JSON.stringify_val
    (VObj (Obj.set "failedAt" (VStr (now env))
             (Obj.set "error" (VStr reason) (Obj.own_props data)))).

(** The [finally] block of [processQueueItem]. *)
Definition finished (w : World) : World :=
  record_event (Scheduled RETRY_DELAY) (set_isProcessing false w).

(** An event that is neither a history write nor a dedup mark. *)
Definition neutral (e : Event) : Prop :=
  match e with
  | Persisted _ | Marked _ => False
  | _ => True
  end.

(** The shape of the journal of one run: neutral events around at most
    one history write, which a dedup mark can only follow. *)
Inductive RunShape (w w' : World) : list Event -> Prop :=
| ShapeNoWrite (new : list Event) :
    Forall neutral new ->
    sets (redis w') = sets (redis w) ->
    RunShape w w' new
| ShapeWritten (key : string) (later earlier : list Event) :
    Forall neutral later -> Forall neutral earlier ->
    RunShape w w' (later ++ Persisted key :: earlier)
| ShapeMarked (h : string) (later earlier : list Event) :
    Forall neutral later -> Forall neutral earlier ->
    is_Some (minted_casts w' !! h) ->
    h ∈ processed w' ->
    RunShape w w' (later ++ Marked h :: Persisted h :: earlier).

(** The events of a call of [fetchWithRetry] that made [n] retries,
    newest first: a request for every attempt, and a pause of
    [RETRY_DELAY] before every attempt but the first. *)
Fixpoint retry_trace (url : string) (attempt n : nat) : list Event :=
  match n with
  | O => [Requested url attempt]
  | S n' => retry_trace url (S attempt) n' ++ [Waited RETRY_DELAY; Requested url attempt]
  end.


(** The failure counter of the health object is the length of the failed
    list. *)
Definition counter_in_step (w : World) : Prop :=
  failedMintsCount (queueHealth w) = N.of_nat (length (failed w)).

(** The item that the webhook route queues for the [data] of a delivery. *)
Definition queue_item (data : JsVal) : JsVal :=
  Obj.literal [("castHash", Value.get data "hash");
               ("parentHash", Value.get data "parent_hash");
               ("text", Value.get data "text");
               ("author", Value.get data "author");
               ("parentAuthor", Value.get data "parent_author");
               ("timestamp", Value.get data "timestamp")].

(** [w] differs from [w0] at most by events added to the journal. *)
Record Untouched (w0 w : World) : Prop := {
  untouched_redis : redis w = redis w0;
  untouched_table : minted_casts w = minted_casts w0;
  untouched_splits : deployed_splits w = deployed_splits w0;
  untouched_processing : isProcessing w = isProcessing w0;
  untouched_shutting : isShuttingDown w = isShuttingDown w0;
  untouched_time : lastProcessedTime w = lastProcessedTime w0;
  untouched_health : queueHealth w = queueHealth w0;
  untouched_journal : exists evs, journal w = evs ++ journal w0
}.

(** The checks that a delivery passes before it is queued, on the body of
    the request and on the stores, and the entry that is queued for it. *)
Record Accepted (env : Env) (request : Webhook.Request) (w : World)
    (target entry : string) : Prop := {
  accepted_configured : env_or (NEYNAR_SIGNER_UUID env) "" <> "";
  accepted_payload :
    exists payload text,
      JSON.parse (Webhook.body request) = Ok payload
      /\ Value.get payload "type" = VStr "cast.created"
      /\ Value.get (Value.get payload "data") "text" = VStr text
      /\ Webhook.is_mint_command (Js.trim text) = true
      /\ Value.get (Value.get payload "data") "parent_hash" = VStr target
      /\ target <> ""
      /\ (let score := Value.member_opt
                         (Value.get (Value.get (Value.get payload "data") "author")
                                    "experimental")
                         "neynar_user_score" in
          Value.truthy score = true /\ Webhook.below_069 score = false)
      /\ Value.truthy (Value.get (Value.get payload "data") "parent_author") = true
      /\ entry = JSON.stringify_val (queue_item (Value.get payload "data"));
  accepted_not_processed : target ∉ processed w;
  accepted_not_minted : getMintingDetails env (VStr target) w = (Ok VNull, w)
}.

(** The world after [entry] was pushed on the pending list. *)
Definition queued (entry : string) (w : World) : World :=
  record_event (Enqueued entry)
    (set_redis (RedisCmd.store_list MINT_QUEUE (entry :: pending w) (redis w)) w).


(** The values that a JSON text carries through unchanged. *)

(** No encoded surrogate, that is no byte [ED] followed by a byte from
    [A0] to [BF]: [JSON.stringify] writes a lone surrogate as an escape. *)
Fixpoint no_surrogate (l : list N) : bool :=
  match l with
  | [] => true
  | a :: r =>
      match r with
      | b :: _ => negb ((a =? 237) && Js.in_range 160 191 b)
      | [] => true
      end && no_surrogate r
  end.

Definition plain_text (s : string) : bool := no_surrogate (Js.bytes s).

(** A number in lowest terms that [Number::toString] writes without an
    exponent. *)
Definition plain_number (m e : Z) : bool :=
  (m =? 0)%Z && (e =? 0)%Z
  || negb (m mod 10 =? 0)%Z
     && (let k := (Z.of_nat (String.length (pretty (Z.abs m))) + e)%Z in
         (-6 <? k)%Z && (k <=? 21)%Z).

(** A name that is no array index and names no later property. *)
Definition fresh_name (k : string) (later : list (string * JsVal)) : bool :=
  match Value.index_of_key k with
  | Some _ => false
  | None => negb (existsb (fun kv => String.eqb k (fst kv)) later)
  end.

(** No [undefined] anywhere, plain numbers and strings, and objects with
    distinct property names. *)
Fixpoint plain (v : JsVal) : bool :=
  match v with
  | VUndef => false
  | VNull | VBool _ => true
  | VNum m e => plain_number m e
  | VStr s => plain_text s
  | VArr l =>
      (fix items (l : list JsVal) : bool :=
         match l with
         | [] => true
         | x :: r => plain x && items r
         end) l
  | VObj o =>
      (fix members (o : list (string * JsVal)) : bool :=
         match o with
         | [] => true
         | (k, x) :: r => plain_text k && fresh_name k r && plain x && members r
         end) o
  end.

(** What [JSON.stringify] writes for one byte of a string that holds no
    surrogate. *)
Definition escape (a : N) : list N :=
  if a =? 34 then [92; 34]
  else if a =? 92 then [92; 92]
  else if a =? 8 then [92; 98]
  else if a =? 12 then [92; 102]
  else if a =? 10 then [92; 110]
  else if a =? 13 then [92; 114]
  else if a =? 9 then [92; 116]
  else if a <? 32 then 92 :: 117 :: JSON.hex4_of a
  else [a].

(** What may follow a value inside a JSON text: nothing, a comma, or a
    closing bracket or brace. *)
Definition closes (rest : list N) : bool :=
  match rest with
  | [] => true
  | c :: _ => (c =? 44) || (c =? 93) || (c =? 125)
  end.

(** The bytes of the text that [JSON.stringify] writes for a value. *)
Definition print (v : JsVal) : list N := Js.bytes (JSON.stringify_val v).

(** Texts joined by commas. *)
Fixpoint join (texts : list (list N)) : list N :=
  match texts with
  | [] => []
  | x :: r => x ++ match r with [] => [] | _ => 44 :: join r end
  end.

Definition member_text (kv : string * JsVal) : list N :=
  Js.bytes (JSON.quote (fst kv)) ++ 58 :: print (snd kv).

(** Reading back the text of a value gives the value, whatever closes it. *)
Definition RoundTrip (v : JsVal) : Prop :=
  plain v = true ->
  forall (fuel : nat) (rest : list N),
    closes rest = true -> (length (print v) < fuel)%nat ->
    JSON.parse_go fuel JSON.MValue (print v ++ rest) = Some (v, rest).

(** The characters that the text of a value can start with. *)
Definition opens (c : N) : bool :=
  (c =? 34) || (c =? 45) || Js.is_digit c || (c =? 91) || (c =? 102)
  || (c =? 110) || (c =? 116) || (c =? 123).

(* ===================================================================== *)
(** * Properties: strings and digests *)
(* ===================================================================== *)

Section StringFacts.

Lemma of_bytes_length (l : list N) : String.length (Js.of_bytes l) = length l.
Proof.
  unfold Js.of_bytes. induction l as [|a l IH]; simpl; [reflexivity|].
  now rewrite IH.
Qed.

Lemma bytes_length (s : string) : length (Js.bytes s) = String.length s.
Proof.
  unfold Js.bytes. induction s as [|c s IH]; simpl; [reflexivity|].
  now rewrite IH.
Qed.

Lemma of_bytes_bytes (s : string) : Js.of_bytes (Js.bytes s) = s.
Proof.
  unfold Js.of_bytes, Js.bytes. induction s as [|c s IH]; simpl; [reflexivity|].
  now rewrite ascii_N_embedding, IH.
Qed.

Lemma bytes_of_bytes (l : list N) :
  Forall (fun a => a < 256) l -> Js.bytes (Js.of_bytes l) = l.
Proof.
  unfold Js.of_bytes, Js.bytes. induction 1 as [|a l Ha _ IH]; simpl; [reflexivity|].
  now rewrite N_ascii_embedding, IH.
Qed.

Lemma bytes_bounded (s : string) : Forall (fun a => a < 256) (Js.bytes s).
Proof.
  unfold Js.bytes. induction s as [|c s IH]; simpl; constructor; [|exact IH].
  apply N_ascii_bounded.
Qed.

End StringFacts.

Section DigestFacts.

Lemma zipWith_length {A B C : Type} (f : A -> B -> C) (l : list A) (m : list B) :
  length (Crypto.zipWith f l m) = Nat.min (length l) (length m).
Proof.
  revert m. induction l as [|a l IH]; intros [|b m]; simpl; auto.
Qed.

Lemma round_length (st : list N) (kw : N * N) :
  length st = 8%nat -> length (Crypto.round st kw) = 8%nat.
Proof.
  intros H. do 9 (destruct st as [|? st]; try discriminate H). reflexivity.
Qed.

Lemma rounds_length (kws : list (N * N)) (st : list N) :
  length st = 8%nat -> length (fold_left Crypto.round kws st) = 8%nat.
Proof.
  revert st. induction kws as [|kw kws IH]; intros st H; simpl; [exact H|].
  apply IH, round_length, H.
Qed.

Lemma compress_length (h block : list N) :
  length h = 8%nat -> length (Crypto.compress h block) = 8%nat.
Proof.
  intros H. unfold Crypto.compress.
  rewrite zipWith_length, rounds_length, H by exact H. reflexivity.
Qed.

Lemma blocks_length (fuel : nat) (h ws : list N) :
  length h = 8%nat -> length (Crypto.blocks fuel h ws) = 8%nat.
Proof.
  revert h ws. induction fuel as [|fuel IH]; intros h ws H; simpl; [exact H|].
  destruct ws; [exact H|]. apply IH, compress_length, H.
Qed.

Lemma flat_map_be_bytes4_length (ws : list N) :
  length (flat_map Crypto.be_bytes4 ws) = (4 * length ws)%nat.
Proof.
  induction ws as [|w ws IH]; simpl; [reflexivity|]. rewrite IH. lia.
Qed.

Lemma sha256_length (msg : list N) : length (Crypto.sha256 msg) = 32%nat.
Proof.
  unfold Crypto.sha256. rewrite flat_map_be_bytes4_length, blocks_length; reflexivity.
Qed.

Lemma hex_length (bs : list N) : length (Crypto.hex bs) = (2 * length bs)%nat.
Proof.
  induction bs as [|b bs IH]; simpl; [reflexivity|]. rewrite IH. lia.
Qed.

(** The hexadecimal HMAC-SHA256 digest always has 64 characters. *)
Lemma hmac_sha256_hex_length (secret data : string) :
  String.length (Crypto.hmac_sha256_hex secret data) = 64%nat.
Proof.
  unfold Crypto.hmac_sha256_hex, Crypto.hmac_sha256.
  rewrite of_bytes_length, hex_length, sha256_length. reflexivity.
Qed.

End DigestFacts.

(* ===================================================================== *)
(** * Properties: the webhook signature check *)
(* ===================================================================== *)

(** C10. For a present, non-empty signature and timestamp,
    [verifyWebhookSignature] throws (a [RangeError] of the timing-safe
    comparison) instead of returning [false] whenever the byte length of
    the supplied signature differs from the 64 characters of the
    hexadecimal HMAC-SHA256 digest it is compared with. *)
Theorem verifyWebhookSignature_throws_on_length_mismatch
    (payload signature timestamp secret : string) :
  signature <> "" ->
  timestamp <> "" ->
  String.length signature <> 64%nat ->
  String.length (Crypto.hmac_sha256_hex secret (timestamp +:+ "." +:+ payload)) = 64%nat
  /\ verifyWebhookSignature payload (Some signature) (Some timestamp) secret
     = Throw (RangeError "Input buffers must have the same byte length").
Proof.
  intros Hsig Hts Hlen. split; [apply hmac_sha256_hex_length|].
  unfold verifyWebhookSignature, falsy_string.
  apply String.eqb_neq in Hsig, Hts. rewrite Hsig, Hts. simpl.
  unfold Crypto.timingSafeEqual. rewrite hmac_sha256_hex_length.
  apply Nat.eqb_neq in Hlen. now rewrite Hlen.
Qed.

Lemma verifyWebhookSignature_throws_on_length_mismatch_witness :
  "deadbeef" <> "" /\ "1739836800" <> "" /\ String.length "deadbeef" <> 64%nat
  /\ verifyWebhookSignature "{}" (Some "deadbeef") (Some "1739836800") "secret"
     = Throw (RangeError "Input buffers must have the same byte length").
Proof.
  split; [discriminate|]. split; [discriminate|]. split; [simpl; lia|].
  apply (verifyWebhookSignature_throws_on_length_mismatch
           "{}" "deadbeef" "1739836800" "secret");
    [discriminate | discriminate | simpl; lia].
Defined.

(* ===================================================================== *)
(** * Properties: the queue store *)
(* ===================================================================== *)

Section QueueStore.

Lemma list_at_store_list (key : string) (l : list string) (r : Redis) :
  RedisCmd.list_at key (RedisCmd.store_list key l r) = l.
Proof.
  unfold RedisCmd.list_at, RedisCmd.store_list. simpl.
  destruct l; [now rewrite lookup_delete_eq | now rewrite lookup_insert_eq].
Qed.

Lemma list_at_store_list_ne (key key' : string) (l : list string) (r : Redis) :
  key <> key' ->
  RedisCmd.list_at key' (RedisCmd.store_list key l r) = RedisCmd.list_at key' r.
Proof.
  intros Hne. unfold RedisCmd.list_at, RedisCmd.store_list. simpl.
  destruct l; [now rewrite lookup_delete_ne | now rewrite lookup_insert_ne].
Qed.

Lemma last_split_tail {A : Type} (l : list A) (x : A) :
  last l = Some x -> l = removelast l ++ [x].
Proof.
  intros H. apply last_Some in H. destruct H as [l' ->].
  now rewrite removelast_last.
Qed.

Lemma enqueueCast_run (data : JsVal) (w : World) :
  match JSON.stringify data with
  | Some s =>
      enqueueCast data w
      = (Ok (N.of_nat (S (length (pending w)))),
         record_event (Enqueued s)
           (set_redis (RedisCmd.store_list MINT_QUEUE (s :: pending w) (redis w)) w))
  | None => enqueueCast data w = (Throw (TypeError "Invalid argument type"), w)
  end.
Proof.
  unfold enqueueCast, redis_ops.lPush, bind, throw.
  destruct (JSON.stringify data) as [s|]; reflexivity.
Qed.

Lemma dequeueCast_run (w : World) :
  match last (pending w) with
  | Some x =>
      dequeueCast w
      = (decode x,
         record_event (Dequeued x)
           (set_redis (RedisCmd.store_list MINT_QUEUE (removelast (pending w)) (redis w)) w))
  | None => dequeueCast w = (Ok VNull, w)
  end.
Proof.
  unfold dequeueCast, redis_ops.rPop, RedisCmd.RPOP, bind, pending, decode.
  destruct (last (RedisCmd.list_at MINT_QUEUE (redis w))) as [x|] eqn:Hlast; simpl.
  - destruct (String.eqb x ""); [reflexivity|].
    unfold lift. destruct (JSON.parse x); reflexivity.
  - destruct w; reflexivity.
Qed.

Lemma pending_store (l : list string) (w : World) (e : Event) :
  pending (record_event e (set_redis (RedisCmd.store_list MINT_QUEUE l (redis w)) w)) = l.
Proof. unfold pending. simpl. apply list_at_store_list. Qed.

Lemma call_fifo (c : QueueCall) (w : World) :
  exists new,
    journal (snd (call c w)) = new ++ journal w
    /\ rev (pending w) ++ enqueued_in (rev new)
       = dequeued_in (rev new) ++ rev (pending (snd (call c w))).
Proof.
  destruct c as [data|]; unfold call, bind.
  - pose proof (enqueueCast_run data w) as H.
    destruct (JSON.stringify data) as [s|]; rewrite H; cbn [fst snd ret].
    + exists [Enqueued s]. split; [reflexivity|].
      rewrite pending_store. reflexivity.
    + exists []. split; [reflexivity|]. simpl. now rewrite app_nil_r.
  - pose proof (dequeueCast_run w) as H.
    destruct (last (pending w)) as [x|] eqn:Hlast; rewrite H.
    + apply last_split_tail in Hlast.
      exists [Dequeued x]. 
      assert (Hw : forall r : Result JsVal, snd (let (r0, w') := (r, record_event (Dequeued x)
                (set_redis (RedisCmd.store_list MINT_QUEUE (removelast (pending w)) (redis w)) w))
              in match r0 with Ok _ => ret tt w' | Throw e => (Throw e, w') end)
              = record_event (Dequeued x)
                (set_redis (RedisCmd.store_list MINT_QUEUE (removelast (pending w)) (redis w)) w)).
      { intros []; reflexivity. }
      rewrite Hw, pending_store. split; [reflexivity|].
      rewrite Hlast at 1. rewrite rev_app_distr. simpl. now rewrite app_nil_r.
    + exists []. split; [reflexivity|]. simpl. now rewrite app_nil_r.
Qed.

Lemma enqueued_in_app (a b : list Event) :
  enqueued_in (a ++ b) = enqueued_in a ++ enqueued_in b.
Proof. apply flat_map_app. Qed.

Lemma dequeued_in_app (a b : list Event) :
  dequeued_in (a ++ b) = dequeued_in a ++ dequeued_in b.
Proof. apply flat_map_app. Qed.

Lemma run_calls_fifo (calls : list QueueCall) (w : World) :
  exists new,
    journal (run_calls calls w) = new ++ journal w
    /\ rev (pending w) ++ enqueued_in (rev new)
       = dequeued_in (rev new) ++ rev (pending (run_calls calls w)).
Proof.
  revert w. induction calls as [|c calls IH]; intros w; simpl.
  - exists []. split; [reflexivity|]. simpl. now rewrite app_nil_r.
  - destruct (call_fifo c w) as (n1 & J1 & E1).
    destruct (IH (snd (call c w))) as (n2 & J2 & E2).
    exists (n2 ++ n1). split.
    + rewrite J2, J1. now rewrite app_assoc.
    + rewrite rev_app_distr, enqueued_in_app, dequeued_in_app.
      rewrite app_assoc, E1, <- app_assoc, E2, app_assoc. reflexivity.
Qed.

End QueueStore.

(** C5. The queue is first-in-first-out.  [enqueueCast] pushes the JSON
    text of the item at the head of the pending list, [dequeueCast] pops
    the tail entry and answers its parse, and over any sequence of calls
    the entries that arrived (those pending at the start in queue order,
    then those enqueued, oldest first) are served in that order: the
    entries dequeued so far followed by the entries still pending, tail
    first, are the arrivals.  So when an entry B that arrived after an
    entry A has been dequeued, A has been dequeued before it. *)
Theorem queue_is_first_in_first_out :
  (forall data s w, JSON.stringify data = Some s ->
     pending (snd (enqueueCast data w)) = s :: pending w)
  /\ (forall q x w, pending w = q ++ [x] ->
        fst (dequeueCast w) = decode x /\ pending (snd (dequeueCast w)) = q)
  /\ (forall calls w, exists new,
        let arrived := rev (pending w) ++ enqueued_in (rev new) in
        let served := dequeued_in (rev new) in
        journal (run_calls calls w) = new ++ journal w
        /\ arrived = served ++ rev (pending (run_calls calls w))
        /\ forall (i j : nat) (a b : string),
             (i < j)%nat -> arrived !! i = Some a -> arrived !! j = Some b ->
             (j < length served)%nat ->
             served !! i = Some a /\ served !! j = Some b).
Proof.
  split; [|split].
  - intros data s w Hs. pose proof (enqueueCast_run data w) as H.
    rewrite Hs in H. rewrite H. cbn [snd]. apply pending_store.
  - intros q x w Hq. pose proof (dequeueCast_run w) as H.
    rewrite Hq, last_snoc in H. rewrite H. cbn [fst snd].
    split; [reflexivity|]. rewrite pending_store. apply removelast_last.
  - intros calls w. destruct (run_calls_fifo calls w) as (new & HJ & HE).
    exists new. cbv zeta. split; [exact HJ|]. split; [exact HE|].
    intros i j a b Hij Ha Hb Hj. rewrite HE in Ha, Hb.
    rewrite lookup_app_l in Ha by lia. rewrite lookup_app_l in Hb by lia.
    now split.
Qed.

Example fifo_two_items :
  let a := Obj.literal [("castHash", VStr "0xa")] in
  let b := Obj.literal [("castHash", VStr "0xb")] in
  let w2 := run_calls [CallEnqueue a; CallEnqueue b] world0 in
  fst (dequeueCast w2) = Ok a
  /\ fst (dequeueCast (snd (dequeueCast w2))) = Ok b
  /\ fst (dequeueCast (snd (dequeueCast (snd (dequeueCast w2))))) = Ok VNull.
Proof. vm_compute. repeat split. Qed.

(* ===================================================================== *)
(** * Properties: time-outs and local retries *)
(* ===================================================================== *)

Section Retries.

Lemma fetchWithRetry_from_unfold (attempt : nat) (env : Env) (url : string)
    (options : RequestInit) (retries : nat) (w : World) :
  fetchWithRetry_from attempt env url options retries w
  = match fetch_with_signal env url options attempt with
    | Ok response => (Ok response, record_event (Requested url attempt) w)
    | Throw error =>
        match retries with
        | S retries' =>
            if instanceofError error && negb (String.eqb (error_name error) "AbortError")
            then fetchWithRetry_from (S attempt) env url options retries'
                   (record_event (Waited RETRY_DELAY) (record_event (Requested url attempt) w))
            else (Throw error, record_event (Requested url attempt) w)
        | O => (Throw error, record_event (Requested url attempt) w)
        end
    end.
Proof.
  destruct retries; simpl; unfold bind, emit, modify;
    destruct (fetch_with_signal env url options attempt) as [r|e]; try reflexivity.
  destruct (instanceofError e && negb (String.eqb (error_name e) "AbortError"));
    reflexivity.
Qed.

Lemma timed_out_signal (env : Env) (url : string) (options : RequestInit) (attempt : nat) :
  API_TIMEOUT <= elapsed_ms (fetch env url options attempt) ->
  fetch_with_signal env url options attempt = Throw AbortError.
Proof.
  intros H. unfold fetch_with_signal. apply N.leb_le in H. now rewrite H.
Qed.

Lemma failed_signal (env : Env) (url : string) (options : RequestInit) (attempt : nat)
    (message : string) :
  elapsed_ms (fetch env url options attempt) < API_TIMEOUT ->
  settled (fetch env url options attempt) = Fails message ->
  fetch_with_signal env url options attempt = Throw (TypeError message).
Proof.
  intros H Hs. unfold fetch_with_signal. apply N.leb_gt in H. now rewrite H, Hs.
Qed.

End Retries.

(** C6, as the code has it.  A call that has not settled after
    [API_TIMEOUT] milliseconds is aborted and surfaces an [AbortError],
    which is not the [TypeError] of a transport failure.  The
    [AbortError] is excluded from the local retries: [fetchWithRetry]
    rethrows it after that one attempt, without a pause, whatever number
    of retries is left.  A transport failure is what is retried, after
    [RETRY_DELAY], while retries are left, and is rethrown when none is. *)
Theorem fetchWithRetry_does_not_retry_a_timeout
    (attempt : nat) (env : Env) (url : string) (options : RequestInit)
    (retries : nat) (w : World) :
  API_TIMEOUT <= elapsed_ms (fetch env url options attempt) ->
  fetchWithRetry_from attempt env url options retries w
  = (Throw AbortError, record_event (Requested url attempt) w)
  /\ (forall message, AbortError <> TypeError message)
  /\ (forall attempt' message retries' w',
        elapsed_ms (fetch env url options attempt') < API_TIMEOUT ->
        settled (fetch env url options attempt') = Fails message ->
        fetchWithRetry_from attempt' env url options (S retries') w'
        = fetchWithRetry_from (S attempt') env url options retries'
            (record_event (Waited RETRY_DELAY)
               (record_event (Requested url attempt') w'))
        /\ fetchWithRetry_from attempt' env url options 0 w'
           = (Throw (TypeError message), record_event (Requested url attempt') w')).
Proof.
  intros Hlate. split; [|split].
  - rewrite fetchWithRetry_from_unfold, (timed_out_signal _ _ _ _ Hlate).
    destruct retries; reflexivity.
  - intros message. discriminate.
  - intros attempt' message retries' w' Hin Hfail.
    rewrite !fetchWithRetry_from_unfold, (failed_signal _ _ _ _ _ Hin Hfail).
    split; reflexivity.
Qed.

Lemma fetchWithRetry_does_not_retry_a_timeout_witness :
  API_TIMEOUT <= elapsed_ms (slow_then_fast "https://mintos.example/api/ipfs" get_request 0)
  /\ fetchWithRetry (environment slow_then_fast (fun _ => None))
       "https://mintos.example/api/ipfs" get_request MAX_RETRIES world0
     = (Throw AbortError,
        record_event (Requested "https://mintos.example/api/ipfs" 0) world0).
Proof.
  split; [vm_compute; discriminate|].
  apply (fetchWithRetry_does_not_retry_a_timeout 0
           (environment slow_then_fast (fun _ => None))
           "https://mintos.example/api/ipfs" get_request MAX_RETRIES world0).
  vm_compute; discriminate.
Defined.

(** C6, as stated, fails: with three retries left, a first attempt that
    times out is not followed by a second attempt, although the second
    would have been answered. *)
Lemma timeout_is_not_retried_counterexample :
  ~ (forall (env : Env) (url : string) (options : RequestInit) (retries : nat) (w : World),
       (0 < retries)%nat ->
       API_TIMEOUT <= elapsed_ms (fetch env url options 0) ->
       In (Requested url 1) (journal (snd (fetchWithRetry env url options retries w)))).
Proof.
  intros claim.
  specialize (claim (environment slow_then_fast (fun _ => None))
                    "https://mintos.example/api/ipfs" get_request MAX_RETRIES world0).
  assert (H : In (Requested "https://mintos.example/api/ipfs" 1)
                 [Requested "https://mintos.example/api/ipfs" 0]).
  { apply claim; [unfold MAX_RETRIES; lia | vm_compute; discriminate]. }
  destruct H as [H|[]]. discriminate H.
Qed.

Example transport_failure_is_retried :
  fetchWithRetry (environment reset_then_fast (fun _ => None))
    "https://mintos.example/api/ipfs" get_request MAX_RETRIES world0
  = (Ok {| resp_status := 200; resp_body := "{}" |},
     record_event (Requested "https://mintos.example/api/ipfs" 1)
       (record_event (Waited RETRY_DELAY)
          (record_event (Requested "https://mintos.example/api/ipfs" 0) world0))).
Proof. vm_compute. reflexivity. Qed.

(* ===================================================================== *)
(** * Properties: the split route *)
(* ===================================================================== *)

Section Addresses.

Lemma lower_byte_bounded (a : N) : a < 256 -> Js.lower_byte a < 256.
Proof.
  unfold Js.lower_byte, Js.in_range. intros H.
  destruct (65 <=? a) eqn:H1, (a <=? 90) eqn:H2; simpl; try exact H.
  apply N.leb_le in H2. lia.
Qed.

Lemma lower_byte_idempotent (a : N) : Js.lower_byte (Js.lower_byte a) = Js.lower_byte a.
Proof.
  unfold Js.lower_byte, Js.in_range.
  destruct (65 <=? a) eqn:H1, (a <=? 90) eqn:H2; simpl; rewrite ?H1, ?H2; simpl;
    try reflexivity.
  apply N.leb_le in H1, H2.
  replace (a + 32 <=? 90) with false by (symmetry; apply N.leb_gt; lia).
  now rewrite andb_false_r.
Qed.

(** Lower-casing does not touch, and does not produce, a byte outside the
    letters: a test against such a byte reads the same before and after. *)
Lemma lower_byte_eqb (a k : N) :
  k < 65 \/ 122 < k -> (Js.lower_byte a =? k) = (a =? k).
Proof.
  intros Hk. unfold Js.lower_byte, Js.in_range.
  destruct (65 <=? a) eqn:H1, (a <=? 90) eqn:H2; simpl; try reflexivity.
  apply N.leb_le in H1, H2.
  transitivity false; [apply N.eqb_neq; lia | symmetry; apply N.eqb_neq; lia].
Qed.

Lemma lower_byte_in_range (a lo hi : N) :
  hi < 65 \/ 122 < lo -> Js.in_range lo hi (Js.lower_byte a) = Js.in_range lo hi a.
Proof.
  intros Hk. unfold Js.lower_byte, Js.in_range.
  destruct (65 <=? a) eqn:H1, (a <=? 90) eqn:H2; simpl; try reflexivity.
  apply N.leb_le in H1, H2.
  destruct Hk as [Hk|Hk].
  - replace (a + 32 <=? hi) with false by (symmetry; apply N.leb_gt; lia).
    replace (a <=? hi) with false by (symmetry; apply N.leb_gt; lia).
    now rewrite !andb_false_r.
  - replace (lo <=? a + 32) with false by (symmetry; apply N.leb_gt; lia).
    replace (lo <=? a) with false by (symmetry; apply N.leb_gt; lia).
    reflexivity.
Qed.

Lemma ws1_lower (a : N) : Js.ws1 (Js.lower_byte a) = Js.ws1 a.
Proof.
  unfold Js.ws1. now rewrite lower_byte_in_range, lower_byte_eqb by lia.
Qed.

Lemma ws2_lower (a b : N) : Js.ws2 (Js.lower_byte a) (Js.lower_byte b) = Js.ws2 a b.
Proof.
  unfold Js.ws2. now rewrite !lower_byte_eqb by lia.
Qed.

Lemma ws3_lower (a b c : N) :
  Js.ws3 (Js.lower_byte a) (Js.lower_byte b) (Js.lower_byte c) = Js.ws3 a b c.
Proof.
  unfold Js.ws3. now rewrite lower_byte_in_range, !lower_byte_eqb by lia.
Qed.

Section DropLeading.

Variables (p1 : N -> bool) (p2 : N -> N -> bool) (p3 : N -> N -> N -> bool).

Lemma drop_leading_step (l : list N) :
  Js.drop_leading p1 p2 p3 l
  = match strip_one p1 p2 p3 l with
    | Some r => Js.drop_leading p1 p2 p3 r
    | None => l
    end.
Proof.
  destruct l as [|a [|b [|c r]]]; simpl; try reflexivity.
  - destruct (p1 a); reflexivity.
  - destruct (p1 a); [reflexivity|]. destruct (p2 a b); reflexivity.
  - destruct (p1 a); [reflexivity|]. destruct (p2 a b); [reflexivity|].
    destruct (p3 a b c); reflexivity.
Qed.

Lemma strip_one_suffix (l r : list N) :
  strip_one p1 p2 p3 l = Some r ->
  (length r < length l)%nat /\ exists pre, l = pre ++ r.
Proof.
  destruct l as [|a [|b [|c t]]]; simpl; try discriminate.
  - destruct (p1 a); [|discriminate]. intros [= <-]. split; [simpl; lia|].
    now exists [a].
  - destruct (p1 a).
    + intros [= <-]. split; [simpl; lia|]. now exists [a].
    + destruct (p2 a b); [|discriminate]. intros [= <-]. split; [simpl; lia|].
      now exists [a; b].
  - destruct (p1 a).
    + intros [= <-]. split; [simpl; lia|]. now exists [a].
    + destruct (p2 a b).
      * intros [= <-]. split; [simpl; lia|]. now exists [a; b].
      * destruct (p3 a b c); [|discriminate]. intros [= <-].
        split; [simpl; lia|]. now exists [a; b; c].
Qed.

Lemma drop_leading_suffix (l : list N) :
  exists pre, l = pre ++ Js.drop_leading p1 p2 p3 l.
Proof.
  remember (length l) as n eqn:Hn. revert l Hn.
  induction n as [n IH] using lt_wf_ind. intros l Hn.
  rewrite drop_leading_step.
  destruct (strip_one p1 p2 p3 l) as [r|] eqn:Hs; [|now exists []].
  apply strip_one_suffix in Hs. destruct Hs as [Hlen [pre ->]].
  destruct (IH (length r) ltac:(subst; exact Hlen) r eq_refl) as [pre' Hpre'].
  exists (pre ++ pre'). rewrite <- app_assoc. now rewrite <- Hpre'.
Qed.

Variable f : N -> N.
Hypothesis f1 : forall a, p1 (f a) = p1 a.
Hypothesis f2 : forall a b, p2 (f a) (f b) = p2 a b.
Hypothesis f3 : forall a b c, p3 (f a) (f b) (f c) = p3 a b c.

Lemma strip_one_map (l : list N) :
  strip_one p1 p2 p3 (map f l) = option_map (map f) (strip_one p1 p2 p3 l).
Proof.
  destruct l as [|a [|b [|c r]]]; simpl; rewrite ?f1, ?f2, ?f3; try reflexivity.
  - destruct (p1 a); reflexivity.
  - destruct (p1 a); [reflexivity|]. destruct (p2 a b); reflexivity.
  - destruct (p1 a); [reflexivity|]. destruct (p2 a b); [reflexivity|].
    destruct (p3 a b c); reflexivity.
Qed.

Lemma drop_leading_map (l : list N) :
  Js.drop_leading p1 p2 p3 (map f l) = map f (Js.drop_leading p1 p2 p3 l).
Proof.
  remember (length l) as n eqn:Hn. revert l Hn.
  induction n as [n IH] using lt_wf_ind. intros l Hn.
  rewrite (drop_leading_step (map f l)), (drop_leading_step l), strip_one_map.
  destruct (strip_one p1 p2 p3 l) as [r|] eqn:Hs; simpl; [|reflexivity].
  apply strip_one_suffix in Hs. destruct Hs as [Hlen _].
  apply (IH (length r)); [subst; exact Hlen | reflexivity].
Qed.

End DropLeading.

Lemma trim_bytes_lower (l : list N) :
  Js.trim_bytes (map Js.lower_byte l) = map Js.lower_byte (Js.trim_bytes l).
Proof.
  unfold Js.trim_bytes, Js.dropWs, Js.dropWsRev.
  rewrite drop_leading_map by (intros; auto using ws1_lower, ws2_lower, ws3_lower).
  rewrite <- map_rev.
  rewrite drop_leading_map by (intros; auto using ws1_lower, ws2_lower, ws3_lower).
  now rewrite <- map_rev.
Qed.

Lemma trim_bytes_bounded (l : list N) :
  Forall (fun a => a < 256) l -> Forall (fun a => a < 256) (Js.trim_bytes l).
Proof.
  intros H. unfold Js.trim_bytes, Js.dropWs, Js.dropWsRev.
  apply Forall_rev.
  destruct (drop_leading_suffix Js.ws1 (fun a b => Js.ws2 b a)
              (fun a b c => Js.ws3 c b a) (rev (Js.drop_leading Js.ws1 Js.ws2 Js.ws3 l)))
    as [pre Hpre].
  destruct (drop_leading_suffix Js.ws1 Js.ws2 Js.ws3 l) as [pre' Hpre'].
  rewrite Hpre' in H. apply Forall_app in H. destruct H as [_ H].
  apply Forall_rev in H. rewrite Hpre in H. apply Forall_app in H. apply H.
Qed.

Lemma lower_bytes_bounded (l : list N) :
  Forall (fun a => a < 256) l -> Forall (fun a => a < 256) (map Js.lower_byte l).
Proof.
  intros H. apply Forall_map. eapply Forall_impl; [exact H|].
  intros a Ha. apply lower_byte_bounded, Ha.
Qed.

(** The normalized form of an address is that of its lower-cased form. *)
Lemma normalize_lower (s : string) :
  Js.toLowerCase (Js.trim s)
  = Js.of_bytes (Js.trim_bytes (Js.bytes (Js.toLowerCase s))).
Proof.
  unfold Js.toLowerCase, Js.trim.
  rewrite !bytes_of_bytes.
  - now rewrite trim_bytes_lower.
  - apply lower_bytes_bounded, bytes_bounded.
  - apply trim_bytes_bounded, bytes_bounded.
Qed.

Lemma toLowerCase_idempotent (s : string) :
  Js.toLowerCase (Js.toLowerCase s) = Js.toLowerCase s.
Proof.
  unfold Js.toLowerCase.
  rewrite bytes_of_bytes by apply lower_bytes_bounded, bytes_bounded.
  rewrite map_map. f_equal. apply map_ext. intros a. apply lower_byte_idempotent.
Qed.

Lemma validateAndConvertAddress_ok (wallet address : string) :
  CreateSplit.validateAndConvertAddress (VStr wallet) = Ok address ->
  address = Js.toLowerCase (Js.trim wallet) /\ CreateSplit.is_address address = true.
Proof.
  unfold CreateSplit.validateAndConvertAddress.
  destruct (CreateSplit.is_address (Js.toLowerCase (Js.trim wallet))) eqn:H; simpl;
    [|discriminate].
  intros [= <-]. now split.
Qed.

End Addresses.

(** C7. Given caster and minter payable addresses (addresses that pass
    validation), the split is built with the fixed percentages: content
    owner 50, requester 5, platform 45, in that order of recipients; when
    the two addresses are equal up to letter case, it has exactly two
    recipients, the owner with 55 and the platform with 45.  Either way
    the allocations add up to 100. *)
Theorem split_has_fixed_shares
    (casterWallet minterWallet casterAddress minterAddress : string) :
  CreateSplit.validateAndConvertAddress (VStr casterWallet) = Ok casterAddress ->
  CreateSplit.validateAndConvertAddress (VStr minterWallet) = Ok minterAddress ->
  let cfg := CreateSplit.splitsConfig casterAddress minterAddress in
  (Js.toLowerCase casterWallet = Js.toLowerCase minterWallet ->
     recipients cfg = [(casterAddress, 55); (CreateSplit.EDITMINT_WALLET, 45)])
  /\ (casterAddress <> minterAddress ->
        recipients cfg = [(casterAddress, 50); (minterAddress, 5);
                          (CreateSplit.EDITMINT_WALLET, 45)])
  /\ fold_right N.add 0 (map snd (recipients cfg)) = 100
  /\ distributorFeePercent cfg = 0.
Proof.
  intros Hc Hm cfg.
  apply validateAndConvertAddress_ok in Hc, Hm.
  destruct Hc as [Hc _], Hm as [Hm _].
  assert (Hsame : CreateSplit.isSameAddress casterAddress minterAddress
                  = String.eqb casterAddress minterAddress).
  { unfold CreateSplit.isSameAddress. rewrite Hc, Hm.
    now rewrite !toLowerCase_idempotent. }
  subst cfg. unfold CreateSplit.splitsConfig. rewrite Hsame. simpl.
  split; [|split; [|split]].
  - intros Heq.
    assert (E : casterAddress = minterAddress).
    { rewrite Hc, Hm, !normalize_lower, Heq. reflexivity. }
    apply String.eqb_eq in E. rewrite E. reflexivity.
  - intros Hne. apply String.eqb_neq in Hne. rewrite Hne. reflexivity.
  - destruct (String.eqb casterAddress minterAddress); reflexivity.
  - reflexivity.
Qed.

Lemma split_has_fixed_shares_witness :
  let wallet := "0xAbCdEf0123456789aBcDeF0123456789abcdef01" in
  let address := "0xabcdef0123456789abcdef0123456789abcdef01" in
  CreateSplit.validateAndConvertAddress (VStr wallet) = Ok address
  /\ CreateSplit.validateAndConvertAddress (VStr address) = Ok address
  /\ Js.toLowerCase wallet = Js.toLowerCase address
  /\ recipients (CreateSplit.splitsConfig address address)
     = [(address, 55); (CreateSplit.EDITMINT_WALLET, 45)].
Proof.
  intros wallet address.
  assert (Hc : CreateSplit.validateAndConvertAddress (VStr wallet) = Ok address)
    by (vm_compute; reflexivity).
  assert (Hm : CreateSplit.validateAndConvertAddress (VStr address) = Ok address)
    by (vm_compute; reflexivity).
  split; [exact Hc|]. split; [exact Hm|]. split; [vm_compute; reflexivity|].
  apply (split_has_fixed_shares wallet address address address Hc Hm).
  vm_compute; reflexivity.
Defined.

Example split_of_two_wallets :
  recipients (CreateSplit.splitsConfig "0x1111111111111111111111111111111111111111"
                                       "0x2222222222222222222222222222222222222222")
  = [("0x1111111111111111111111111111111111111111", 50);
     ("0x2222222222222222222222222222222222222222", 5);
     (CreateSplit.EDITMINT_WALLET, 45)].
Proof. vm_compute. reflexivity. Qed.

Section SplitResolution.




End SplitResolution.





Example split_is_deployed_once :
  journal (snd split_first)
  = [Submitted {| tx_to := "0xSplitMain"; tx_data := "0xcalldata" |}]
  /\ journal (snd split_second) = journal (snd split_first)
  /\ split_transaction_of (answer_of (fst split_first)) = VStr "0xtxhash"
  /\ split_transaction_of (answer_of (fst split_second)) = VUndef.
Proof.
  split; [vm_compute; reflexivity|]. split; [vm_compute; reflexivity|].
  split; vm_compute; reflexivity.
Qed.

(* ===================================================================== *)
(** * Properties: a program logic for the pipeline *)
(* ===================================================================== *)

Section ProgramLogic.

Context {A B : Type}.

Lemma hoare_bind (P : World -> Prop) (m : M A) (k : A -> M B)
    (Q' : A -> World -> Prop) (Q : B -> World -> Prop) (R : Thrown -> World -> Prop) :
  hoare P m Q' R -> (forall a, hoare (Q' a) (k a) Q R) -> hoare P (bind m k) Q R.
Proof.
  intros Hm Hk w HP. unfold bind. specialize (Hm w HP).
  destruct (m w) as [[a|e] w1]; [apply Hk, Hm | exact Hm].
Qed.

Lemma hoare_conseq (P P' : World -> Prop) (m : M A)
    (Q Q' : A -> World -> Prop) (R R' : Thrown -> World -> Prop) :
  hoare P' m Q' R' ->
  (forall w, P w -> P' w) -> (forall a w, Q' a w -> Q a w) ->
  (forall e w, R' e w -> R e w) -> hoare P m Q R.
Proof.
  intros H HP HQ HR w Hw. specialize (H w (HP w Hw)).
  destruct (m w) as [[a|e] w1]; auto.
Qed.

Lemma quiet_bind (m : M A) (k : A -> M B) :
  quiet m -> (forall a, quiet (k a)) -> quiet (bind m k).
Proof.
  intros Hm Hk w0. eapply hoare_bind; [apply Hm | intros a; apply Hk].
Qed.

Lemma quiet_ret (a : A) : quiet (ret a).
Proof. intros w0 w H. exact H. Qed.

Lemma quiet_throw (e : Thrown) : quiet (@throw A e).
Proof. intros w0 w H. exact H. Qed.

Lemma quiet_lift (r : Result A) : quiet (lift r).
Proof. intros w0 w H. unfold lift. destruct r; exact H. Qed.

Lemma quiet_if (c : bool) (m1 m2 : M A) : quiet m1 -> quiet m2 -> quiet (if c then m1 else m2).
Proof. destruct c; auto. Qed.

End ProgramLogic.

Section QuietSteps.

Lemma Quiet_refl (w : World) : Quiet w w.
Proof.
  constructor; try reflexivity. exists []. split; [reflexivity | constructor].
Qed.

Lemma quiet_set_isProcessing (b : bool) : quiet (modify (set_isProcessing b)).
Proof.
  intros w0 w [? ? ? ? ? ? ? ? ?]. constructor; assumption.
Qed.

Lemma quiet_status (s : string) : quiet (update_health (with_status s)).
Proof.
  intros w0 w [? ? ? ? ? ? ? ? ?]. constructor; assumption.
Qed.

Lemma quiet_emit_io (e : Event) : io_event e -> quiet (emit e).
Proof.
  intros He w0 w [? ? ? ? ? ? ? ? (evs & Hj & Hio)]. constructor; try assumption.
  exists (e :: evs). simpl. rewrite Hj. split; [reflexivity | now constructor].
Qed.

Lemma quiet_fetchWithRetry_from (attempt : nat) (env : Env) (url : string)
    (options : RequestInit) (retries : nat) :
  quiet (fetchWithRetry_from attempt env url options retries).
Proof.
  revert attempt. induction retries as [|retries IH]; intros attempt; simpl.
  - apply quiet_bind; [now apply quiet_emit_io | intros _].
    destruct (fetch_with_signal env url options attempt);
      [apply quiet_ret | apply quiet_throw].
  - apply quiet_bind; [now apply quiet_emit_io | intros _].
    destruct (fetch_with_signal env url options attempt) as [r|e]; [apply quiet_ret|].
    apply quiet_if; [|apply quiet_throw].
    apply quiet_bind; [now apply quiet_emit_io | intros _]. apply IH.
Qed.

Lemma quiet_fetchWithRetry (env : Env) (url : string) (options : RequestInit)
    (retries : nat) :
  quiet (fetchWithRetry env url options retries).
Proof. apply quiet_fetchWithRetry_from. Qed.

Lemma quiet_failed_call (what : string) (r : Response) : quiet (failed_call what r).
Proof.
  unfold failed_call. apply quiet_bind; [apply quiet_lift | intros d; apply quiet_throw].
Qed.

End QuietSteps.

(** Proves that a composition of quiet steps is quiet. *)
Ltac quiet_solve :=
  repeat first
    [ apply quiet_ret | apply quiet_throw | apply quiet_lift
    | apply quiet_set_isProcessing | apply quiet_status
    | apply quiet_fetchWithRetry | apply quiet_failed_call
    | apply quiet_if
    | apply quiet_bind; [|intros ?] ].

Section PipelineSteps.

Variable env : Env.

Lemma storeMintedNFT_spec (w0 : World)
    (castHash zoraUrl casterUsername minterUsername mintHash timestamp
     contractAddress tokenId : JsVal) :
  hoare (Quiet w0)
    (storeMintedNFT env castHash zoraUrl casterUsername minterUsername mintHash
       timestamp contractAddress tokenId)
    (fun _ => Recorded (Supabase.as_text castHash) w0)
    (fun _ => Quiet w0).
Proof.
  intros w [Hr Ht Hs Hsh Htm He Hf Hz (evs & Hj & Hio)].
  unfold storeMintedNFT, Supabase.insert, bind.
  destruct (insert_failure env _) as [e|]; [constructor; eauto|].
  destruct (negb (Supabase.not_null_ok _)); [constructor; eauto|]. cbn [cast_hash].
  destruct (minted_casts w !! Supabase.as_text castHash) eqn:Hk;
    [constructor; eauto|].
  simpl. constructor; simpl; try assumption.
  - now rewrite <- Ht.
  - eexists. now rewrite Ht.
  - exists evs. now rewrite Hj.
Qed.

Lemma mintAndRecord_spec (data : JsVal) (w0 : World) :
  hoare (Quiet w0) (mintAndRecord env data)
    (fun _ => Recorded (Supabase.as_text (Value.get data "parentHash")) w0)
    (fun _ => Quiet w0).
Proof.
  unfold mintAndRecord.
  repeat first
    [ match goal with
      | |- hoare _ (bind (storeMintedNFT _ _ _ _ _ _ _ _ _) _) _ _ =>
          eapply hoare_bind; [apply storeMintedNFT_spec | intros _ w H; exact H]
      | |- hoare _ (bind _ _) _ _ =>
          eapply hoare_bind; [solve [apply (fun H => H w0); quiet_solve] | intros ?]
      | |- hoare _ (if ?c then _ else _) _ _ => destruct c
      | |- hoare _ (throw _) _ _ => intros w H; exact H
      end
    | progress cbv beta zeta ].
Qed.

End PipelineSteps.

Section AfterRecord.

Variable env : Env.

Lemma processed_SADD (h : string) (r : Redis) :
  lists (snd (RedisCmd.SADD "processed_casts" h r)) = lists r
  /\ RedisCmd.set_at "processed_casts" (snd (RedisCmd.SADD "processed_casts" h r))
     = {[h]} ∪ RedisCmd.set_at "processed_casts" r.
Proof.
  unfold RedisCmd.SADD. case_bool_decide as Hin; simpl.
  - split; [reflexivity|]. apply set_eq. intros x.
    rewrite elem_of_union, elem_of_singleton. split; [tauto|].
    intros [->|Hx]; assumption.
  - split; [reflexivity|]. unfold RedisCmd.set_at at 1. simpl.
    now rewrite lookup_insert_eq.
Qed.

Lemma markCastAsProcessed_string (h : string) (w : World) :
  markCastAsProcessed (VStr h) w
  = (Ok tt, record_event (Marked h)
              (set_redis (snd (RedisCmd.SADD "processed_casts" h (redis w))) w)).
Proof.
  unfold markCastAsProcessed, redis_ops.sAdd, bind, lift. simpl.
  destruct (RedisCmd.SADD "processed_casts" h (redis w)); reflexivity.
Qed.

Lemma markCastAsProcessed_other (v : JsVal) (w : World) :
  (forall h, v <> VStr h) ->
  markCastAsProcessed v w = (Throw (TypeError "Invalid argument type"), w).
Proof.
  intros Hv. unfold markCastAsProcessed, redis_ops.sAdd, bind, lift.
  destruct v; try reflexivity. now destruct (Hv s).
Qed.

(** The reply either goes out or not; a failure of the step is always an
    instance of [Error]; the world changes by the journal only. *)
Lemma publishCast_cases (signer_uuid text parent embeds : JsVal) (w : World) :
  match neynarClient.publishCast env signer_uuid text parent embeds w with
  | (Ok _, w') => w' = record_event (Replied (Value.toString parent)) w
  | (Throw e, w') =>
      instanceofError e = true
      /\ (w' = w \/ w' = record_event (Replied (Value.toString parent)) w)
  end.
Proof.
  unfold neynarClient.publishCast, bind, lift, plain_fetch.
  destruct (settled (fetch env _ _ 0)) as [r|m]; [|now split; [|left]].
  destruct (negb (resp_ok r)).
  - destruct (resp_json r) as [v|e] eqn:Hj.
    + unfold Value.member. destruct (Value.nullish v); now split; [|left].
    + unfold resp_json, JSON.parse in Hj.
      destruct (JSON.parse_go _ _ _) as [[? ?]|]; [destruct (JSON.skip_ws _)|];
        try discriminate; injection Hj as <-; now split; [|left].
  - unfold emit, modify. destruct (resp_json r) as [v|e] eqn:Hj; [reflexivity|].
    unfold resp_json, JSON.parse in Hj.
    destruct (JSON.parse_go _ _ _) as [[? ?]|]; [destruct (JSON.skip_ws _)|];
      try discriminate; injection Hj as <-; now split; [|right].
Qed.

End AfterRecord.

Section PipelineOutcome.

Variable env : Env.

Lemma mintPipeline_end (data : JsVal) (w0 : World) :
  PipelineEnd env data w0 (fst (mintPipeline env data w0)) (snd (mintPipeline env data w0)).
Proof.
  pose proof (mintAndRecord_spec env data w0 w0 (Quiet_refl w0)) as Hrec.
  unfold mintPipeline, bind.
  destruct (mintAndRecord env data w0) as [[minted|e] wr] eqn:Hm; cbn [fst snd].
  2: { now apply EndBeforeRecord. }
  destruct (Value.get data "parentHash") as [| | | |h| |] eqn:Ht;
    try (rewrite markCastAsProcessed_other by (intros; discriminate); cbn [fst snd];
         eapply EndAtMark; [exact Hm | now rewrite Ht | rewrite Ht; intros; discriminate]).
  rewrite markCastAsProcessed_string. fold (marked h wr).
  pose proof (publishCast_cases env
                (match NEYNAR_SIGNER_UUID env with Some u => VStr u | None => VUndef end)
                (VStr ("This cast has been minted by @"
                       +:+ Value.toString (Value.get (minted_author minted) "username")
                       +:+ Js.of_bytes [10; 10] +:+ "Collect here: "
                       +:+ minted_zoraUrl minted))
                (Value.get data "parentHash")
                (VArr [Obj.literal [("url", VStr (minted_zoraUrl minted))]])
                (marked h wr)) as Hn.
  assert (Hnotify : notify env data minted (marked h wr)
                    = neynarClient.publishCast env
                        (match NEYNAR_SIGNER_UUID env with Some u => VStr u | None => VUndef end)
                        (VStr ("This cast has been minted by @"
                               +:+ Value.toString (Value.get (minted_author minted) "username")
                               +:+ Js.of_bytes [10; 10] +:+ "Collect here: "
                               +:+ minted_zoraUrl minted))
                        (Value.get data "parentHash")
                        (VArr [Obj.literal [("url", VStr (minted_zoraUrl minted))]])
                        (marked h wr)) by reflexivity.
  rewrite <- Hnotify in Hn. rewrite Ht in Hn. cbn [Value.toString] in Hn.
  destruct (notify env data minted (marked h wr)) as [[v|e] w1] eqn:Hnot; cbn [fst snd].
  - subst w1. eapply EndComplete; eauto.
  - destruct Hn as [He Hw]. eapply EndAtNotify; eauto.
Qed.

End PipelineOutcome.

Section WorkerLoop.

Variable env : Env.

(** What the [catch] block does with a thrown value. *)
Lemma onPipelineError_spec (data : JsVal) (e : Thrown) (w : World) :
  exists w2,
    onPipelineError env data e w = (Ok tt, w2)
    /\ status (queueHealth w2) = "error"
    /\ errors (queueHealth w2) = errors (queueHealth w) ++ [error_text e]
    /\ sets (redis w2) = sets (redis w)
    /\ minted_casts w2 = minted_casts w
    /\ pending w2 = pending w
    /\ lastProcessedTime w2 = lastProcessedTime w
    /\ lastProcessed (queueHealth w2) = lastProcessed (queueHealth w)
    /\ match e with
       | ErrorInstance _ message =>
           failed w2 = failed_entry env data message :: failed w
           /\ failedMintsCount (queueHealth w2) = failedMintsCount (queueHealth w) + 1
           /\ journal w2 = FailedPushed (failed_entry env data message) :: journal w
       | ThrownValue _ =>
           failed w2 = failed w
           /\ failedMintsCount (queueHealth w2) = failedMintsCount (queueHealth w)
           /\ journal w2 = journal w
       end.
Proof.
  unfold onPipelineError. destruct e as [name message|v].
  - eexists. split; [reflexivity|]. cbn.
    repeat split; try reflexivity.
    + unfold pending. cbn. now rewrite list_at_store_list_ne by discriminate.
    + unfold failed. cbn. now rewrite list_at_store_list.
  - eexists. split; [reflexivity|]. cbn. repeat split; reflexivity.
Qed.

(** A run that takes an item off the queue is the [try] block on that
    item, then the [catch] block if it threw, then the [finally] block;
    the promise of [processQueueItem] is fulfilled either way. *)
Lemma processQueueItem_item (w : World) (data : JsVal) (w0 : World) :
  isShuttingDown w = false -> isProcessing w = false ->
  dequeueCast w = (Ok data, w0) -> Value.truthy data = true ->
  processQueueItem env w
  = match mintPipeline env data w0 with
    | (Ok _, w1) => (Ok tt, finished w1)
    | (Throw e, w1) => (Ok tt, finished (snd (onPipelineError env data e w1)))
    end.
Proof.
  intros Hs Hp Hd Ht. unfold processQueueItem, bind, gets.
  rewrite Hs, Hp, Hd, Ht. cbn [negb]. unfold try_catch_finally.
  destruct (mintPipeline env data w0) as [[[]|e] w1]; [reflexivity|].
  destruct (onPipelineError_spec data e w1) as (w2 & -> & _). reflexivity.
Qed.

End WorkerLoop.

Section WorkerRuns.

Variable env : Env.

(** A dequeue that yields an item popped the tail entry of the pending
    list and changed nothing else. *)
Lemma dequeueCast_item (w w0 : World) (data : JsVal) :
  dequeueCast w = (Ok data, w0) -> Value.truthy data = true ->
  exists x,
    last (pending w) = Some x
    /\ decode x = Ok data
    /\ w0 = record_event (Dequeued x)
              (set_redis (RedisCmd.store_list MINT_QUEUE (removelast (pending w)) (redis w)) w).
Proof.
  intros Hd Ht. pose proof (dequeueCast_run w) as H.
  destruct (last (pending w)) as [x|].
  - rewrite H in Hd. injection Hd as Hx <-. now exists x.
  - rewrite H in Hd. injection Hd as <- <-. discriminate Ht.
Qed.

(** Whatever its end, the [try] block leaves the two lists, the error
    list and the counters of the health object as they were. *)
Lemma pipeline_frame (data : JsVal) (w0 w1 : World) (r : Result unit) :
  PipelineEnd env data w0 r w1 ->
  lists (redis w1) = lists (redis w0)
  /\ errors (queueHealth w1) = errors (queueHealth w0)
  /\ failedMintsCount (queueHealth w1) = failedMintsCount (queueHealth w0).
Proof.
  intros H. destruct H as [e w1 _ Q | minted wr _ R _ | minted wr h e w1 _ R _ _ _ Hw
                          | minted wr h v _ R _ _].
  - destruct Q. now rewrite quiet_redis0.
  - destruct R. now rewrite recorded_redis0.
  - destruct R.
    assert (F : lists (redis (marked h wr)) = lists (redis w0)).
    { unfold marked. cbn. rewrite (proj1 (processed_SADD h (redis wr))).
      now rewrite recorded_redis0. }
    destruct Hw as [-> | ->]; cbn; repeat split; auto;
      unfold marked in F; cbn in F; exact F.
  - destruct R. cbn. rewrite (proj1 (processed_SADD h (redis wr))).
    now rewrite recorded_redis0.
Qed.

Lemma pending_of_lists (w w' : World) :
  lists (redis w') = lists (redis w) -> pending w' = pending w /\ failed w' = failed w.
Proof. intros H. unfold pending, failed, RedisCmd.list_at. now rewrite H. Qed.

End WorkerRuns.

(** A run whose [try] block throws is the [catch] block from the world
    the [try] block left, then the [finally] block; up to the [catch]
    block the item is off the pending list, and the failed list, the
    health errors and the failure counter are as before the run. *)
Lemma processQueueItem_throwing
    (env : Env) (w w0 w1 : World) (data : JsVal) (e : Thrown) :
  isShuttingDown w = false ->
  isProcessing w = false ->
  dequeueCast w = (Ok data, w0) ->
  Value.truthy data = true ->
  mintPipeline env data w0 = (Throw e, w1) ->
  processQueueItem env w = (Ok tt, finished (snd (onPipelineError env data e w1)))
  /\ pending w1 = removelast (pending w)
  /\ failed w1 = failed w
  /\ errors (queueHealth w1) = errors (queueHealth w)
  /\ failedMintsCount (queueHealth w1) = failedMintsCount (queueHealth w)
  /\ lastProcessedTime w0 = lastProcessedTime w.
Proof.
  intros Hs Hp Hd Ht Hm.
  rewrite (processQueueItem_item env w data w0 Hs Hp Hd Ht), Hm.
  split; [reflexivity|].
  pose proof (mintPipeline_end env data w0) as Hend. rewrite Hm in Hend.
  cbn [fst snd] in Hend. apply pipeline_frame in Hend. destruct Hend as (Hl & He & Hf).
  apply pending_of_lists in Hl. destruct Hl as [Hl1 Hl2].
  destruct (dequeueCast_item w w0 data Hd Ht) as (x & Hx & _ & Hw0).
  assert (P0 : pending w0 = removelast (pending w)).
  { rewrite Hw0. unfold pending at 1. cbn. apply list_at_store_list. }
  assert (F0 : failed w0 = failed w).
  { rewrite Hw0. unfold failed at 1. cbn. now apply list_at_store_list_ne. }
  assert (H0 : queueHealth w0 = queueHealth w) by now rewrite Hw0.
  repeat split; try congruence. now rewrite Hw0.
Qed.




Section NotifyFailure.

Variable env : Env.

Lemma mintPipeline_notify_throws (data : JsVal) (w0 wr w1 : World) (minted : Minted)
    (h : string) (e : Thrown) :
  mintAndRecord env data w0 = (Ok minted, wr) ->
  Value.get data "parentHash" = VStr h ->
  notify env data minted (marked h wr) = (Throw e, w1) ->
  mintPipeline env data w0 = (Throw e, w1).
Proof.
  intros Hm Ht Hn. unfold mintPipeline, bind.
  rewrite Hm, Ht, markCastAsProcessed_string. fold (marked h wr). now rewrite Hn.
Qed.

Lemma processed_marked (h : string) (w : World) : h ∈ processed (marked h w).
Proof.
  unfold processed, marked. cbn.
  rewrite (proj2 (processed_SADD h (redis w))).
  apply elem_of_union_l, elem_of_singleton. reflexivity.
Qed.

End NotifyFailure.

(** C2, as the code has it.  A failure of the confirmation reply after
    the mint, the history record and the dedup mark fails the run like any
    other error of the pipeline: the thrown value, always an instance of
    [Error], is caught, the health status is [error], its message is
    appended to the health errors, and the item is pushed on the failed
    list and counted.  The history record and the dedup mark stay, and
    the time of the last processed item is not updated. *)
Theorem notification_failure_fails_the_run
    (env : Env) (w w0 wr w1 : World) (data : JsVal) (minted : Minted)
    (h : string) (e : Thrown) :
  isShuttingDown w = false ->
  isProcessing w = false ->
  dequeueCast w = (Ok data, w0) ->
  Value.truthy data = true ->
  mintAndRecord env data w0 = (Ok minted, wr) ->
  Value.get data "parentHash" = VStr h ->
  notify env data minted (marked h wr) = (Throw e, w1) ->
  exists w' name message,
    processQueueItem env w = (Ok tt, w')
    /\ e = ErrorInstance name message
    /\ status (queueHealth w') = "error"
    /\ errors (queueHealth w') = errors (queueHealth w) ++ [message]
    /\ failed w' = failed_entry env data message :: failed w
    /\ failedMintsCount (queueHealth w') = failedMintsCount (queueHealth w) + 1
    /\ h ∈ processed w'
    /\ is_Some (minted_casts w' !! h)
    /\ lastProcessedTime w' = lastProcessedTime w.
Proof.
  intros Hs Hp Hd Ht Hrec Htarget Hn.
  pose proof (mintPipeline_notify_throws env data w0 wr w1 minted h e Hrec Htarget Hn) as Hm.
  destruct (processQueueItem_throwing env w w0 w1 data e Hs Hp Hd Ht Hm)
    as (Hrun & _ & Hfail & Herr & Hcount & Htime0).
  pose proof (mintPipeline_end env data w0) as Hend. rewrite Hm in Hend.
  cbn [fst snd] in Hend.
  assert (Hfacts : instanceofError e = true
                   /\ h ∈ processed w1
                   /\ is_Some (minted_casts w1 !! h)
                   /\ lastProcessedTime w1 = lastProcessedTime w0).
  { inversion Hend as [e' w1' Hm' _ | minted' wr' Hm' _ Hno | minted' wr' h' e' w1' Hm' R Ht' _ He Hw
                      | ]; subst.
    - rewrite Hrec in Hm'. discriminate Hm'.
    - now destruct (Hno h).
    - rewrite Hrec in Hm'. injection Hm' as <- <-.
      rewrite Htarget in Ht'. injection Ht' as <-.
      destruct R as [_ _ [row Hrow] _ _ Htime _ _ _ _].
      split; [exact He|].
      destruct Hw as [-> | ->]; (split; [apply processed_marked|]);
        (split; [cbn; rewrite Hrow, lookup_insert_eq; eauto | exact Htime]). }
  destruct Hfacts as (He & Hin & Htab & Htime).
  destruct e as [name message|v]; [|discriminate He].
  destruct (onPipelineError_spec env data (ErrorInstance name message) w1)
    as (w2 & Hcatch & Hst & Herr2 & Hsets & Htab2 & _ & Htime2 & _ & Hfail2 & Hcount2 & _).
  rewrite Hcatch in Hrun. cbn [snd] in Hrun.
  exists (finished w2), name, message.
  split; [exact Hrun|]. split; [reflexivity|].
  change (queueHealth (finished w2)) with (queueHealth w2).
  change (failed (finished w2)) with (failed w2).
  change (processed (finished w2)) with (processed w2).
  change (minted_casts (finished w2)) with (minted_casts w2).
  change (lastProcessedTime (finished w2)) with (lastProcessedTime w2).
  split; [exact Hst|]. split; [now rewrite Herr2, Herr|].
  split; [now rewrite Hfail2, Hfail|]. split; [now rewrite Hcount2, Hcount|].
  split; [unfold processed, RedisCmd.set_at in *; now rewrite Hsets|].
  split; [now rewrite Htab2|]. now rewrite Htime2, Htime.
Qed.

Lemma notification_failure_fails_the_run_witness :
  isShuttingDown world_one_request = false
  /\ isProcessing world_one_request = false
  /\ Value.truthy (mint_request "0xreply1" "0xabc") = true
  /\ Value.get (mint_request "0xreply1" "0xabc") "parentHash" = VStr "0xabc"
  /\ exists w',
       processQueueItem env_reply_refused world_one_request = (Ok tt, w')
       /\ status (queueHealth w') = "error"
       /\ errors (queueHealth w') = ["Neynar API error: Rate limit exceeded"]
       /\ failed w'
          = [failed_entry env_reply_refused (mint_request "0xreply1" "0xabc")
               "Neynar API error: Rate limit exceeded"]
       /\ "0xabc" ∈ processed w'
       /\ is_Some (minted_casts w' !! "0xabc").
Proof.
  pose (data := mint_request "0xreply1" "0xabc").
  pose (w0 := snd (dequeueCast world_one_request)).
  pose (run := mintAndRecord env_reply_refused data w0).
  assert (Hd : dequeueCast world_one_request = (Ok data, w0))
    by (vm_compute; reflexivity).
  assert (Hrec : exists minted, run = (Ok minted, snd run))
    by (eexists; vm_compute; reflexivity).
  destruct Hrec as [minted Hrec].
  assert (Hn : notify env_reply_refused data minted (marked "0xabc" (snd run))
               = (Throw (Error "Neynar API error: Rate limit exceeded"),
                  marked "0xabc" (snd run))).
  { assert (Hmin : minted = match fst run with
                            | Ok m => m
                            | Throw _ => minted
                            end) by (rewrite Hrec; reflexivity).
    rewrite Hmin. vm_compute. reflexivity. }
  split; [reflexivity|]. split; [reflexivity|]. split; [reflexivity|].
  split; [reflexivity|].
  destruct (notification_failure_fails_the_run env_reply_refused world_one_request
              w0 (snd run) _ data minted "0xabc" _ eq_refl eq_refl Hd eq_refl Hrec eq_refl Hn)
    as (w' & name & message & Hrun & He & Hst & Herr & Hfail & _ & Hin & Htab & _).
  injection He as <- <-.
  exists w'. repeat split; assumption.
Defined.

(** C2, as stated, fails: when the Neynar service refuses the
    confirmation reply of a request that was minted, recorded and marked,
    the item is put on the failed list and the run ends with the status
    [error]. *)
Lemma reply_failure_is_not_best_effort_counterexample :
  ~ (forall (env : Env) (w w0 wr w1 : World) (data : JsVal) (minted : Minted)
            (h : string) (e : Thrown),
       isShuttingDown w = false ->
       isProcessing w = false ->
       dequeueCast w = (Ok data, w0) ->
       Value.truthy data = true ->
       mintAndRecord env data w0 = (Ok minted, wr) ->
       Value.get data "parentHash" = VStr h ->
       notify env data minted (marked h wr) = (Throw e, w1) ->
       failed (snd (processQueueItem env w)) = failed w
       /\ status (queueHealth (snd (processQueueItem env w))) = "success").
Proof.
  intros claim.
  pose (data := mint_request "0xreply1" "0xabc").
  pose (w0 := snd (dequeueCast world_one_request)).
  pose (run := mintAndRecord env_reply_refused data w0).
  assert (Hrec : exists minted, run = (Ok minted, snd run))
    by (eexists; vm_compute; reflexivity).
  destruct Hrec as [minted Hrec].
  assert (Hn : notify env_reply_refused data minted (marked "0xabc" (snd run))
               = (Throw (Error "Neynar API error: Rate limit exceeded"),
                  marked "0xabc" (snd run))).
  { assert (Hmin : minted = match fst run with
                            | Ok m => m
                            | Throw _ => minted
                            end) by (rewrite Hrec; reflexivity).
    rewrite Hmin. vm_compute. reflexivity. }
  assert (Hd : dequeueCast world_one_request = (Ok data, w0))
    by (vm_compute; reflexivity).
  destruct (claim env_reply_refused world_one_request w0 (snd run)
              (marked "0xabc" (snd run)) data minted "0xabc"
              (Error "Neynar API error: Rate limit exceeded")
              eq_refl eq_refl Hd eq_refl Hrec eq_refl Hn) as [Hfailed _].
  vm_compute in Hfailed. discriminate Hfailed.
Qed.

Section DedupOrder.

Variable env : Env.

Lemma io_neutral (evs : list Event) : Forall io_event evs -> Forall neutral evs.
Proof.
  intros H. eapply Forall_impl; [exact H|]. intros [] He; simpl in *; tauto.
Qed.

Lemma neutral_not_marked (l : list Event) (h : string) :
  Forall neutral l -> ~ In (Marked h) l.
Proof.
  intros H Hin. rewrite Forall_forall in H. apply list_elem_of_In in Hin.
  exact (H _ Hin).
Qed.

Lemma neutral_not_persisted (l : list Event) (h : string) :
  Forall neutral l -> ~ In (Persisted h) l.
Proof.
  intros H Hin. rewrite Forall_forall in H. apply list_elem_of_In in Hin.
  exact (H _ Hin).
Qed.

(** A run that takes no item off the queue. *)
Lemma processQueueItem_idle (w : World) :
  isShuttingDown w = true \/ isProcessing w = true
  \/ (forall data w0, dequeueCast w = (Ok data, w0) -> Value.truthy data = false) ->
  exists new,
    journal (snd (processQueueItem env w)) = new ++ journal w
    /\ Forall neutral new
    /\ sets (redis (snd (processQueueItem env w))) = sets (redis w).
Proof.
  intros H. unfold processQueueItem, bind, gets.
  destruct (isShuttingDown w) eqn:Hs; [exists []; repeat split; constructor|].
  destruct (isProcessing w) eqn:Hp.
  { exists [Scheduled RETRY_DELAY]. repeat split. repeat constructor. }
  destruct H as [H|[H|H]]; try discriminate.
  pose proof (dequeueCast_run w) as Hrun.
  destruct (last (pending w)) as [x|].
  - rewrite Hrun. destruct (decode x) as [data|e] eqn:Hx.
    + rewrite (H data _ Hrun). cbn.
      exists [Scheduled RETRY_DELAY; Dequeued x]. repeat split. repeat constructor.
    + cbn. exists [Dequeued x]. repeat split. repeat constructor.
  - rewrite Hrun. cbn. exists [Scheduled RETRY_DELAY]. repeat split.
    repeat constructor.
Qed.

Lemma finished_after_catch (data : JsVal) (e : Thrown) (w1 : World) :
  exists later,
    journal (finished (snd (onPipelineError env data e w1))) = later ++ journal w1
    /\ Forall neutral later
    /\ sets (redis (finished (snd (onPipelineError env data e w1)))) = sets (redis w1)
    /\ minted_casts (finished (snd (onPipelineError env data e w1))) = minted_casts w1.
Proof.
  destruct (onPipelineError_spec env data e w1)
    as (w2 & -> & _ & _ & Hsets & Htab & _ & _ & _ & Hcase). cbn [snd].
  destruct e as [name message|v]; destruct Hcase as (_ & _ & Hj).
  - exists [Scheduled RETRY_DELAY; FailedPushed (failed_entry env data message)].
    unfold finished. cbn. rewrite Hj. repeat split; try assumption.
    repeat constructor.
  - exists [Scheduled RETRY_DELAY]. unfold finished. cbn. rewrite Hj.
    repeat split; try assumption. repeat constructor.
Qed.

(** A run that takes an item off the queue. *)
Lemma processQueueItem_shape (w w0 : World) (data : JsVal) :
  isShuttingDown w = false -> isProcessing w = false ->
  dequeueCast w = (Ok data, w0) -> Value.truthy data = true ->
  exists new,
    journal (snd (processQueueItem env w)) = new ++ journal w
    /\ RunShape w (snd (processQueueItem env w)) new
    /\ (forall e w1, mintAndRecord env data w0 = (Throw e, w1) -> Forall neutral new
          /\ sets (redis (snd (processQueueItem env w))) = sets (redis w)).
Proof.
  intros Hs Hp Hd Ht.
  rewrite (processQueueItem_item env w data w0 Hs Hp Hd Ht).
  destruct (dequeueCast_item w w0 data Hd Ht) as (x & _ & _ & Hw0).
  assert (J0 : journal w0 = Dequeued x :: journal w) by now rewrite Hw0.
  assert (S0 : sets (redis w0) = sets (redis w)) by now rewrite Hw0.
  assert (T0 : minted_casts w0 = minted_casts w) by now rewrite Hw0.
  pose proof (mintPipeline_end env data w0) as Hend.
  destruct (mintPipeline env data w0) as [r w1]. cbn [fst snd] in Hend.
  destruct Hend as [e w1 Hm Q | minted wr Hm R Hno | minted wr h e w1 Hm R Htarget Hn He Hw
                   | minted wr h v Hm R Htarget Hn].
  - (* the record was not written *)
    destruct (finished_after_catch data e w1) as (later & Hj & Hlater & Hsets & _).
    cbn [snd]. destruct Q as [Hr _ _ _ _ _ _ _ (evs & Hq & Hio)].
    exists (later ++ evs ++ [Dequeued x]).
    assert (Hneutral : Forall neutral (later ++ evs ++ [Dequeued x])).
    { apply Forall_app. split; [exact Hlater|]. apply Forall_app.
      split; [now apply io_neutral | repeat constructor]. }
    assert (Hsame : sets (redis (finished (snd (onPipelineError env data e w1))))
                    = sets (redis w)) by now rewrite Hsets, Hr.
    split; [rewrite Hj, Hq, J0, <- !app_assoc; reflexivity|].
    split; [now apply ShapeNoWrite|]. intros _ _ _. now split.
  - (* the record was written, the mark threw *)
    destruct (finished_after_catch data (TypeError "Invalid argument type") wr)
      as (later & Hj & Hlater & _ & _).
    cbn [snd]. destruct R as [_ _ _ _ _ _ _ _ _ (evs & Hq & Hio)].
    exists (later ++ Persisted (Supabase.as_text (Value.get data "parentHash"))
                  :: evs ++ [Dequeued x]).
    split; [rewrite Hj, Hq, J0, <- !app_assoc; cbn; now rewrite <- app_assoc|].
    split.
    + apply ShapeWritten; [exact Hlater|]. apply Forall_app.
      split; [now apply io_neutral | repeat constructor].
    + intros e' w1' Hm'. rewrite Hm in Hm'. discriminate Hm'.
  - (* the reply threw *)
    destruct (finished_after_catch data e w1) as (later & Hj & Hlater & Hsets & Htab).
    cbn [snd]. destruct R as [_ _ [row Hrow] _ _ _ _ _ _ (evs & Hq & Hio)].
    assert (Hw1 : exists between,
               journal w1 = between ++ Marked h :: journal wr
               /\ Forall neutral between
               /\ sets (redis w1) = sets (redis (marked h wr))
               /\ minted_casts w1 = minted_casts wr).
    { destruct Hw as [-> | ->];
        [exists [] | exists [Replied h]]; repeat split; repeat constructor. }
    destruct Hw1 as (between & Hb & Hbetween & Hs1 & Ht1).
    exists ((later ++ between) ++ Marked h :: Persisted h :: evs ++ [Dequeued x]).
    split; [rewrite Hj, Hb, Hq, J0, <- !app_assoc; cbn; now rewrite <- app_assoc|].
    split.
    + apply ShapeMarked.
      * apply Forall_app. now split.
      * apply Forall_app. split; [now apply io_neutral | repeat constructor].
      * rewrite Htab, Ht1, Hrow, lookup_insert_eq. eauto.
      * unfold processed, RedisCmd.set_at. rewrite Hsets, Hs1.
        apply processed_marked.
    + intros e' w1' Hm'. rewrite Hm in Hm'. discriminate Hm'.
  - (* the run completed *)
    cbn [snd]. destruct R as [_ _ [row Hrow] _ _ _ _ _ _ (evs & Hq & Hio)].
    exists ([Scheduled RETRY_DELAY; Replied h]
              ++ Marked h :: Persisted h :: evs ++ [Dequeued x]).
    split; [unfold finished, completed; cbn; rewrite Hq, J0, <- app_assoc; reflexivity|].
    split.
    + apply ShapeMarked.
      * repeat constructor.
      * apply Forall_app. split; [now apply io_neutral | repeat constructor].
      * unfold finished, completed. cbn. rewrite Hrow, lookup_insert_eq. eauto.
      * apply (processed_marked h wr).
    + intros e' w1' Hm'. rewrite Hm in Hm'. discriminate Hm'.
Qed.

End DedupOrder.

Section DedupTheorem.

Variable env : Env.

(** Every run has one of the three shapes. *)
Lemma processQueueItem_run_shape (w : World) :
  exists new,
    journal (snd (processQueueItem env w)) = new ++ journal w
    /\ RunShape w (snd (processQueueItem env w)) new
    /\ (forall data w0 e w1,
          isShuttingDown w = false -> isProcessing w = false ->
          dequeueCast w = (Ok data, w0) -> Value.truthy data = true ->
          mintAndRecord env data w0 = (Throw e, w1) ->
          Forall neutral new
          /\ sets (redis (snd (processQueueItem env w))) = sets (redis w)).
Proof.
  destruct (isShuttingDown w) eqn:Hs.
  { destruct (processQueueItem_idle env w (or_introl Hs)) as (new & Hj & Hn & Hsets).
    exists new. split; [exact Hj|]. split; [now apply ShapeNoWrite|].
    intros; discriminate. }
  destruct (isProcessing w) eqn:Hp.
  { destruct (processQueueItem_idle env w (or_intror (or_introl Hp)))
      as (new & Hj & Hn & Hsets).
    exists new. split; [exact Hj|]. split; [now apply ShapeNoWrite|].
    intros; discriminate. }
  destruct (dequeueCast w) as [[data|e] w0] eqn:Hd.
  - destruct (Value.truthy data) eqn:Ht.
    + destruct (processQueueItem_shape env w w0 data Hs Hp Hd Ht) as (new & Hj & Hshape & H3).
      exists new. split; [exact Hj|]. split; [exact Hshape|].
      intros data' w0' e w1 _ _ [= <- <-] _ Hm. exact (H3 e w1 Hm).
    + destruct (processQueueItem_idle env w) as (new & Hj & Hn & Hsets).
      { right. right. intros data' w0' Hd'. rewrite Hd in Hd'. now injection Hd' as <- <-. }
      exists new. split; [exact Hj|]. split; [now apply ShapeNoWrite|].
      intros data' w0' e w1 _ _ [= <- <-] Ht'.
      rewrite Ht in Ht'. discriminate Ht'.
  - destruct (processQueueItem_idle env w) as (new & Hj & Hn & Hsets).
    { right. right. intros data' w0' Hd'. rewrite Hd in Hd'. discriminate Hd'. }
    exists new. split; [exact Hj|]. split; [now apply ShapeNoWrite|].
    intros data' w0' e' w1 _ _ Hd'. discriminate Hd'.
Qed.

End DedupTheorem.

(** C1. In every run of [processQueueItem], the dedup mark of a target
    comes only after the history record of that target was written in the
    same run: in the journal of the run (newest first) each mark is
    preceded by the write for the same hash, the row is in the history
    table and the hash in the dedup set.  A run in which no history write
    succeeded leaves the dedup set as it was; in particular a run whose
    pipeline fails at any step up to and including the history write
    ([mintAndRecord] throws) marks nothing, writes nothing, and leaves
    every Redis set unchanged. *)
Theorem dedup_marked_only_after_history_write (env : Env) (w : World) :
  let w' := snd (processQueueItem env w) in
  exists new,
    journal w' = new ++ journal w
    /\ (forall h, In (Marked h) new ->
          exists later earlier,
            new = later ++ Marked h :: earlier
            /\ In (Persisted h) earlier
            /\ is_Some (minted_casts w' !! h)
            /\ h ∈ processed w')
    /\ ((forall h, ~ In (Persisted h) new) ->
          sets (redis w') = sets (redis w) /\ forall h, ~ In (Marked h) new)
    /\ (forall data w0 e w1,
          isShuttingDown w = false -> isProcessing w = false ->
          dequeueCast w = (Ok data, w0) -> Value.truthy data = true ->
          mintAndRecord env data w0 = (Throw e, w1) ->
          sets (redis w') = sets (redis w)
          /\ (forall h, ~ In (Marked h) new)
          /\ (forall h, ~ In (Persisted h) new)).
Proof.
  intros w'. subst w'.
  destruct (processQueueItem_run_shape env w) as (new & Hj & Hshape & H3).
  exists new. split; [exact Hj|]. split; [|split].
  - intros h Hin.
    destruct Hshape as [new Hn _ | key later earlier Hl He | h0 later earlier Hl He Htab Hproc].
    + now destruct (neutral_not_marked new h Hn).
    + apply in_app_or in Hin. destruct Hin as [Hin|[Hin|Hin]];
        [now destruct (neutral_not_marked later h Hl) | discriminate Hin
        | now destruct (neutral_not_marked earlier h He)].
    + apply in_app_or in Hin. destruct Hin as [Hin|[Hin|[Hin|Hin]]];
        [now destruct (neutral_not_marked later h Hl) | | discriminate Hin
        | now destruct (neutral_not_marked earlier h He)].
      injection Hin as <-. exists later, (Persisted h0 :: earlier).
      repeat split; try assumption. now left.
  - intros Hno.
    destruct Hshape as [new Hn Hsets | key later earlier Hl He | h0 later earlier Hl He _ _].
    + split; [exact Hsets|]. intros h. now apply neutral_not_marked.
    + destruct (Hno key). apply in_or_app. right. now left.
    + destruct (Hno h0). apply in_or_app. right. right. now left.
  - intros data w0 e w1 Hs Hp Hd Ht Hm.
    destruct (H3 data w0 e w1 Hs Hp Hd Ht Hm) as [Hn Hsets].
    split; [exact Hsets|]. split; intros h;
      [now apply neutral_not_marked | now apply neutral_not_persisted].
Qed.

Example scenario_processed_request :
  let w' := snd (processQueueItem env_up world_one_request) in
  firstn 4 (journal w')
  = [Scheduled RETRY_DELAY; Replied "0xabc"; Marked "0xabc"; Persisted "0xabc"]
  /\ elements (processed w') = ["0xabc"]
  /\ is_Some (minted_casts w' !! "0xabc")
  /\ status (queueHealth w') = "success"
  /\ failed w' = [].
Proof. vm_compute. repeat split. eauto. Qed.

Example scenario_failed_before_record :
  let w' := snd (processQueueItem env_image_down world_one_request) in
  elements (processed w') = []
  /\ minted_casts w' = ∅
  /\ status (queueHealth w') = "error"
  /\ length (failed w') = 1%nat.
Proof. vm_compute. repeat split. Qed.

(* ===================================================================== *)
(** * Properties: the health snapshot *)
(* ===================================================================== *)

Section Health.

(** Without a failure of the stores, the queue size of the snapshot is 1
    when [peekQueue] finds a truthy head entry and 0 otherwise. *)
Lemma getHealthStatus_size (w w' : World) (h : HealthStatus) :
  getHealthStatus w = (Ok h, w') ->
  health_error h = None ->
  currentQueueSize (health h) = 0 \/ currentQueueSize (health h) = 1.
Proof.
  unfold getHealthStatus, try_catch, bind, gets, ret.
  destruct (peekQueue w) as [[next|e] w1]; [|intros [= <- _]; discriminate].
  destruct (getFailedMints w1) as [[fm|e] w2]; [|intros [= <- _]; discriminate].
  cbn. intros [= <- _] _. cbn. destruct (Value.truthy next); auto.
Qed.

Lemma LRANGE_empty (key : string) (start stop : Z) (r : Redis) :
  RedisCmd.list_at key r = [] -> RedisCmd.LRANGE key start stop r = [].
Proof.
  intros H. unfold RedisCmd.LRANGE. rewrite H.
  match goal with |- (if ?c then _ else _) = _ => destruct c end; [reflexivity|].
  now rewrite drop_nil, take_nil.
Qed.

(** On an empty queue the snapshot reports 0. *)
Lemma getHealthStatus_empty (w : World) :
  pending w = [] -> failed w = [] ->
  exists h w', getHealthStatus w = (Ok h, w')
               /\ health_error h = None /\ currentQueueSize (health h) = 0.
Proof.
  intros Hp Hf. unfold getHealthStatus, try_catch, bind, gets, ret.
  unfold peekQueue, getFailedMints, redis_ops.lRange, bind, gets.
  rewrite (LRANGE_empty MINT_QUEUE 0 0 (redis w) Hp).
  cbn [ret update_health modify]. 
  rewrite (LRANGE_empty FAILED_MINT_QUEUE 0 (-1) (redis w) Hf).
  cbn. eexists. eexists. repeat split.
Qed.

End Health.

(** C9, at an input where the code departs from it: with two requests on
    the pending list, [getHealthStatus] succeeds and reports
    [currentQueueSize] 1, not 2.  The field is set from whether the head
    entry exists ([nextItem ? 1 : 0]), not from the length of the list. *)
Theorem health_reports_one_for_two_pending :
  length (pending world_two_requests) = 2%nat
  /\ exists h w',
       getHealthStatus world_two_requests = (Ok h, w')
       /\ health_error h = None
       /\ currentQueueSize (health h) = 1.
Proof.
  split; [vm_compute; reflexivity|].
  exists (match fst (getHealthStatus world_two_requests) with
          | Ok h => h
          | Throw _ => {| health := queueHealth world0; health_error := None |}
          end), (snd (getHealthStatus world_two_requests)).
  split; [vm_compute; reflexivity|]. split; vm_compute; reflexivity.
Qed.

Example health_of_empty_queue :
  exists h w', getHealthStatus world0 = (Ok h, w')
               /\ health_error h = None /\ currentQueueSize (health h) = 0.
Proof. apply getHealthStatus_empty; reflexivity. Qed.

(* ===================================================================== *)
(** * Properties: the webhook route *)
(* ===================================================================== *)

Section WebhookRoute.

(** The route never looks at the headers of the request. *)
Lemma webhook_ignores_headers (env : Env) (h1 h2 : list (string * string))
    (body : string) (w : World) :
  Webhook.POST env {| Webhook.headers := h1; Webhook.body := body |} w
  = Webhook.POST env {| Webhook.headers := h2; Webhook.body := body |} w.
Proof. reflexivity. Qed.

End WebhookRoute.

(** C3, at an input where the code departs from it.  The library check
    does what the claim says: it accepts the signature for the body that
    was signed and returns [false] for a tampered body with the same
    signature header.  The webhook route never calls it: the tampered
    request, and the same body without any signature header, are both
    answered with 200 and queued for minting. *)
Theorem tampered_webhook_is_enqueued :
  verifyWebhookSignature signed_body (Some signed_signature) (Some webhook_timestamp)
    webhook_secret = Ok true
  /\ verifyWebhookSignature tampered_body (Some signed_signature) (Some webhook_timestamp)
       webhook_secret = Ok false
  /\ verifyWebhookSignature tampered_body None (Some webhook_timestamp) webhook_secret
     = Ok false
  /\ resp_status (match fst (Webhook.POST env_up tampered_request world0) with
                  | Ok r => r
                  | Throw _ => {| resp_status := 0; resp_body := "" |}
                  end) = 200
  /\ pending (snd (Webhook.POST env_up tampered_request world0)) = [queued_for "0xdef"]
  /\ journal (snd (Webhook.POST env_up tampered_request world0))
     = [Enqueued (queued_for "0xdef")]
  /\ Webhook.POST env_up unsigned_request world0
     = Webhook.POST env_up tampered_request world0.
Proof.
  split; [vm_compute; reflexivity|]. split; [vm_compute; reflexivity|].
  split; [reflexivity|]. split; [vm_compute; reflexivity|].
  split; [vm_compute; reflexivity|]. split; [vm_compute; reflexivity|].
  vm_compute. reflexivity.
Qed.

Example webhook_answers :
  resp_body (match fst (Webhook.POST env_up tampered_request world0) with
             | Ok r => r
             | Throw _ => {| resp_status := 0; resp_body := "" |}
             end)
  = JSON.stringify_val
      (Obj.literal [("success", VBool true); ("message", VStr "Cast queued for minting")]).
Proof. vm_compute. reflexivity. Qed.

(* ===================================================================== *)
(** * Properties: the signature of a webhook *)
(* ===================================================================== *)

Section WebhookSignature.

Lemma timingSafeEqual_true (a b : string) :
  Crypto.timingSafeEqual a b = Ok true <-> a = b.
Proof.
  unfold Crypto.timingSafeEqual. split.
  - destruct (Nat.eqb _ _); [|discriminate].
    intros [= H]. now apply String.eqb_eq.
  - intros ->. rewrite Nat.eqb_refl. now rewrite String.eqb_refl.
Qed.

Lemma digest_not_empty (secret data : string) :
  Crypto.hmac_sha256_hex secret data <> "".
Proof.
  intros H. pose proof (hmac_sha256_hex_length secret data) as L.
  rewrite H in L. discriminate L.
Qed.

(** X1.  [verifyWebhookSignature] answers [true] for exactly one
    signature: the lower-case hexadecimal HMAC-SHA256 digest, under the
    secret, of the timestamp, a dot and the payload. *)
Theorem verifyWebhookSignature_accepts_exactly_the_digest
    (payload secret : string) (signature timestamp : option string) :
  verifyWebhookSignature payload signature timestamp secret = Ok true
  <-> exists s t,
        signature = Some s /\ timestamp = Some t /\ t <> ""
        /\ s = Crypto.hmac_sha256_hex secret (t +:+ "." +:+ payload).
Proof.
  unfold verifyWebhookSignature. split.
  - destruct signature as [s|], timestamp as [t|]; cbn [falsy_string orb];
      try (rewrite ?orb_true_r; discriminate).
    destruct (String.eqb_spec s ""); [discriminate|].
    destruct (String.eqb_spec t ""); [discriminate|]. cbn [orb].
    intros H. apply timingSafeEqual_true in H. now exists s, t.
  - intros (s & t & -> & -> & Ht & ->). cbn [falsy_string].
    destruct (String.eqb_spec (Crypto.hmac_sha256_hex secret (t +:+ "." +:+ payload)) "")
      as [E|_]; [now apply digest_not_empty in E|].
    destruct (String.eqb_spec t ""); [contradiction|]. cbn [orb].
    now apply timingSafeEqual_true.
Qed.

End WebhookSignature.

(* ===================================================================== *)
(** * Properties: the dedup set and both ends of the queue *)
(* ===================================================================== *)

Section DedupSet.

Lemma isCastProcessed_string (h : string) (w : World) :
  isCastProcessed (VStr h) w = (Ok (bool_decide (h ∈ processed w)), w).
Proof. reflexivity. Qed.

(** X2.  Marking a cast makes the membership test answer [true] for it
    and changes the answer for no other hash; neither list of the queue
    nor the history table is touched, and marking again leaves the set as
    it is. *)
Theorem marked_cast_is_processed (h : string) (w : World) :
  let w' := snd (markCastAsProcessed (VStr h) w) in
  isCastProcessed (VStr h) w' = (Ok true, w')
  /\ (forall h', h' <> h ->
        fst (isCastProcessed (VStr h') w') = fst (isCastProcessed (VStr h') w))
  /\ pending w' = pending w
  /\ failed w' = failed w
  /\ minted_casts w' = minted_casts w
  /\ redis (snd (markCastAsProcessed (VStr h) w')) = redis w'.
Proof.
  cbv zeta. rewrite markCastAsProcessed_string. cbn [snd].
  fold (marked h w).
  destruct (processed_SADD h (redis w)) as [Hl Hs].
  assert (Hp : processed (marked h w) = {[h]} ∪ processed w) by exact Hs.
  repeat split.
  - rewrite isCastProcessed_string. f_equal. f_equal.
    apply bool_decide_eq_true. rewrite Hp.
    apply elem_of_union_l, elem_of_singleton. reflexivity.
  - intros h' Hne. rewrite !isCastProcessed_string. cbn [fst]. f_equal.
    apply bool_decide_ext. rewrite Hp, elem_of_union, elem_of_singleton. tauto.
  - unfold pending, RedisCmd.list_at, marked. cbn. now rewrite Hl.
  - unfold failed, RedisCmd.list_at, marked. cbn. now rewrite Hl.
  - rewrite markCastAsProcessed_string. cbn.
    unfold RedisCmd.SADD at 1.
    rewrite bool_decide_eq_true_2; [reflexivity|].
    change (h ∈ processed (marked h w)). rewrite Hp.
    apply elem_of_union_l, elem_of_singleton. reflexivity.
Qed.

End DedupSet.

Section PeekAndPop.

Lemma LRANGE_head (key : string) (r : Redis) :
  RedisCmd.LRANGE key 0 0 r = match RedisCmd.list_at key r with
                              | [] => []
                              | x :: _ => [x]
                              end.
Proof.
  unfold RedisCmd.LRANGE. destruct (RedisCmd.list_at key r) as [|x l]; [reflexivity|].
  cbn [length]. 
  replace (Z.min 0 (Z.of_nat (S (length l)) - 1))%Z with 0%Z by lia.
  reflexivity.
Qed.

Lemma peekQueue_run (w : World) :
  peekQueue w = (match pending w with
                 | [] => Ok VNull
                 | x :: _ => JSON.parse x
                 end, w).
Proof.
  unfold peekQueue, bind, redis_ops.lRange, gets. rewrite LRANGE_head.
  fold (pending w). now destruct (pending w).
Qed.

(** X3.  [peekQueue] never changes the stores.  On an empty pending list
    both [peekQueue] and [dequeueCast] answer [null] and leave the world
    as it is.  On a list of two or more entries [peekQueue] reads the
    entry at the head, the one enqueued last, while [dequeueCast] takes
    the entry at the tail, the one enqueued first. *)
Theorem peekQueue_reads_the_newest_entry (w : World) :
  snd (peekQueue w) = w
  /\ (pending w = [] -> peekQueue w = (Ok VNull, w) /\ dequeueCast w = (Ok VNull, w))
  /\ (forall newest between oldest,
        pending w = newest :: between ++ [oldest] ->
        fst (peekQueue w) = JSON.parse newest
        /\ fst (dequeueCast w) = decode oldest
        /\ pending (snd (dequeueCast w)) = newest :: between).
Proof.
  rewrite peekQueue_run. split; [reflexivity|]. split.
  - intros E. pose proof (dequeueCast_run w) as H. rewrite E in *. cbn in H.
    now split.
  - intros newest between oldest E. pose proof (dequeueCast_run w) as H.
    rewrite E in *. cbn [fst]. split; [reflexivity|].
    change (newest :: between ++ [oldest]) with ((newest :: between) ++ [oldest]) in H.
    rewrite last_snoc in H. rewrite H. cbn [fst snd]. split; [reflexivity|].
    rewrite pending_store. apply removelast_last.
Qed.

End PeekAndPop.

Section MalformedEntry.

(** X4.  An entry of the pending list that is not a JSON text is taken
    off the list by [dequeueCast], which then throws the [SyntaxError] of
    [JSON.parse].  The call is made before the [try] block of
    [processQueueItem]: the run rejects with that error, the entry is on
    neither list afterwards, the health object is as it was, and no next
    poll is scheduled. *)
Theorem malformed_entry_stops_polling
    (env : Env) (w : World) (earlier : list string) (entry : string) (e : Thrown) :
  isShuttingDown w = false ->
  isProcessing w = false ->
  pending w = earlier ++ [entry] ->
  decode entry = Throw e ->
  exists w',
    processQueueItem env w = (Throw e, w')
    /\ pending w' = earlier
    /\ failed w' = failed w
    /\ queueHealth w' = queueHealth w
    /\ journal w' = Dequeued entry :: journal w.
Proof.
  intros Hs Hp E Hd. pose proof (dequeueCast_run w) as H.
  rewrite E, last_snoc, Hd in H.
  eexists. split.
  - unfold processQueueItem, bind, gets. rewrite Hs, Hp, H. reflexivity.
  - rewrite removelast_last. split; [apply pending_store|].
    split; [|split; reflexivity].
    unfold failed. cbn. now apply list_at_store_list_ne.
Qed.

Lemma malformed_entry_stops_polling_witness :
  isShuttingDown world_malformed_entry = false
  /\ isProcessing world_malformed_entry = false
  /\ pending world_malformed_entry = [] ++ ["{oops"]
  /\ decode "{oops" = Throw (SyntaxError "Unexpected token in JSON")
  /\ exists w',
       processQueueItem env_up world_malformed_entry
       = (Throw (SyntaxError "Unexpected token in JSON"), w')
       /\ pending w' = []
       /\ journal w' = [Dequeued "{oops"].
Proof.
  assert (E : pending world_malformed_entry = [] ++ ["{oops"]) by (vm_compute; reflexivity).
  assert (D : decode "{oops" = Throw (SyntaxError "Unexpected token in JSON"))
    by (vm_compute; reflexivity).
  split; [reflexivity|]. split; [reflexivity|]. split; [exact E|]. split; [exact D|].
  destruct (malformed_entry_stops_polling env_up world_malformed_entry [] "{oops" _
              eq_refl eq_refl E D) as (w' & Hrun & Hpend & _ & _ & Hj).
  exists w'. split; [exact Hrun|]. split; [exact Hpend|]. exact Hj.
Defined.

End MalformedEntry.

(* ===================================================================== *)
(** * Properties: the history table *)
(* ===================================================================== *)

Section HistoryTable.

Variable env : Env.

Lemma truthy_not_nullish (v : JsVal) : Value.truthy v = true -> Value.nullish v = false.
Proof. now destruct v. Qed.

Lemma no_rows_case (error : Thrown) (w : World) :
  (match thrown_code error with
   | VStr "PGRST116" => ret VNull
   | _ => throw error
   end) w
  = (if Value.is_string "PGRST116" (thrown_code error) then Ok VNull else Throw error, w).
Proof.
  destruct (thrown_code error) as [| | | |s| |]; try reflexivity.
  unfold Value.is_string.
  do 9 (destruct s as [|[[] [] [] [] [] [] [] []] s]; try reflexivity).
Qed.


Lemma getMintingDetails_run (h : string) (w : World) :
  getMintingDetails env (VStr h) w
  = (match select_failure env h with
     | Some e => if Value.is_string "PGRST116" (thrown_code e) then Ok VNull else Throw e
     | None => match minted_casts w !! h with
               | Some row => Ok (Supabase.row_value row)
               | None => Ok VNull
               end
     end, w).
Proof.
  unfold getMintingDetails, bind, Supabase.select_single, gets.
  cbn [Supabase.as_text].
  destruct (select_failure env h) as [e|]; [apply no_rows_case|].
  now destruct (minted_casts w !! h).
Qed.



End HistoryTable.


(** X6.  The history table keeps one row per cast hash: storing a mint
    for a hash that already has a row throws, and the table, with the
    row that was there, stays as it was.  When the store itself accepts
    the statement, what is thrown is the error object of the unique
    constraint (code 23505), which is not an instance of [Error]. *)
Theorem second_mint_of_a_cast_is_refused (env : Env) (w : World) (h : string) (row : MintedCast)
    (zoraUrl casterUsername minterUsername mintHash timestamp
     contractAddress tokenId : JsVal) :
  minted_casts w !! h = Some row ->
  exists e,
    storeMintedNFT env (VStr h) zoraUrl casterUsername minterUsername mintHash
      timestamp contractAddress tokenId w = (Throw e, w)
    /\ (insert_failure env
          {| cast_hash := VStr h; zora_url := zoraUrl;
             caster_username := casterUsername; minter_username := minterUsername;
             mint_hash := mintHash; minted_at := timestamp;
             contract_address := contractAddress; token_id := tokenId |} = None ->
        Value.truthy zoraUrl = true -> Value.truthy casterUsername = true ->
        Value.truthy minterUsername = true -> Value.truthy mintHash = true ->
        Value.truthy timestamp = true ->
        e = Supabase.pg_error "23505" "duplicate key value violates unique constraint"
        /\ instanceofError e = false).
Proof.
  intros Hrow. unfold storeMintedNFT, bind, Supabase.insert. cbn zeta.
  destruct (insert_failure env _) as [e|].
  - exists e. split; [reflexivity|]. discriminate.
  - destruct (Supabase.not_null_ok _) eqn:Hnn; cbn [negb].
    + cbn [Supabase.as_text cast_hash]. rewrite Hrow. eexists. split; [reflexivity|].
      intros; split; reflexivity.
    + eexists. split; [reflexivity|]. intros _ H1 H2 H3 H4 H5.
      unfold Supabase.not_null_ok in Hnn. cbn [cast_hash zora_url caster_username
        minter_username mint_hash minted_at Value.nullish] in Hnn.
      rewrite !truthy_not_nullish in Hnn by assumption. discriminate Hnn.
Qed.

Lemma second_mint_of_a_cast_is_refused_witness :
  exists row,
    minted_casts world_minted !! "0xabc" = Some row
    /\ storeMintedNFT env_up (VStr "0xabc") (VStr "https://zora.co/collect/base:0xc/8")
         (VStr "alice") (VStr "carol") (VStr "0xreply2")
         (VStr "2025-02-18T12:05:00.000Z") (VStr "0xc") (VStr "8") world_minted
       = (Throw (Supabase.pg_error "23505" "duplicate key value violates unique constraint"),
          world_minted).
Proof.
  assert (H : minted_casts world_minted !! "0xabc"
              = Some {| cast_hash := VStr "0xabc";
                        zora_url := VStr "https://zora.co/collect/base:0xc/7";
                        caster_username := VStr "alice"; minter_username := VStr "bob";
                        mint_hash := VStr "0xreply1";
                        minted_at := VStr "2025-02-18T11:59:00.000Z";
                        contract_address := VStr "0xc"; token_id := VStr "7" |})
    by (vm_compute; reflexivity).
  eexists. split; [exact H|].
  destruct (second_mint_of_a_cast_is_refused env_up world_minted "0xabc" _
              (VStr "https://zora.co/collect/base:0xc/8") (VStr "alice") (VStr "carol")
              (VStr "0xreply2") (VStr "2025-02-18T12:05:00.000Z") (VStr "0xc") (VStr "8") H)
    as (e & Hrun & He).
  destruct (He eq_refl eq_refl eq_refl eq_refl eq_refl eq_refl) as [-> _].
  exact Hrun.
Defined.

(* ===================================================================== *)
(** * Properties: the retry loop *)
(* ===================================================================== *)

Section RetryLoop.

Variables (env : Env) (url : string) (options : RequestInit).

Lemma fetch_with_signal_throws (attempt : nat) (e : Thrown) :
  fetch_with_signal env url options attempt = Throw e ->
  e = AbortError \/ exists message, e = TypeError message.
Proof.
  unfold fetch_with_signal. destruct (API_TIMEOUT <=? _).
  - intros [= <-]. now left.
  - destruct (settled _) as [r|message]; [discriminate|].
    intros [= <-]. right. now exists message.
Qed.

(** X7.  A call of [fetchWithRetry] makes one request and then at most
    [retries] more, with a pause of [RETRY_DELAY] before each of them and
    no other effect.  Its result is the outcome of its last request; each
    earlier request failed in transport (a [TypeError]), and when retries
    were left over the last outcome is not such a failure: it is a
    response of any status, or the [AbortError] of the timeout.  A
    response to the first request ends the call at once. *)
Theorem fetchWithRetry_makes_bounded_attempts
    (retries attempt : nat) (w : World) :
  exists n,
    (n <= retries)%nat
    /\ fetchWithRetry_from attempt env url options retries w
       = (fetch_with_signal env url options (attempt + n),
          fold_right record_event w (retry_trace url attempt n))
    /\ (forall i, (i < n)%nat ->
          exists message,
            fetch_with_signal env url options (attempt + i) = Throw (TypeError message))
    /\ ((n < retries)%nat ->
          forall message,
            fetch_with_signal env url options (attempt + n) <> Throw (TypeError message))
    /\ (forall r, fetch_with_signal env url options attempt = Ok r -> n = O).
Proof.
  revert attempt w. induction retries as [|retries IH]; intros attempt w.
  - exists O. rewrite fetchWithRetry_from_unfold, Nat.add_0_r.
    split; [lia|]. split; [now destruct (fetch_with_signal env url options attempt)|].
    split; [intros i Hi; lia|]. split; [intros Hlt; lia|]. reflexivity.
  - rewrite fetchWithRetry_from_unfold.
    destruct (fetch_with_signal env url options attempt) as [r|e] eqn:E.
    { exists O. rewrite Nat.add_0_r, E.
      split; [lia|]. split; [reflexivity|]. split; [intros i Hi; lia|].
      split; [intros _ message; discriminate|]. reflexivity. }
    destruct (fetch_with_signal_throws attempt e E) as [-> | [message ->]].
    { exists O. rewrite Nat.add_0_r, E.
      split; [lia|]. split; [reflexivity|]. split; [intros i Hi; lia|].
      split; [intros _ message; discriminate|]. reflexivity. }
    cbn [instanceofError TypeError error_name andb negb].
    change (String.eqb "TypeError" "AbortError") with false. cbn [negb].
    destruct (IH (S attempt)
                (record_event (Waited RETRY_DELAY) (record_event (Requested url attempt) w)))
      as (n & Hn & Hrun & Hearlier & Hlast & _).
    exists (S n). rewrite Hrun.
    replace (attempt + S n)%nat with (S attempt + n)%nat by lia.
    split; [lia|]. split.
    { f_equal. cbn [retry_trace]. now rewrite fold_right_app. }
    split.
    { intros [|i] Hi.
      - exists message. now rewrite Nat.add_0_r.
      - destruct (Hearlier i ltac:(lia)) as [m Hm]. exists m.
        now replace (attempt + S i)%nat with (S attempt + i)%nat by lia. }
    split.
    { intros Hlt. apply Hlast. lia. }
    discriminate.
Qed.

End RetryLoop.

(** X8.  An answer with an error status is a response, not a failure
    of the call: [fetchWithRetry] hands it back from the first attempt,
    without a pause and without a second request, whatever number of
    retries it was given. *)
Theorem error_status_is_not_retried
    (env : Env) (url : string) (options : RequestInit) (retries attempt : nat)
    (w : World) (r : Response) :
  elapsed_ms (fetch env url options attempt) < API_TIMEOUT ->
  settled (fetch env url options attempt) = Responds r ->
  fetchWithRetry_from attempt env url options retries w
  = (Ok r, record_event (Requested url attempt) w).
Proof.
  intros Ht Hs. rewrite fetchWithRetry_from_unfold. unfold fetch_with_signal.
  apply N.leb_gt in Ht. now rewrite Ht, Hs.
Qed.

Lemma error_status_is_not_retried_witness :
  let url := "https://mintos.example/api/ipfs" in
  elapsed_ms (unavailable url get_request 0) < API_TIMEOUT
  /\ (exists r, settled (unavailable url get_request 0) = Responds r
                /\ resp_status r = 503 /\ resp_ok r = false
                /\ fetchWithRetry (environment unavailable (fun _ => None))
                     url get_request MAX_RETRIES world0
                   = (Ok r, record_event (Requested url 0) world0)).
Proof.
  cbv zeta. split; [reflexivity|]. eexists. split; [reflexivity|].
  split; [reflexivity|]. split; [reflexivity|].
  apply (error_status_is_not_retried (environment unavailable (fun _ => None)));
    reflexivity.
Defined.

(* ===================================================================== *)
(** * Properties: the polling loop *)
(* ===================================================================== *)

Section PollCycle.

Variable env : Env.




End PollCycle.

(* ===================================================================== *)
(** * Properties: the intake of deliveries *)
(* ===================================================================== *)

Section Intake.

Variable env : Env.

Lemma Untouched_refl (w : World) : Untouched w w.
Proof. constructor; try reflexivity. now exists []. Qed.

Lemma Untouched_event (e : Event) (w : World) : Untouched w (record_event e w).
Proof. constructor; try reflexivity. now exists [e]. Qed.

Lemma getMintingDetails_world (castHash : JsVal) (w : World) :
  snd (getMintingDetails env castHash w) = w.
Proof.
  unfold getMintingDetails, bind, Supabase.select_single, gets.
  destruct (select_failure env _) as [e|].
  - cbn. destruct (thrown_code e) as [| | | |s| |]; try reflexivity.
    do 9 (destruct s as [|[[] [] [] [] [] [] [] []] s]; try reflexivity).
  - now destruct (minted_casts w !! _).
Qed.

Lemma member_ok (v : JsVal) (k : string) (x : JsVal) :
  Value.member v k = Ok x -> x = Value.get v k.
Proof. unfold Value.member. destruct (Value.nullish v); [discriminate|]. now intros [= <-]. Qed.

Lemma is_string_eq (s : string) (v : JsVal) :
  Value.is_string s v = true -> v = VStr s.
Proof.
  destruct v; try discriminate. cbn. intros H. apply String.eqb_eq in H. now subst.
Qed.

Lemma isCastProcessed_cases (v : JsVal) (w : World) :
  match isCastProcessed v w with
  | (Ok b, w') =>
      w' = w /\ if b then True
                else exists h, v = VStr h /\ h ∉ processed w
  | (Throw _, w') => w' = w /\ True
  end.
Proof.
  destruct v; try (split; [reflexivity|exact I]).
  rewrite isCastProcessed_string. split; [reflexivity|].
  destruct (bool_decide _) eqn:E; [exact I|].
  apply bool_decide_eq_false in E. eauto.
Qed.

(** What a delivery does: the route answers, and either changes nothing
    in the stores, or has accepted the delivery and queued its item. *)
Lemma webhook_POST_spec (request : Webhook.Request) (w : World) :
  exists response w',
    Webhook.POST env request w = (Ok response, w')
    /\ (resp_status response = 200 \/ resp_status response = 400
        \/ resp_status response = 500)
    /\ (Untouched w w'
        \/ exists target entry,
             Accepted env request w target entry
             /\ w' = queued entry w
             /\ response = Webhook.reply 200 [("success", VBool true);
                                              ("message", VStr "Cast queued for minting")]).
Proof.
  unfold Webhook.POST, try_catch.
  destruct (String.eqb_spec (env_or (NEYNAR_SIGNER_UUID env) "") "") as [Hcfg|Hcfg].
  { eexists. eexists. split; [reflexivity|]. split; [now right; right|].
    left. apply Untouched_refl. }
  unfold bind at 1, lift at 1.
  destruct (JSON.parse (Webhook.body request)) as [payload|e0] eqn:Hparse.
  2: { eexists. eexists. split; [reflexivity|]. split; [now right; right|].
       left. apply Untouched_refl. }
  unfold bind at 1, lift at 1.
  destruct (Value.member payload "type") as [type|e0] eqn:Htype.
  2: { eexists. eexists. split; [reflexivity|]. split; [now right; right|].
       left. apply Untouched_refl. }
  apply member_ok in Htype.
  destruct (Value.is_string "cast.created" type) eqn:Hcreated.
  2: { eexists. eexists. split; [reflexivity|]. split; [now left|].
       left. apply Untouched_refl. }
  apply is_string_eq in Hcreated. subst type.
  unfold bind at 1, lift at 1.
  destruct (Value.member payload "data") as [data|e0] eqn:Hdata.
  2: { eexists. eexists. split; [reflexivity|]. split; [now right; right|].
       left. apply Untouched_refl. }
  apply member_ok in Hdata.
  unfold bind at 1, lift at 1.
  destruct (Value.member data "text") as [text|e0] eqn:Htext.
  2: { eexists. eexists. split; [reflexivity|]. split; [now right; right|].
       left. apply Untouched_refl. }
  apply member_ok in Htext.
  unfold bind at 1, lift at 1.
  destruct text as [| | | |text| |];
    try (eexists; eexists; split; [reflexivity|]; split; [now right; right|];
         left; apply Untouched_refl).
  destruct (Value.truthy (Value.get data "parent_hash")) eqn:Hreply; cbn [negb].
  2: { eexists. eexists. split; [reflexivity|]. split; [now left|].
       left. apply Untouched_refl. }
  destruct (Webhook.is_mint_command (Js.trim text)) eqn:Hcommand; cbn [negb].
  2: { eexists. eexists. split; [reflexivity|]. split; [now left|].
       left. apply Untouched_refl. }
  unfold bind at 1, lift at 1.
  destruct (Value.member (Value.get data "author") "experimental")
    as [experimental|e0] eqn:Hexp.
  2: { eexists. eexists. split; [reflexivity|]. split; [now right; right|].
       left. apply Untouched_refl. }
  apply member_ok in Hexp.
  destruct (Value.truthy (Value.member_opt experimental "neynar_user_score")) eqn:Hscore;
    cbn [negb orb].
  2: { unfold bind; cbv beta.
       match goal with
       | |- context [neynarClient.publishCast env ?a ?b ?c ?d w] =>
           pose proof (publishCast_cases env a b c d w) as Hpub;
           destruct (neynarClient.publishCast env a b c d w) as [[v|e0] w1]
       end; cbn.
       - eexists. eexists. split; [reflexivity|]. split; [now left|].
         left. subst w1. apply Untouched_event.
       - eexists. eexists. split; [reflexivity|]. split; [now left|].
         left. destruct Hpub as [_ [-> | ->]];
           [apply Untouched_refl | apply Untouched_event]. }
  destruct (Webhook.below_069 (Value.member_opt experimental "neynar_user_score")) eqn:Hlow.
  { unfold bind; cbv beta.
    match goal with
    | |- context [neynarClient.publishCast env ?a ?b ?c ?d w] =>
        pose proof (publishCast_cases env a b c d w) as Hpub;
        destruct (neynarClient.publishCast env a b c d w) as [[v|e0] w1]
    end; cbn.
    - eexists. eexists. split; [reflexivity|]. split; [now left|].
      left. subst w1. apply Untouched_event.
    - eexists. eexists. split; [reflexivity|]. split; [now left|].
      left. destruct Hpub as [_ [-> | ->]];
        [apply Untouched_refl | apply Untouched_event]. }
  destruct (Value.truthy (Value.get data "parent_author")) eqn:Hparent; cbn [negb].
  2: { eexists. eexists. split; [reflexivity|]. split; [now right; left|].
       left. apply Untouched_refl. }
  unfold bind at 1.
  pose proof (isCastProcessed_cases (Value.get data "parent_hash") w) as Hproc.
  destruct (isCastProcessed (Value.get data "parent_hash") w) as [[[]|e0] w1];
    destruct Hproc as [-> Hproc].
  { eexists. eexists. split; [reflexivity|]. split; [now left|].
    left. apply Untouched_refl. }
  2: { eexists. eexists. split; [reflexivity|]. split; [now right; right|].
       left. apply Untouched_refl. }
  destruct Hproc as (target & Htarget & Hproc).
  unfold bind at 1.
  pose proof (getMintingDetails_world (Value.get data "parent_hash") w) as Hsame.
  destruct (getMintingDetails env (Value.get data "parent_hash") w)
    as [[existing|e0] w1] eqn:Hdetails;
    cbn [snd] in Hsame; subst w1.
  2: { eexists. eexists. split; [reflexivity|]. split; [now right; right|].
       left. apply Untouched_refl. }
  destruct (Value.truthy existing) eqn:Hexisting.
  { eexists. eexists. split; [reflexivity|]. split; [now left|].
    left. apply Untouched_refl. }
  assert (existing = VNull) as ->.
  { revert Hdetails Hexisting. unfold getMintingDetails, bind, Supabase.select_single, gets.
    destruct (select_failure env _) as [e|].
    - cbn. rewrite no_rows_case. destruct (Value.is_string _ _); [|discriminate].
      now intros [= <-].
    - destruct (minted_casts w !! _); cbn; intros [= <-]; [discriminate|reflexivity]. }
  unfold bind at 1.
  pose proof (enqueueCast_run (queue_item data) w) as Hq.
  change (JSON.stringify (queue_item data))
    with (Some (JSON.stringify_val (queue_item data))) in Hq.
  cbv beta iota in Hq. fold (queue_item data). rewrite Hq.
  eexists. eexists. split; [reflexivity|]. split; [now left|].
  right. exists target, (JSON.stringify_val (queue_item data)).
  split; [|split; reflexivity].
  rewrite Htarget in Hdetails.
  constructor; try assumption.
  assert (Hne : target <> "").
  { rewrite Htarget in Hreply. cbn in Hreply. apply negb_true_iff in Hreply.
    now apply String.eqb_neq in Hreply. }
  exists payload, text. subst data experimental. cbv zeta.
  repeat split; solve [assumption | symmetry; assumption].
Qed.

End Intake.

Section IntakeDecision.

Variable env : Env.

Lemma get_member (v : JsVal) (k : string) :
  Value.nullish v = false -> Value.member v k = Ok (Value.get v k).
Proof. unfold Value.member. now intros ->. Qed.

Lemma get_not_nullish (v : JsVal) (k : string) :
  Value.nullish (Value.get v k) = false -> Value.nullish v = false.
Proof. now destruct v. Qed.

Lemma member_opt_truthy (v : JsVal) (k : string) :
  Value.truthy (Value.member_opt v k) = true -> Value.nullish v = false.
Proof. now destruct v. Qed.

(** A delivery that passes the checks is queued. *)
Lemma accepted_is_queued (request : Webhook.Request) (w : World) (target entry : string) :
  Accepted env request w target entry ->
  Webhook.POST env request w
  = (Ok (Webhook.reply 200 [("success", VBool true);
                            ("message", VStr "Cast queued for minting")]),
     queued entry w).
Proof.
  intros [Hcfg (payload & text & Hparse & Htype & Htext & Hcommand & Htarget & Hne
                & Hscore & Hparent & ->) Hproc Hdetails].
  cbv zeta in Hscore. destruct Hscore as [Hscore Hlow].
  assert (Np : Value.nullish payload = false).
  { apply (get_not_nullish payload "type"). now rewrite Htype. }
  assert (Nd : Value.nullish (Value.get payload "data") = false).
  { apply (get_not_nullish _ "text"). now rewrite Htext. }
  assert (Na : Value.nullish (Value.get (Value.get payload "data") "author") = false).
  { apply (get_not_nullish _ "experimental"). now apply member_opt_truthy in Hscore. }
  assert (Ht : Value.truthy (Value.get (Value.get payload "data") "parent_hash") = true).
  { rewrite Htarget. cbn. apply negb_true_iff. now apply String.eqb_neq. }
  unfold Webhook.POST, try_catch.
  destruct (String.eqb_spec (env_or (NEYNAR_SIGNER_UUID env) "") ""); [contradiction|].
  unfold bind at 1, lift at 1. rewrite Hparse.
  unfold bind at 1, lift at 1. rewrite (get_member payload "type" Np), Htype.
  cbn [Value.is_string]. change (String.eqb "cast.created" "cast.created") with true.
  cbv iota.
  unfold bind at 1, lift at 1. rewrite (get_member payload "data" Np).
  unfold bind at 1, lift at 1. rewrite (get_member _ "text" Nd). rewrite Htext at 1.
  unfold bind at 1, lift at 1. rewrite Ht, Hcommand. cbn [negb].
  unfold bind at 1, lift at 1. rewrite (get_member _ "experimental" Na).
  rewrite Hscore, Hlow, Hparent. cbn [negb orb].
  unfold bind at 1. rewrite Htarget at 1. rewrite isCastProcessed_string.
  rewrite bool_decide_eq_false_2 by assumption.
  unfold bind at 1. rewrite Htarget at 1. rewrite Hdetails. cbn [Value.truthy].
  unfold bind at 1.
  pose proof (enqueueCast_run (queue_item (Value.get payload "data")) w) as Hq.
  change (JSON.stringify (queue_item (Value.get payload "data")))
    with (Some (JSON.stringify_val (queue_item (Value.get payload "data")))) in Hq.
  cbv beta iota in Hq. fold (queue_item (Value.get payload "data")). rewrite Hq.
  reflexivity.
Qed.

End IntakeDecision.

Section IntakeTheorems.

Lemma Untouched_pending (w w' : World) : Untouched w w' -> pending w' = pending w.
Proof. intros [Hr _ _ _ _ _ _ _]. unfold pending. now rewrite Hr. Qed.

Lemma pending_queued (entry : string) (w : World) :
  pending (queued entry w) = entry :: pending w.
Proof. apply pending_store. Qed.

Lemma failed_queued (entry : string) (w : World) :
  failed (queued entry w) = failed w.
Proof. unfold failed, queued. cbn. now apply list_at_store_list_ne. Qed.

Lemma cons_not_self {A : Type} (x : A) (l : list A) : l <> x :: l.
Proof. intros H. apply (f_equal (@length A)) in H. cbn in H. lia. Qed.

(** X10.  The webhook route answers every delivery: it never rejects,
    and its status is 200, 400 or 500.  Whatever the body of the request,
    a delivery leaves the dedup set, the failed list, the history table
    and the health object of the worker as they were, and the pending list
    either as it was or longer by one entry at its head. *)
Theorem delivery_is_answered_and_keeps_the_stores
    (env : Env) (request : Webhook.Request) (w : World) :
  exists response w',
    Webhook.POST env request w = (Ok response, w')
    /\ (resp_status response = 200 \/ resp_status response = 400
        \/ resp_status response = 500)
    /\ processed w' = processed w
    /\ failed w' = failed w
    /\ minted_casts w' = minted_casts w
    /\ queueHealth w' = queueHealth w
    /\ (pending w' = pending w \/ exists entry, pending w' = entry :: pending w).
Proof.
  destruct (webhook_POST_spec env request w) as (response & w' & Hrun & Hstatus & Hw).
  exists response, w'. split; [exact Hrun|]. split; [exact Hstatus|].
  destruct Hw as [U | (target & entry & _ & -> & _)].
  - pose proof (Untouched_pending _ _ U) as Hp.
    destruct U as [Hr Ht _ _ _ _ Hh _].
    unfold processed, failed. rewrite Hr. repeat split; auto.
  - split; [reflexivity|]. split; [apply failed_queued|].
    split; [reflexivity|]. split; [reflexivity|].
    right. exists entry. apply pending_queued.
Qed.


End IntakeTheorems.

Section IntakeAndWorker.

(** A run that wrote the history record of a string target leaves the
    target in the dedup set, whatever happened to the reply. *)
Lemma recorded_run_marks (env : Env) (w w0 wr : World) (data : JsVal)
    (minted : Minted) (h : string) :
  isShuttingDown w = false ->
  isProcessing w = false ->
  dequeueCast w = (Ok data, w0) ->
  Value.truthy data = true ->
  mintAndRecord env data w0 = (Ok minted, wr) ->
  Value.get data "parentHash" = VStr h ->
  h ∈ processed (snd (processQueueItem env w)).
Proof.
  intros Hs Hp Hd Ht Hrec Htarget.
  rewrite (processQueueItem_item env w data w0 Hs Hp Hd Ht).
  pose proof (mintPipeline_end env data w0) as Hend.
  destruct (mintPipeline env data w0) as [r w1]. cbn [fst snd] in Hend.
  inversion Hend as [e' w1' Hm' _ | minted' wr' Hm' _ Hno
                    | minted' wr' h' e' w1' Hm' R Ht' _ He Hw
                    | minted' wr' h' v' Hm' R Ht' _]; subst.
  - rewrite Hrec in Hm'. discriminate Hm'.
  - now destruct (Hno h).
  - rewrite Htarget in Ht'. injection Ht' as <-.
    destruct (onPipelineError_spec env data e' w1)
      as (w2 & Hcatch & _ & _ & Hsets & _).
    rewrite Hcatch. cbn [snd].
    change (processed (finished w2)) with (processed w2).
    unfold processed, RedisCmd.set_at. rewrite Hsets.
    destruct Hw as [-> | ->]; apply processed_marked.
  - rewrite Htarget in Ht'. injection Ht' as <-. cbn [snd].
    apply (processed_marked h wr').
Qed.

(** X12.  Once a run of the worker has written the history record of a
    cast, a delivery that asks to mint the same cast is not queued: the
    cast is in the dedup set after the run, whether or not the
    confirmation reply went through, and the route answers the delivery
    without touching the pending list. *)
Theorem minted_cast_is_not_queued_again
    (env : Env) (w w0 wr : World) (data : JsVal) (minted : Minted) (h : string)
    (request : Webhook.Request) (payload : JsVal) :
  isShuttingDown w = false ->
  isProcessing w = false ->
  dequeueCast w = (Ok data, w0) ->
  Value.truthy data = true ->
  mintAndRecord env data w0 = (Ok minted, wr) ->
  Value.get data "parentHash" = VStr h ->
  JSON.parse (Webhook.body request) = Ok payload ->
  Value.get (Value.get payload "data") "parent_hash" = VStr h ->
  let w' := snd (processQueueItem env w) in
  h ∈ processed w'
  /\ (exists response, fst (Webhook.POST env request w') = Ok response)
  /\ pending (snd (Webhook.POST env request w')) = pending w'.
Proof.
  intros Hs Hp Hd Ht Hrec Htarget Hparse Hparent w'.
  assert (Hin : h ∈ processed w')
    by exact (recorded_run_marks env w w0 wr data minted h Hs Hp Hd Ht Hrec Htarget).
  split; [exact Hin|].
  destruct (webhook_POST_spec env request w') as (response & w'' & Hrun & _ & Hw).
  rewrite Hrun. cbn [fst snd]. split; [now exists response|].
  destruct Hw as [U | (target & entry & Hacc & _)]; [now apply Untouched_pending|].
  destruct Hacc as [_ (payload' & text & Hparse' & _ & _ & _ & Htarget' & _) Hnot _].
  rewrite Hparse in Hparse'. injection Hparse' as <-.
  rewrite Hparent in Htarget'. injection Htarget' as <-. contradiction.
Qed.

Lemma minted_cast_is_not_queued_again_witness :
  let w' := snd (processQueueItem env_up world_one_request) in
  "0xabc" ∈ processed w'
  /\ Value.get (Value.get (cast_created "0xabc") "data") "parent_hash" = VStr "0xabc"
  /\ pending (snd (Webhook.POST env_up delivery_request w')) = pending w'.
Proof.
  pose (data := mint_request "0xreply1" "0xabc").
  pose (w0 := snd (dequeueCast world_one_request)).
  pose (run := mintAndRecord env_up data w0).
  assert (Hd : dequeueCast world_one_request = (Ok data, w0))
    by (vm_compute; reflexivity).
  assert (Hrec : exists minted, run = (Ok minted, snd run))
    by (eexists; vm_compute; reflexivity).
  destruct Hrec as [minted Hrec].
  assert (Hparse : JSON.parse (Webhook.body delivery_request) = Ok (cast_created "0xabc"))
    by (vm_compute; reflexivity).
  destruct (minted_cast_is_not_queued_again env_up world_one_request w0 (snd run) data
              minted "0xabc" delivery_request (cast_created "0xabc")
              eq_refl eq_refl Hd eq_refl Hrec eq_refl Hparse eq_refl)
    as (Hin & _ & Hpend).
  cbv zeta. split; [exact Hin|]. split; [reflexivity | exact Hpend].
Defined.

(** X13.  The intake looks at the dedup set and at the history store,
    not at the pending list: a delivery that was queued is queued again,
    with the same entry and the same answer, when it is delivered again
    before the worker has processed it. *)
Theorem repeated_delivery_is_queued_twice
    (env : Env) (request : Webhook.Request) (w : World) (entry : string) :
  pending (snd (Webhook.POST env request w)) = entry :: pending w ->
  let w' := snd (Webhook.POST env request w) in
  fst (Webhook.POST env request w') = fst (Webhook.POST env request w)
  /\ pending (snd (Webhook.POST env request w')) = entry :: entry :: pending w.
Proof.
  intros Hp w'.
  destruct (webhook_POST_spec env request w) as (response & w1 & Hrun & _ & Hw).
  subst w'. rewrite Hrun in *. cbn [fst snd] in *.
  destruct Hw as [U | (target & entry' & Hacc & -> & ->)].
  { apply Untouched_pending in U. rewrite U in Hp. now apply cons_not_self in Hp. }
  rewrite pending_queued in Hp. injection Hp as ->.
  assert (Hacc' : Accepted env request (queued entry w) target entry).
  { destruct Hacc as [Hcfg Hpayload Hproc Hdetails].
    constructor; try assumption.
    pose proof (getMintingDetails_world env (VStr target) (queued entry w)) as Hsame.
    pose proof (f_equal fst Hdetails) as Hfst. cbn [fst] in Hfst.
    rewrite getMintingDetails_run in Hfst |- *.
    cbn [fst] in Hfst. cbn [minted_casts queued record_event set_redis].
    now rewrite Hfst. }
  rewrite (accepted_is_queued env request _ target entry Hacc'). cbn [fst snd].
  split; [reflexivity|]. now rewrite !pending_queued.
Qed.

Lemma repeated_delivery_is_queued_twice_witness :
  pending (snd (Webhook.POST env_up delivery_request world0)) = [queued_for "0xabc"]
  /\ pending (snd (Webhook.POST env_up delivery_request
                    (snd (Webhook.POST env_up delivery_request world0))))
     = [queued_for "0xabc"; queued_for "0xabc"].
Proof.
  assert (H : pending (snd (Webhook.POST env_up delivery_request world0))
              = queued_for "0xabc" :: pending world0) by (vm_compute; reflexivity).
  split; [exact H|].
  exact (proj2 (repeated_delivery_is_queued_twice env_up delivery_request world0 _ H)).
Defined.

End IntakeAndWorker.

Example delivery_is_accepted :
  Accepted env_up delivery_request world0 "0xabc" (queued_for "0xabc").
Proof.
  constructor.
  - discriminate.
  - exists (cast_created "0xabc"), "!mint".
    split; [vm_compute; reflexivity|]. split; [reflexivity|]. split; [reflexivity|].
    split; [vm_compute; reflexivity|]. split; [reflexivity|]. split; [discriminate|].
    split; [split; vm_compute; reflexivity|]. split; reflexivity.
  - apply not_elem_of_empty.
  - vm_compute. reflexivity.
Qed.

(* ===================================================================== *)
(** * Properties: the health check and the failure counter *)
(* ===================================================================== *)

Section HealthSnapshot.

Lemma LRANGE_all (key : string) (r : Redis) :
  RedisCmd.LRANGE key 0 (-1) r = RedisCmd.list_at key r.
Proof.
  unfold RedisCmd.LRANGE. cbn [Z.ltb Z.compare].
  destruct (RedisCmd.list_at key r) as [|x l] eqn:E; [reflexivity|].
  set (n := Z.of_nat (length (x :: l))).
  assert (Hn : (0 < n)%Z) by (subst n; cbn [length]; lia).
  replace (n + -1 <? 0)%Z with false by (symmetry; apply Z.ltb_ge; lia).
  replace (Z.to_nat (n + -1 - 0 + 1)) with (length (x :: l)) by (subst n; lia).
  cbn [Z.to_nat]. rewrite drop_0. apply firstn_all.
Qed.

Lemma parse_all_length (l : list string) (vs : list JsVal) :
  parse_all l = Ok vs -> length vs = length l.
Proof.
  revert vs. induction l as [|x l IH]; intros vs; cbn.
  - now intros [= <-].
  - destruct (JSON.parse x); [|discriminate].
    destruct (parse_all l) as [vs'|]; [|discriminate].
    intros [= <-]. cbn. f_equal. now apply IH.
Qed.

Lemma getFailedMints_run (w : World) :
  getFailedMints w = (parse_all (failed w), w).
Proof.
  unfold getFailedMints, bind, redis_ops.lRange, gets, lift.
  now rewrite LRANGE_all.
Qed.

(** The health snapshot in full. *)
Lemma getHealthStatus_run (w : World) :
  getHealthStatus w
  = match fst (peekQueue w), parse_all (failed w) with
    | Ok nextItem, Ok failedMints =>
        let h := with_lastProcessed (lastProcessedTime w)
                   (with_failedMintsCount (N.of_nat (length failedMints))
                      (with_currentQueueSize (if Value.truthy nextItem then 1 else 0)
                         (queueHealth w))) in
        (Ok {| health := h; health_error := None |}, set_queueHealth h w)
    | Throw e, _ | Ok _, Throw e =>
        (Ok {| health := queueHealth w;
               health_error := Some (match e with
                                     | ErrorInstance _ message => message
                                     | ThrownValue _ => "Unknown error"
                                     end) |}, w)
    end.
Proof.
  unfold getHealthStatus, try_catch. unfold bind at 1.
  rewrite peekQueue_run. cbn [fst].
  destruct (match pending w with [] => Ok VNull | x :: _ => JSON.parse x end)
    as [nextItem|e]; [|reflexivity].
  unfold bind at 1. rewrite getFailedMints_run.
  destruct (parse_all (failed w)) as [failedMints|e]; reflexivity.
Qed.


End HealthSnapshot.

Section Counter.

Variable env : Env.

Let queueHealth_count (w : World) : N := failedMintsCount (queueHealth w).

(** A run of the worker pushes at most one entry on the failed list, and
    the failure counter moves with the list. *)
Lemma poll_counts (w : World) :
  exists k : nat,
    (k <= 1)%nat
    /\ length (failed (snd (processQueueItem env w))) = (length (failed w) + k)%nat
    /\ failedMintsCount (queueHealth (snd (processQueueItem env w)))
       = failedMintsCount (queueHealth w) + N.of_nat k.
Proof.
  assert (Zero : forall w',
             failed w' = failed w -> queueHealth_count w' = queueHealth_count w ->
             exists k : nat,
               (k <= 1)%nat /\ length (failed w') = (length (failed w) + k)%nat
               /\ queueHealth_count w' = queueHealth_count w + N.of_nat k).
  { intros w' Hf Hc. exists O. rewrite Hf, Hc.
    split; [lia|]. split; [lia|]. now rewrite N.add_0_r. }
  unfold queueHealth_count in Zero.
  destruct (isShuttingDown w) eqn:Hs.
  { unfold processQueueItem, bind, gets. rewrite Hs. now apply Zero. }
  destruct (isProcessing w) eqn:Hp.
  { unfold processQueueItem, bind, gets. rewrite Hs, Hp. now apply Zero. }
  pose proof (dequeueCast_run w) as Hrun.
  destruct (last (pending w)) as [x|] eqn:Hlast.
  2: { unfold processQueueItem, bind, gets. rewrite Hs, Hp, Hrun. now apply Zero. }
  set (w0 := record_event (Dequeued x)
               (set_redis (RedisCmd.store_list MINT_QUEUE (removelast (pending w))
                             (redis w)) w)) in *.
  assert (F0 : failed w0 = failed w).
  { unfold failed, w0. cbn. now apply list_at_store_list_ne. }
  assert (H0 : queueHealth w0 = queueHealth w) by reflexivity.
  destruct (decode x) as [v|e] eqn:Hx.
  2: { unfold processQueueItem, bind, gets. rewrite Hs, Hp, Hrun. cbn [snd].
       apply Zero; [exact F0 | now rewrite H0]. }
  destruct (Value.truthy v) eqn:Ht.
  2: { unfold processQueueItem, bind, gets. rewrite Hs, Hp, Hrun, Ht.
       apply Zero; [exact F0 | reflexivity]. }
  rewrite (processQueueItem_item env w v w0 Hs Hp Hrun Ht).
  pose proof (mintPipeline_end env v w0) as Hend.
  destruct (mintPipeline env v w0) as [[[]|e] w1]; cbn [fst snd] in Hend;
    apply pipeline_frame in Hend; destruct Hend as (Hl & _ & Hc);
    apply pending_of_lists in Hl; destruct Hl as [_ Hf].
  - exists O. cbn [snd]. change (failed (finished w1)) with (failed w1).
    change (queueHealth (finished w1)) with (queueHealth w1).
    rewrite Hf, F0, Hc, H0. split; [lia|]. split; [lia|]. now rewrite N.add_0_r.
  - destruct (onPipelineError_spec env v e w1)
      as (w2 & Hcatch & _ & _ & _ & _ & _ & _ & _ & Hcase).
    rewrite Hcatch. cbn [snd].
    change (failed (finished w2)) with (failed w2).
    change (queueHealth (finished w2)) with (queueHealth w2).
    destruct e as [name message|thrown]; destruct Hcase as (C1 & C2 & _).
    + exists 1%nat. rewrite C1, C2, Hf, F0, Hc, H0. cbn [length].
      split; [lia|]. split; [lia|]. reflexivity.
    + exists O. rewrite C1, C2, Hf, F0, Hc, H0.
      split; [lia|]. split; [lia|]. now rewrite N.add_0_r.
Qed.

(** A health check leaves the stores, and either leaves the world or
    puts the counter in step. *)
Lemma health_check_counter (w : World) :
  exists h w',
    getHealthStatus w = (Ok h, w')
    /\ redis w' = redis w
    /\ match health_error h with
       | None => counter_in_step w'
       | Some _ => w' = w
       end.
Proof.
  rewrite getHealthStatus_run.
  destruct (fst (peekQueue w)) as [nextItem|e].
  - destruct (parse_all (failed w)) as [failedMints|e] eqn:Hf.
    + eexists. eexists. split; [reflexivity|]. split; [reflexivity|]. cbn.
      unfold counter_in_step. cbn. now rewrite (parse_all_length _ _ Hf).
    + eexists. eexists. split; [reflexivity|]. now split.
  - eexists. eexists. split; [reflexivity|]. now split.
Qed.

(** X15.  The failure counter of the health object and the failed list
    stay in step.  A health check that can read both lists sets the
    counter to the length of the failed list; from then on the two agree
    after any sequence of polls of the worker, health checks and webhook
    deliveries, and the failed list never gets shorter. *)
Theorem failure_counter_follows_the_failed_list (steps : list SystemStep) (w : World) :
  (forall h w', getHealthStatus w = (Ok h, w') -> health_error h = None ->
     counter_in_step w')
  /\ (counter_in_step w -> counter_in_step (run_steps env steps w))
  /\ (length (failed w) <= length (failed (run_steps env steps w)))%nat.
Proof.
  split.
  { intros h w' Hrun Hnone.
    destruct (health_check_counter w) as (h1 & w1 & Hrun1 & _ & Hcase).
    rewrite Hrun in Hrun1. injection Hrun1 as <- <-. now rewrite Hnone in Hcase. }
  revert w. induction steps as [|s steps IH]; intros w; [split; [auto | reflexivity]|].
  cbn [run_steps]. destruct (IH (snd (system_step env s w))) as [IHc IHl].
  assert (Hstep : (counter_in_step w -> counter_in_step (snd (system_step env s w)))
                  /\ (length (failed w)
                      <= length (failed (snd (system_step env s w))))%nat).
  { destruct s as [| |request]; cbn [system_step].
    - destruct (poll_counts w) as (k & _ & Hlen & Hcount).
      unfold counter_in_step. rewrite Hlen, Hcount. split; [|lia].
      intros ->. lia.
    - unfold bind. destruct (health_check_counter w) as (h & w' & Hrun & Hr & Hcase).
      rewrite Hrun. unfold ret. cbn [snd].
      assert (Hf : failed w' = failed w) by (unfold failed; now rewrite Hr).
      rewrite Hf. split; [|reflexivity]. intros Hc.
      destruct (health_error h); [now subst w' | exact Hcase].
    - unfold bind.
      destruct (webhook_POST_spec env request w) as (response & w' & Hrun & _ & Hw).
      rewrite Hrun. unfold ret. cbn [snd]. unfold counter_in_step.
      destruct Hw as [[Hr _ _ _ _ _ Hh _] | (target & entry & _ & -> & _)].
      + unfold failed. rewrite Hr, Hh. split; [auto|reflexivity].
      + rewrite failed_queued. split; [auto|reflexivity]. }
  destruct Hstep as [Hc Hl]. split; [auto | lia].
Qed.

End Counter.

(* ===================================================================== *)
(** * Properties: how a run ends *)
(* ===================================================================== *)

Section RunOutcomes.

(** X16.  A run whose [try] block completes: the item is off the
    pending list and on no other list, the history table has gained
    exactly the row of its target, the target is in the dedup set, the
    reply was accepted, the health object reports [success] with the time
    of the run, and neither the errors nor the failure counter moved. *)
Theorem completed_run_records_marks_and_replies
    (env : Env) (w w0 w1 : World) (data : JsVal) :
  isShuttingDown w = false ->
  isProcessing w = false ->
  dequeueCast w = (Ok data, w0) ->
  Value.truthy data = true ->
  mintPipeline env data w0 = (Ok tt, w1) ->
  exists (h : string) (row : MintedCast) (w' : World),
    processQueueItem env w = (Ok tt, w')
    /\ Value.get data "parentHash" = VStr h
    /\ pending w' = removelast (pending w)
    /\ failed w' = failed w
    /\ minted_casts w !! h = None
    /\ minted_casts w' = <[h := row]> (minted_casts w)
    /\ processed w' = {[h]} ∪ processed w
    /\ In (Replied h) (journal w')
    /\ status (queueHealth w') = "success"
    /\ lastProcessed (queueHealth w') = Some (now env)
    /\ lastProcessedTime w' = Some (now env)
    /\ errors (queueHealth w') = errors (queueHealth w)
    /\ failedMintsCount (queueHealth w') = failedMintsCount (queueHealth w)
    /\ isProcessing w' = false.
Proof.
  intros Hs Hp Hd Ht Hm.
  rewrite (processQueueItem_item env w data w0 Hs Hp Hd Ht), Hm.
  destruct (dequeueCast_item w w0 data Hd Ht) as (x & Hx & _ & Hw0).
  pose proof (mintPipeline_end env data w0) as Hend. rewrite Hm in Hend.
  cbn [fst snd] in Hend.
  inversion Hend as [ | | | minted wr h v Hrec R Htarget Hn]; subst w1.
  destruct R as [Hr Hfresh [row Hrow] _ _ _ He Hc _ _].
  exists h, row. eexists. split; [reflexivity|]. split; [exact Htarget|].
  destruct (processed_SADD h (redis wr)) as [Hl Hset].
  assert (P0 : pending w0 = removelast (pending w)).
  { rewrite Hw0. unfold pending at 1. cbn. apply list_at_store_list. }
  assert (F0 : failed w0 = failed w).
  { rewrite Hw0. unfold failed at 1. cbn. now apply list_at_store_list_ne. }
  assert (L : lists (redis (marked h wr)) = lists (redis w0)).
  { unfold marked. cbn. now rewrite Hl, Hr. }
  apply pending_of_lists in L. destruct L as [L1 L2].
  split; [rewrite <- P0, <- L1; reflexivity|].
  split; [rewrite <- F0, <- L2; reflexivity|].
  split; [rewrite Hw0 in Hfresh; exact Hfresh|].
  split; [cbn; rewrite Hrow, Hw0; reflexivity|].
  split.
  { change (RedisCmd.set_at "processed_casts" (snd (RedisCmd.SADD "processed_casts" h (redis wr)))
            = {[h]} ∪ processed w).
    rewrite Hset, Hr, Hw0. reflexivity. }
  split; [cbn; auto|].
  split; [reflexivity|]. split; [reflexivity|]. split; [reflexivity|].
  split; [cbn; rewrite He, Hw0; reflexivity|].
  split; [cbn; rewrite Hc, Hw0; reflexivity|]. reflexivity.
Qed.

Lemma completed_run_records_marks_and_replies_witness :
  exists w',
    processQueueItem env_up world_one_request = (Ok tt, w')
    /\ pending w' = []
    /\ failed w' = []
    /\ processed w' = {["0xabc"]} ∪ processed world_one_request
    /\ status (queueHealth w') = "success".
Proof.
  pose (data := mint_request "0xreply1" "0xabc").
  pose (w0 := snd (dequeueCast world_one_request)).
  assert (Hd : dequeueCast world_one_request = (Ok data, w0))
    by (vm_compute; reflexivity).
  assert (Hm : mintPipeline env_up data w0 = (Ok tt, snd (mintPipeline env_up data w0)))
    by (vm_compute; reflexivity).
  destruct (completed_run_records_marks_and_replies env_up world_one_request w0 _ data
              eq_refl eq_refl Hd eq_refl Hm)
    as (h & row & w' & Hrun & Htarget & Hpend & Hfail & _ & _ & Hproc & _ & Hst & _).
  injection Htarget as <-.
  exists w'. split; [exact Hrun|]. split; [exact Hpend|]. split; [exact Hfail|].
  split; [exact Hproc | exact Hst].
Defined.

(** X17.  The worker takes a dequeued value that is falsy for an empty
    queue.  When the entry at the tail of the pending list is the JSON
    text of [null], [false], [0] or the empty string, or is itself empty,
    the run drops it, puts it on no list, reports the status [idle] and a
    queue size of 0 whatever else is pending, and schedules the next poll;
    an empty pending list gives the same report. *)
Theorem falsy_entry_is_dropped_as_an_empty_queue
    (env : Env) (w : World) (earlier : list string) (entry : string) (v : JsVal) :
  isShuttingDown w = false ->
  isProcessing w = false ->
  pending w = earlier ++ [entry] ->
  decode entry = Ok v ->
  Value.truthy v = false ->
  exists w',
    processQueueItem env w = (Ok tt, w')
    /\ pending w' = earlier
    /\ failed w' = failed w
    /\ status (queueHealth w') = "idle"
    /\ currentQueueSize (queueHealth w') = 0
    /\ errors (queueHealth w') = errors (queueHealth w)
    /\ journal w' = Scheduled RETRY_DELAY :: Dequeued entry :: journal w.
Proof.
  intros Hs Hp E Hd Ht. pose proof (dequeueCast_run w) as H.
  rewrite E, last_snoc, Hd in H.
  eexists. split.
  - unfold processQueueItem, bind, gets. rewrite Hs, Hp, H, Ht. reflexivity.
  - rewrite removelast_last. split; [apply pending_store|].
    split; [|repeat split; reflexivity].
    unfold failed. cbn. now apply list_at_store_list_ne.
Qed.

Lemma falsy_entry_is_dropped_as_an_empty_queue_witness :
  pending world_null_entry
  = [JSON.stringify_val (mint_request "0xreply1" "0xabc")] ++ ["null"]
  /\ decode "null" = Ok VNull
  /\ exists w',
       processQueueItem env_up world_null_entry = (Ok tt, w')
       /\ pending w' = [JSON.stringify_val (mint_request "0xreply1" "0xabc")]
       /\ status (queueHealth w') = "idle"
       /\ currentQueueSize (queueHealth w') = 0.
Proof.
  assert (E : pending world_null_entry
              = [JSON.stringify_val (mint_request "0xreply1" "0xabc")] ++ ["null"])
    by (vm_compute; reflexivity).
  assert (D : decode "null" = Ok VNull) by (vm_compute; reflexivity).
  split; [exact E|]. split; [exact D|].
  destruct (falsy_entry_is_dropped_as_an_empty_queue env_up world_null_entry _ _ _
              eq_refl eq_refl E D eq_refl)
    as (w' & Hrun & Hpend & _ & Hst & Hsize & _).
  exists w'. split; [exact Hrun|]. split; [exact Hpend|]. split; [exact Hst | exact Hsize].
Defined.

End RunOutcomes.

(* ===================================================================== *)
(** * Properties: the answers of the split route *)
(* ===================================================================== *)

Section SplitRoute.

Variable env : Env.



End SplitRoute.

Section CanonicalAddress.

Lemma lower_hex_bounds (a : N) :
  Js.is_lower_hex a = true -> (48 <= a <= 57) \/ (97 <= a <= 102).
Proof.
  unfold Js.is_lower_hex, Js.is_digit, Js.in_range. intros H.
  apply orb_true_iff in H. destruct H as [H|H]; apply andb_true_iff in H;
    destruct H as [H1 H2]; apply N.leb_le in H1, H2; lia.
Qed.

Lemma lower_byte_id (a : N) : a < 65 \/ 90 < a -> Js.lower_byte a = a.
Proof.
  intros H. unfold Js.lower_byte, Js.in_range.
  destruct (65 <=? a) eqn:E1; [|reflexivity].
  destruct (a <=? 90) eqn:E2; [|reflexivity].
  apply N.leb_le in E1, E2. lia.
Qed.

Lemma ascii_byte_not_space_tail (d b c : N) :
  d < 128 -> Js.ws2 b d = false /\ Js.ws3 c b d = false.
Proof.
  intros H. unfold Js.ws2, Js.ws3, Js.in_range.
  assert (E : forall k, 128 <= k -> (d =? k) = false)
    by (intros k Hk; apply N.eqb_neq; lia).
  rewrite !E by lia.
  replace (128 <=? d) with false by (symmetry; apply N.leb_gt; lia).
  cbn [andb orb]. now rewrite !andb_false_r.
Qed.

Lemma is_address_bytes (s : string) :
  CreateSplit.is_address s = true ->
  exists digits,
    Js.bytes s = 48 :: 120 :: digits /\ length digits = 40%nat
    /\ Forall (fun a => Js.is_lower_hex a = true) digits.
Proof.
  unfold CreateSplit.is_address.
  destruct (Js.bytes s) as [|a [|b digits]]; try discriminate.
  { destruct a as [|p]; [discriminate|].
    repeat (destruct p as [p|p|]; try discriminate). }
  destruct a as [|p]; [discriminate|].
  do 6 (destruct p as [p|p|]; try discriminate).
  destruct b as [|p]; [discriminate|].
  do 7 (destruct p as [p|p|]; try discriminate).
  intros H. apply andb_true_iff in H. destruct H as [H1 H2].
  exists digits. split; [reflexivity|]. split; [now apply Nat.eqb_eq|].
  apply Forall_forall. intros x Hx. apply list_elem_of_In in Hx.
  exact (proj1 (forallb_forall _ _) H2 x Hx).
Qed.

Lemma address_is_trimmed (digits : list N) :
  length digits = 40%nat ->
  Forall (fun a => Js.is_lower_hex a = true) digits ->
  Js.trim_bytes (48 :: 120 :: digits) = 48 :: 120 :: digits.
Proof.
  intros Hlen Hhex. unfold Js.trim_bytes.
  assert (E : Js.dropWs (48 :: 120 :: digits) = 48 :: 120 :: digits).
  { unfold Js.dropWs. destruct digits as [|c r]; [discriminate|]. reflexivity. }
  rewrite E.
  destruct (rev digits) as [|d ds] eqn:Hrev.
  { apply (f_equal (@length N)) in Hrev. rewrite length_rev, Hlen in Hrev. discriminate. }
  assert (Hd : Js.is_lower_hex d = true).
  { rewrite Forall_forall in Hhex. apply Hhex. apply list_elem_of_In.
    apply in_rev. rewrite Hrev. now left. }
  apply lower_hex_bounds in Hd.
  assert (R : rev (48 :: 120 :: digits) = d :: ds ++ [120; 48]).
  { cbn [rev]. rewrite Hrev, <- !app_assoc. reflexivity. }
  rewrite R.
  assert (D : Js.dropWsRev (d :: ds ++ [120; 48]) = d :: ds ++ [120; 48]).
  { unfold Js.dropWsRev. cbn [Js.drop_leading].
    replace (Js.ws1 d) with false.
    2: { unfold Js.ws1, Js.in_range. symmetry. apply orb_false_iff. split.
         - apply andb_false_iff. right. apply N.leb_gt. lia.
         - apply N.eqb_neq. lia. }
    destruct (ds ++ [120; 48]) as [|b [|c r]] eqn:Hds.
    - destruct ds; discriminate.
    - destruct ds as [|? [|? ?]]; discriminate.
    - destruct (ascii_byte_not_space_tail d b c ltac:(lia)) as [-> ->]. reflexivity. }
  rewrite D, <- R. apply rev_involutive.
Qed.

(** X19.  An address that passed [validateAndConvertAddress] is in
    canonical form: 42 characters, [0x] and forty lower-case hexadecimal
    digits, with nothing for [trim] or [toLowerCase] to change, so that
    validating it again gives it back.  Wallets that differ only in letter
    case and in surrounding white space validate to the same address. *)
Theorem validated_address_is_canonical (wallet address : string) :
  CreateSplit.validateAndConvertAddress (VStr wallet) = Ok address ->
  String.length address = 42%nat
  /\ (exists digits, Js.bytes address = 48 :: 120 :: digits
                     /\ Forall (fun a => Js.is_lower_hex a = true) digits)
  /\ Js.toLowerCase address = address
  /\ Js.trim address = address
  /\ CreateSplit.validateAndConvertAddress (VStr address) = Ok address
  /\ (forall other,
        Js.toLowerCase (Js.trim other) = Js.toLowerCase (Js.trim wallet) ->
        CreateSplit.validateAndConvertAddress (VStr other) = Ok address).
Proof.
  intros H. apply validateAndConvertAddress_ok in H. destruct H as [Haddr Hok].
  destruct (is_address_bytes address Hok) as (digits & Hbytes & Hlen & Hhex).
  assert (Hlower : Js.toLowerCase address = address).
  { unfold Js.toLowerCase. rewrite Hbytes.
    replace (map Js.lower_byte (48 :: 120 :: digits)) with (48 :: 120 :: digits).
    - rewrite <- Hbytes. apply of_bytes_bytes.
    - symmetry. cbn [map]. rewrite !lower_byte_id by lia. do 2 f_equal.
      clear - Hhex. induction Hhex as [|a l Ha _ IH]; [reflexivity|].
      cbn [map]. rewrite IH. f_equal. apply lower_hex_bounds in Ha.
      apply lower_byte_id. lia. }
  assert (Htrim : Js.trim address = address).
  { unfold Js.trim. rewrite Hbytes, (address_is_trimmed digits Hlen Hhex), <- Hbytes.
    apply of_bytes_bytes. }
  split; [rewrite <- bytes_length, Hbytes; cbn [length]; now rewrite Hlen|].
  split; [now exists digits|].
  split; [exact Hlower|]. split; [exact Htrim|].
  split.
  - unfold CreateSplit.validateAndConvertAddress. now rewrite Htrim, Hlower, Hok.
  - intros other Hsame. unfold CreateSplit.validateAndConvertAddress.
    now rewrite Hsame, <- Haddr, Hok.
Qed.

Lemma validated_address_is_canonical_witness :
  let wallet := Js.of_bytes [32; 9] +:+ "0xAbCdEf0123456789aBcDeF0123456789abcdef01 " in
  let address := "0xabcdef0123456789abcdef0123456789abcdef01" in
  CreateSplit.validateAndConvertAddress (VStr wallet) = Ok address
  /\ String.length address = 42%nat
  /\ CreateSplit.validateAndConvertAddress (VStr address) = Ok address.
Proof.
  cbv zeta.
  assert (H : CreateSplit.validateAndConvertAddress
                (VStr (Js.of_bytes [32; 9]
                       +:+ "0xAbCdEf0123456789aBcDeF0123456789abcdef01 "))
              = Ok "0xabcdef0123456789abcdef0123456789abcdef01")
    by (vm_compute; reflexivity).
  split; [exact H|].
  destruct (validated_address_is_canonical _ _ H) as (Hlen & _ & _ & _ & Hagain & _).
  split; [exact Hlen | exact Hagain].
Defined.

End CanonicalAddress.

Example refused_transaction_deploys_nothing :
  exists answer w',
    CreateSplit.handle env_chain_refuses split_body world0 = (Ok (500, answer), w')
    /\ Value.get answer "error" = VStr "insufficient funds for gas"
    /\ deployed_splits w' = ∅
    /\ journal w' = [Submitted {| tx_to := "0xSplitMain"; tx_data := "0xcalldata" |}].
Proof.
  eexists. eexists. split; [vm_compute; reflexivity|].
  repeat split; reflexivity.
Qed.

(* ===================================================================== *)
(** * Properties: mint commands *)
(* ===================================================================== *)

Section MintCommand.










End MintCommand.

(* ===================================================================== *)
(** * Properties: the middleware *)
(* ===================================================================== *)

Section AccessControl.

Lemma differs_false (a b : option string) :
  Middleware.differs a b = false <-> exists s, a = Some s /\ b = Some s.
Proof.
  unfold Middleware.differs. destruct a as [a|], b as [b|]; split;
    try discriminate; try (intros (s & H1 & H2); discriminate).
  - intros H. apply negb_false_iff, String.eqb_eq in H. subst. now exists b.
  - intros (s & [= ->] & [= ->]). now rewrite String.eqb_refl.
Qed.

Lemma falsy_string_false (a : option string) :
  falsy_string a = false <-> exists s, a = Some s /\ s <> "".
Proof.
  unfold falsy_string. destruct a as [a|]; split; try discriminate.
  - intros H. apply String.eqb_neq in H. now exists a.
  - intros (s & [= ->] & H). now apply String.eqb_neq.
  - intros (s & H & _). discriminate.
Qed.

Lemma includes_In (l : list string) (s : string) :
  Middleware.includes l s = true <-> In s l.
Proof.
  unfold Middleware.includes. rewrite existsb_exists. split.
  - intros (x & Hx & E). apply String.eqb_eq in E. now subst.
  - intros H. exists s. split; [exact H | apply String.eqb_refl].
Qed.

(** X21.  What the middleware lets through.  A request for the webhook
    path passes untouched whatever its headers and whatever the
    environment.  Any other path under [/api] is refused with 403 in
    production; elsewhere it passes only with a non-empty [x-api-key]
    header equal to [API_KEY] and an [origin] header that is one of the
    allowed origins, and the answer then allows that origin and no other.
    What does not pass is refused with 401 or 403. *)
Theorem middleware_lets_through
    (env : Env) (NODE_ENV : option string) (request : Middleware.Request) :
  (Middleware.pathname request = "/api/webhook/neynar" ->
     Middleware.middleware env NODE_ENV request = Middleware.Next [])
  /\ (Middleware.startsWith "/api" (Middleware.pathname request) = true ->
      Middleware.pathname request <> "/api/webhook/neynar" ->
      (NODE_ENV = Some "production" ->
         Middleware.middleware env NODE_ENV request
         = Middleware.refuse 403 "Not available in production")
      /\ (forall headers,
            Middleware.middleware env NODE_ENV request = Middleware.Next headers ->
            NODE_ENV <> Some "production"
            /\ exists key origin,
                 Middleware.header request "x-api-key" = Some key /\ key <> ""
                 /\ API_KEY env = Some key
                 /\ Middleware.header request "origin" = Some origin /\ origin <> ""
                 /\ In origin (Middleware.allowedOrigins env)
                 /\ headers
                    = [("Access-Control-Allow-Origin", origin);
                       ("Access-Control-Allow-Methods", "GET, POST, PUT, DELETE, OPTIONS");
                       ("Access-Control-Allow-Headers", "Content-Type, x-api-key")])
      /\ (forall r, Middleware.middleware env NODE_ENV request = Middleware.Respond r ->
            resp_status r = 401 \/ resp_status r = 403)).
Proof.
  split.
  { intros E. unfold Middleware.middleware. rewrite E. reflexivity. }
  intros Hapi Hpath. unfold Middleware.middleware. rewrite Hapi. cbn [negb].
  destruct (String.eqb_spec (Middleware.pathname request) "/api/webhook/neynar");
    [contradiction|].
  split; [intros ->; reflexivity|].
  destruct (Middleware.differs NODE_ENV (Some "production")) eqn:Hprod; cbn [negb].
  2: { split; [discriminate|]. intros r [= <-]. now right. }
  destruct (falsy_string (Middleware.header request "x-api-key")) eqn:Hkey; cbn [orb].
  { split; [discriminate|]. intros r [= <-]. now left. }
  destruct (Middleware.differs (Middleware.header request "x-api-key") (API_KEY env))
    eqn:Hsame.
  { split; [discriminate|]. intros r [= <-]. now left. }
  destruct (falsy_string (Middleware.header request "origin")) eqn:Horigin; cbn [orb].
  { split; [discriminate|]. intros r [= <-]. now right. }
  destruct (Middleware.includes _ _) eqn:Hin; cbn [negb].
  2: { split; [discriminate|]. intros r [= <-]. now right. }
  split; [|discriminate].
  intros headers [= <-].
  apply falsy_string_false in Hkey, Horigin. apply differs_false in Hsame.
  destruct Hkey as (key & Hk & Hkne), Horigin as (origin & Ho & Hone).
  destruct Hsame as (key' & Hk' & Henv).
  rewrite Hk in Hk'. injection Hk' as <-.
  rewrite Ho in Hin |- *. cbn [default] in *. apply includes_In in Hin.
  split.
  - intros ->. discriminate Hprod.
  - exists key, origin. repeat split; assumption.
Qed.

End AccessControl.

(* ===================================================================== *)
(** * Properties: a JSON text is read back *)
(* ===================================================================== *)

Section JsonStrings.

Lemma bytes_app (a b : string) : Js.bytes (a +:+ b) = Js.bytes a ++ Js.bytes b.
Proof.
  unfold Js.bytes. induction a as [|c a IH]; [reflexivity|].
  change (String c a +:+ b) with (String c (a +:+ b)).
  cbn [list_ascii_of_string map app]. f_equal. exact IH.
Qed.

Lemma hex4_of_control (a : N) :
  a < 32 -> JSON.hex4_of a = [48; 48; Js.hex_digit (a / 16); Js.hex_digit (a mod 16)].
Proof.
  intros H. unfold JSON.hex4_of.
  rewrite (N.div_small a 4096) by lia.
  assert (E : a / 256 = 0) by (apply N.div_small; lia). rewrite E.
  assert (E2 : (a / 16) mod 16 = a / 16).
  { apply N.mod_small. apply N.Div0.div_lt_upper_bound. lia. }
  rewrite E2. reflexivity.
Qed.

Lemma hex4_control (a : N) :
  a < 32 ->
  JSON.hex4 48 48 (Js.hex_digit (a / 16)) (Js.hex_digit (a mod 16)) = Some a.
Proof.
  intros H. remember (N.to_nat a) as n eqn:Hn.
  assert (E : a = N.of_nat n) by lia. subst a. clear Hn.
  do 32 (destruct n as [|n]; [vm_compute; reflexivity|]). lia.
Qed.

Lemma hex_digit_bounded (n : N) : n < 16 -> Js.hex_digit n < 256.
Proof. unfold Js.hex_digit. destruct (n <? 10); lia. Qed.

Lemma quote_bytes_plain (l : list N) :
  no_surrogate l = true -> JSON.quote_bytes l = flat_map escape l.
Proof.
  induction l as [|a r IH]; [reflexivity|].
  intros H. cbn [no_surrogate] in H. apply andb_true_iff in H. destruct H as [Ha Hr].
  cbn [JSON.quote_bytes flat_map]. unfold escape.
  rewrite (IH Hr).
  destruct (a =? 34); [reflexivity|]. destruct (a =? 92); [reflexivity|].
  destruct (a =? 8); [reflexivity|]. destruct (a =? 12); [reflexivity|].
  destruct (a =? 10); [reflexivity|]. destruct (a =? 13); [reflexivity|].
  destruct (a =? 9); [reflexivity|]. destruct (a <? 32); [reflexivity|].
  destruct r as [|b [|c r']]; try reflexivity.
  apply negb_true_iff in Ha. now rewrite Ha.
Qed.

Lemma escape_bounded (a : N) : a < 256 -> Forall (fun b => b < 256) (escape a).
Proof.
  intros H. unfold escape.
  repeat match goal with
         | |- context [if ?c then _ else _] => destruct c eqn:?
         end; try (repeat constructor; lia).
  unfold JSON.hex4_of. repeat constructor; try lia.
  - apply hex_digit_bounded. apply N.Div0.div_lt_upper_bound. lia.
  - apply hex_digit_bounded. apply N.mod_lt. lia.
  - apply hex_digit_bounded. apply N.mod_lt. lia.
  - apply hex_digit_bounded. apply N.mod_lt. lia.
Qed.

Lemma bytes_quote (s : string) :
  plain_text s = true ->
  Js.bytes (JSON.quote s) = 34 :: flat_map escape (Js.bytes s) ++ [34].
Proof.
  intros H. unfold JSON.quote. rewrite (quote_bytes_plain _ H).
  apply bytes_of_bytes. constructor; [reflexivity|]. apply Forall_app. split.
  - pose proof (bytes_bounded s) as B. induction B as [|a l Ha _ IH]; [constructor|].
    cbn [flat_map]. apply Forall_app. split; [now apply escape_bounded | exact IH].
  - repeat constructor.
Qed.

(** One byte of the string is read back from what was written for it. *)
Lemma parse_string_escape (a : N) (fuel : nat) (rest acc : list N) :
  JSON.parse_string (S fuel) (escape a ++ rest) acc
  = JSON.parse_string fuel rest (a :: acc).
Proof.
  unfold escape.
  destruct (N.eqb_spec a 34) as [->|H34]; [reflexivity|].
  destruct (N.eqb_spec a 92) as [->|H92]; [reflexivity|].
  destruct (N.eqb_spec a 8) as [->|H8]; [reflexivity|].
  destruct (N.eqb_spec a 12) as [->|H12]; [reflexivity|].
  destruct (N.eqb_spec a 10) as [->|H10]; [reflexivity|].
  destruct (N.eqb_spec a 13) as [->|H13]; [reflexivity|].
  destruct (N.eqb_spec a 9) as [->|H9]; [reflexivity|].
  destruct (N.ltb_spec a 32) as [Hlt|Hge].
  - rewrite (hex4_of_control a Hlt).
    change (JSON.parse_string (S fuel)
              ((92 :: 117 :: [48; 48; Js.hex_digit (a / 16); Js.hex_digit (a mod 16)])
               ++ rest) acc)
      with (match JSON.hex4 48 48 (Js.hex_digit (a / 16)) (Js.hex_digit (a mod 16)) with
            | None => None
            | Some u =>
                let single := JSON.parse_string fuel rest (rev (Js.utf8 u) ++ acc) in
                if Js.in_range 55296 56319 u then
                  match rest with
                  | 92 :: 117 :: g1 :: g2 :: g3 :: g4 :: r3 =>
                      match JSON.hex4 g1 g2 g3 g4 with
                      | Some w =>
                          if Js.in_range 56320 57343 w
                          then JSON.parse_string fuel r3
                                 (rev (Js.utf8 (65536 + (u - 55296) * 1024 + (w - 56320)))
                                  ++ acc)
                          else single
                      | None => single
                      end
                  | _ => single
                  end
                else single
            end).
    rewrite (hex4_control a Hlt). cbv zeta.
    replace (Js.in_range 55296 56319 a) with false.
    2: { unfold Js.in_range. symmetry. apply andb_false_iff. left. apply N.leb_gt. lia. }
    unfold Js.utf8. replace (a <? 128) with true by (symmetry; apply N.ltb_lt; lia).
    reflexivity.
  - cbn [app JSON.parse_string].
    rewrite (proj2 (N.eqb_neq a 34) H34), (proj2 (N.eqb_neq a 92) H92).
    replace (a <? 32) with false by (symmetry; apply N.ltb_ge; lia).
    reflexivity.
Qed.

Lemma parse_string_quoted (l : list N) (fuel : nat) (rest acc : list N) :
  (length l < fuel)%nat ->
  JSON.parse_string fuel (flat_map escape l ++ 34 :: rest) acc
  = Some (Js.of_bytes (rev acc ++ l), rest).
Proof.
  revert fuel acc. induction l as [|a l IH]; intros fuel acc Hf.
  - destruct fuel as [|f]; [cbn in Hf; lia|]. cbn. now rewrite app_nil_r.
  - destruct fuel as [|f]; [cbn in Hf; lia|].
    cbn [flat_map]. rewrite <- app_assoc, parse_string_escape.
    rewrite IH by (cbn in Hf; lia). cbn [rev]. now rewrite <- app_assoc.
Qed.

Lemma escape_length (a : N) : (1 <= length (escape a))%nat.
Proof.
  unfold escape.
  repeat match goal with
         | |- context [if ?c then _ else _] => destruct c
         end; cbn; lia.
Qed.

Lemma flat_map_escape_length (l : list N) :
  (length l <= length (flat_map escape l))%nat.
Proof.
  induction l as [|a l IH]; [reflexivity|].
  cbn [flat_map length]. rewrite length_app. pose proof (escape_length a). lia.
Qed.

End JsonStrings.

Section DecimalDigits.

Lemma digits_value_snoc (ds : list N) (d : N) :
  JSON.digits_value (ds ++ [d]) = (10 * JSON.digits_value ds + Z.of_N (d - 48))%Z.
Proof. unfold JSON.digits_value. now rewrite fold_left_app. Qed.

Lemma digits_value_app (a b : list N) :
  JSON.digits_value (a ++ b)
  = fold_left (fun acc d => (10 * acc + Z.of_N (d - 48))%Z) b (JSON.digits_value a).
Proof. unfold JSON.digits_value. now rewrite fold_left_app. Qed.

Lemma fold_zeros (j : nat) (x : Z) :
  fold_left (fun acc d => (10 * acc + Z.of_N (d - 48))%Z) (repeat 48 j) x
  = (x * 10 ^ Z.of_nat j)%Z.
Proof.
  revert x. induction j as [|j IH]; intros x.
  - cbn. lia.
  - cbn [repeat fold_left]. rewrite IH. change (Z.of_N (48 - 48)) with 0%Z.
    rewrite Nat2Z.inj_succ, Z.pow_succ_r by lia. lia.
Qed.

Lemma digits_value_zeros_after (ds : list N) (j : nat) :
  JSON.digits_value (ds ++ repeat 48 j) = (JSON.digits_value ds * 10 ^ Z.of_nat j)%Z.
Proof. rewrite digits_value_app. apply fold_zeros. Qed.

Lemma digits_value_zeros_before (ds : list N) (j : nat) :
  JSON.digits_value (repeat 48 j ++ ds) = JSON.digits_value ds.
Proof.
  rewrite digits_value_app.
  replace (JSON.digits_value (repeat 48 j)) with 0%Z; [reflexivity|].
  change (JSON.digits_value (repeat 48 j)) with (JSON.digits_value ([] ++ repeat 48 j)).
  rewrite digits_value_zeros_after. reflexivity.
Qed.

Lemma is_digit_bounds (d : N) : Js.is_digit d = true <-> 48 <= d <= 57.
Proof.
  unfold Js.is_digit, Js.in_range. rewrite andb_true_iff, !N.leb_le. tauto.
Qed.

Lemma digits_value_bound (ds : list N) :
  Forall (fun d => Js.is_digit d = true) ds ->
  (0 <= JSON.digits_value ds < 10 ^ Z.of_nat (length ds))%Z.
Proof.
  induction ds as [|d ds IH] using rev_ind; intros H.
  - cbn. lia.
  - apply Forall_app in H. destruct H as [H1 H2]. specialize (IH H1).
    inversion H2 as [|? ? Hd _]; subst. apply is_digit_bounds in Hd.
    rewrite digits_value_snoc, length_app. cbn [length].
    replace (Z.of_nat (length ds + 1)) with (Z.succ (Z.of_nat (length ds))) by lia.
    rewrite Z.pow_succ_r by lia. lia.
Qed.

Lemma pretty_N_char_byte (x : N) :
  x < 10 -> N_of_ascii (pretty_N_char x) = 48 + x.
Proof.
  intros H. remember (N.to_nat x) as n eqn:Hn.
  assert (E : x = N.of_nat n) by lia. subst x. clear Hn.
  do 10 (destruct n as [|n]; [reflexivity|]). lia.
Qed.

(** The digits that [pretty] writes for a positive number: at least
    one, the first of them not 0, and their value the number. *)
Lemma pretty_N_go_digits (x : N) (s : string) :
  0 < x ->
  exists ds,
    Js.bytes (pretty_N_go x s) = ds ++ Js.bytes s
    /\ Forall (fun d => Js.is_digit d = true) ds
    /\ (exists d r, ds = d :: r /\ d <> 48)
    /\ JSON.digits_value ds = Z.of_N x.
Proof.
  revert s. induction (N.lt_wf_0 x) as [x _ IH]. intros s Hx.
  rewrite pretty_N_go_step by exact Hx.
  assert (Hmod : x mod 10 < 10) by (apply N.mod_lt; lia).
  pose proof (pretty_N_char_byte (x mod 10) Hmod) as Hc.
  pose proof (N.div_mod x 10 ltac:(lia)) as Hdm.
  assert (Hlt : x / 10 < x) by (apply N.div_lt; lia).
  revert IH Hmod Hc Hdm Hlt.
  generalize (x mod 10) as r. generalize (x / 10) as q. intros q r IH Hmod Hc Hdm Hlt.
  assert (Hdigit : Js.is_digit (48 + r) = true) by (apply is_digit_bounds; lia).
  destruct (N.eq_dec q 0) as [E|E].
  - subst q. rewrite pretty_N_go_0.
    exists [48 + r]. split; [unfold Js.bytes; cbn; now rewrite Hc|].
    split; [now constructor|]. split; [exists (48 + r), []; split; [reflexivity|lia]|].
    unfold JSON.digits_value. cbn. lia.
  - destruct (IH q Hlt (String (pretty_N_char r) s))
      as (ds & Hb & Hds & (d & r' & -> & Hd) & Hv); [lia|].
    exists ((d :: r') ++ [48 + r]). split.
    { rewrite Hb. change (Js.bytes (String (pretty_N_char r) s))
        with (N_of_ascii (pretty_N_char r) :: Js.bytes s).
      rewrite Hc, <- app_assoc. reflexivity. }
    split; [apply Forall_app; split; [exact Hds | now constructor]|].
    split; [exists d, (r' ++ [48 + r]); now split|].
    rewrite digits_value_snoc, Hv. lia.
Qed.

Lemma pretty_abs_digits (m : Z) :
  m <> 0%Z ->
  exists d r,
    Js.bytes (pretty (Z.abs m)) = d :: r
    /\ Forall (fun d => Js.is_digit d = true) (d :: r)
    /\ d <> 48
    /\ JSON.digits_value (d :: r) = Z.abs m.
Proof.
  intros Hm. destruct (Z.abs m) as [|p|p] eqn:E; [lia| |lia].
  unfold pretty, pretty_Z, pretty, pretty_positive, pretty, pretty_N.
  destruct (decide (N.pos p = 0)) as [H|_]; [discriminate|].
  destruct (pretty_N_go_digits (N.pos p) "" ltac:(lia))
    as (ds & Hb & Hds & (d & r & -> & Hd) & Hv).
  exists d, r. rewrite Hb, app_nil_r. repeat split; auto.
Qed.

End DecimalDigits.

Section JsonNumbers.

Lemma closes_cases (rest : list N) :
  closes rest = true ->
  rest = [] \/ exists r, rest = 44 :: r \/ rest = 93 :: r \/ rest = 125 :: r.
Proof.
  destruct rest as [|c r]; [now left|]. cbn. intros H. right. exists r.
  apply orb_true_iff in H. destruct H as [H|H];
    [apply orb_true_iff in H; destruct H as [H|H]|]; apply N.eqb_eq in H; subst; auto.
Qed.

Lemma take_digits_closes (rest : list N) :
  closes rest = true -> JSON.take_digits rest = ([], rest).
Proof.
  intros H. destruct (closes_cases rest H) as [-> | (r & [-> | [-> | ->]])]; reflexivity.
Qed.

Lemma take_digits_app (ds rest : list N) :
  Forall (fun d => Js.is_digit d = true) ds ->
  JSON.take_digits rest = ([], rest) ->
  JSON.take_digits (ds ++ rest) = (ds, rest).
Proof.
  intros Hds Hrest. induction Hds as [|d ds Hd _ IH]; [exact Hrest|].
  cbn [app JSON.take_digits]. now rewrite Hd, IH.
Qed.

Lemma sign_of_digit (d : N) (r : list N) :
  Js.is_digit d = true ->
  match d :: r with
  | 45 :: r' => (true, r')
  | _ => (false, d :: r)
  end = (false, d :: r).
Proof.
  intros H. apply is_digit_bounds in H. destruct d as [|p]; [reflexivity|].
  do 6 (destruct p as [p|p|]; try reflexivity). lia.
Qed.

(** A number text without exponent is read as the digits say. *)
Lemma parse_number_shape (neg : bool) (d : N) (ipr fp rest : list N) :
  Forall (fun d => Js.is_digit d = true) (d :: ipr) ->
  (d = 48 -> ipr = []) ->
  Forall (fun d => Js.is_digit d = true) fp ->
  closes rest = true ->
  JSON.parse_number ((if neg then [45] else []) ++ (d :: ipr)
                     ++ match fp with [] => [] | _ => 46 :: fp end ++ rest)
  = let m := JSON.digits_value ((d :: ipr) ++ fp) in
    let '(m', e') := Number.normalize (if neg then - m else m)%Z
                                      (0 - Z.of_nat (length fp))%Z in
    Some (VNum m' e', rest).
Proof.
  intros Hip Hzero Hfp Hrest.
  assert (Hd : Js.is_digit d = true) by now inversion Hip.
  assert (Hstop : JSON.take_digits (match fp with [] => [] | _ => 46 :: fp end ++ rest)
                  = ([], match fp with [] => [] | _ => 46 :: fp end ++ rest)).
  { destruct fp; [now apply take_digits_closes | reflexivity]. }
  assert (Hlead : (d =? 48) && negb match ipr with [] => true | _ => false end = false).
  { destruct (N.eqb_spec d 48) as [E|E]; [|reflexivity]. now rewrite (Hzero E). }
  unfold JSON.parse_number.
  assert (Hsign : match (if neg then [45] else []) ++ (d :: ipr)
                        ++ match fp with [] => [] | _ => 46 :: fp end ++ rest with
                  | 45 :: r => (true, r)
                  | _ => (false, (if neg then [45] else []) ++ (d :: ipr)
                                 ++ match fp with [] => [] | _ => 46 :: fp end ++ rest)
                  end
                  = (neg, (d :: ipr) ++ match fp with [] => [] | _ => 46 :: fp end ++ rest)).
  { destruct neg; [reflexivity|]. cbn [app]. now apply sign_of_digit. }
  rewrite Hsign. rewrite (take_digits_app (d :: ipr) _ Hip Hstop). rewrite Hlead.
  cbv zeta.
  set (ans := Number.normalize
                (if neg then (- JSON.digits_value ((d :: ipr) ++ fp))%Z
                 else JSON.digits_value ((d :: ipr) ++ fp))
                (0 - Z.of_nat (length fp))%Z).
  destruct fp as [|f fp].
  - change ([] ++ rest) with rest.
    destruct (closes_cases rest Hrest) as [-> | (r & [-> | [-> | ->]])];
      repeat match goal with
             | |- context [(?c =? 101) || (?c =? 69)] =>
                 change ((c =? 101) || (c =? 69)) with false
             end;
      cbv iota beta; fold ans; destruct ans; reflexivity.
  - change ((46 :: f :: fp) ++ rest) with (46 :: (f :: fp) ++ rest). cbv iota beta.
    rewrite (take_digits_app (f :: fp) rest Hfp (take_digits_closes rest Hrest)).
    destruct (closes_cases rest Hrest) as [-> | (r & [-> | [-> | ->]])];
      repeat match goal with
             | |- context [(?c =? 101) || (?c =? 69)] =>
                 change ((c =? 101) || (c =? 69)) with false
             end;
      cbv iota beta; fold ans; destruct ans; reflexivity.
Qed.

End JsonNumbers.

Section JsonNumberTexts.

Lemma normalize_aux_lowest (fuel : nat) (m e : Z) :
  (m mod 10 <> 0)%Z -> Number.normalize_aux fuel m e = (m, e).
Proof.
  intros H. destruct fuel as [|f]; [reflexivity|]. cbn.
  now rewrite (proj2 (Z.eqb_neq _ _) H).
Qed.

Lemma normalize_aux_strip (j fuel : nat) (m e : Z) :
  (m mod 10 <> 0)%Z -> (j <= fuel)%nat ->
  Number.normalize_aux fuel (m * 10 ^ Z.of_nat j) e = (m, (e + Z.of_nat j)%Z).
Proof.
  intros Hm. revert fuel e. induction j as [|j IH]; intros fuel e Hf.
  - rewrite Z.mul_1_r, Z.add_0_r. now apply normalize_aux_lowest.
  - destruct fuel as [|f]; [lia|]. cbn [Number.normalize_aux].
    rewrite Nat2Z.inj_succ, Z.pow_succ_r by lia.
    replace (m * (10 * 10 ^ Z.of_nat j))%Z with (m * 10 ^ Z.of_nat j * 10)%Z by lia.
    rewrite Z.mod_mul by lia. rewrite Z.eqb_refl. rewrite Z.div_mul by lia.
    rewrite IH by lia. f_equal. lia.
Qed.

Lemma bytes_zeros (n : Z) : Js.bytes (Number.zeros n) = repeat 48 (Z.to_nat n).
Proof.
  unfold Number.zeros. apply bytes_of_bytes.
  induction (Z.to_nat n) as [|j IH]; [constructor|]. constructor; [reflexivity | exact IH].
Qed.

Lemma bytes_substring (a b : nat) (s : string) :
  Js.bytes (substring a b s) = firstn b (skipn a (Js.bytes s)).
Proof.
  revert a b. induction s as [|c s IH]; intros a b.
  - destruct a, b; reflexivity.
  - destruct a as [|a].
    + destruct b as [|b]; [reflexivity|].
      cbn [substring]. change (Js.bytes (String c (substring 0 b s)))
        with (N_of_ascii c :: Js.bytes (substring 0 b s)).
      rewrite IH. reflexivity.
    + cbn [substring]. rewrite IH. reflexivity.
Qed.

Lemma pretty_length_bound (x : Z) (j : nat) :
  (10 ^ Z.of_nat j <= Z.abs x)%Z -> (j <= String.length (pretty (Z.abs x)))%nat.
Proof.
  intros H. assert (Hx : x <> 0%Z) by (pose proof (Z.pow_pos_nonneg 10 (Z.of_nat j)); lia).
  destruct (pretty_abs_digits x Hx) as (d & r & Hb & Hds & _ & Hv).
  rewrite <- bytes_length, Hb. pose proof (digits_value_bound _ Hds) as B.
  rewrite Hv in B.
  assert (L : (10 ^ Z.of_nat j < 10 ^ Z.of_nat (length (d :: r)))%Z) by lia.
  apply Z.pow_lt_mono_r_iff in L; lia.
Qed.

(** The text of a plain number is read back as that number. *)
Lemma parse_number_toString (m e : Z) (rest : list N) :
  plain_number m e = true ->
  closes rest = true ->
  JSON.parse_number (Js.bytes (Number.toString m e) ++ rest) = Some (VNum m e, rest).
Proof.
  unfold plain_number. intros H Hrest. apply orb_true_iff in H.
  destruct H as [H|H].
  { apply andb_true_iff in H. destruct H as [Hm He].
    apply Z.eqb_eq in Hm, He. subst.
    change (Js.bytes (Number.toString 0 0)) with ([] ++ [48] ++ []).
    rewrite <- !app_assoc.
    exact (parse_number_shape false 48 [] [] rest ltac:(repeat constructor)
             ltac:(reflexivity) ltac:(constructor) Hrest). }
  apply andb_true_iff in H. destruct H as [Hlow Hk]. cbv zeta in Hk.
  apply negb_true_iff, Z.eqb_neq in Hlow.
  apply andb_true_iff in Hk. destruct Hk as [Hk1 Hk2].
  apply Z.ltb_lt in Hk1. apply Z.leb_le in Hk2.
  assert (Hm : m <> 0%Z) by (intros ->; now apply Hlow).
  destruct (pretty_abs_digits m Hm) as (d & r & Hb & Hds & Hd & Hv).
  assert (Hn : String.length (pretty (Z.abs m)) = length (d :: r))
    by now rewrite <- bytes_length, Hb.
  unfold Number.toString, Number.normalize.
  rewrite (proj2 (Z.eqb_neq m 0) Hm), (normalize_aux_lowest _ m e Hlow).
  rewrite (proj2 (Z.eqb_neq m 0) Hm). cbv zeta. rewrite Hn in *.
  set (n := Z.of_nat (length (d :: r))) in *.
  assert (Hnpos : (0 < n)%Z) by (subst n; cbn [length]; lia).
  set (neg := (m <? 0)%Z).
  assert (Hsign : Js.bytes (if neg then "-" else "") = if neg then [45] else [])
    by now destruct neg.
  assert (Habs : (if neg then - Z.abs m else Z.abs m)%Z = m).
  { subst neg. destruct (Z.ltb_spec m 0); lia. }
  rewrite bytes_app, Hsign.
  destruct ((n <=? n + e)%Z && (n + e <=? 21)%Z) eqn:C1.
  { (* an integer: the digits, then zeros *)
    apply andb_true_iff in C1. destruct C1 as [C1 _]. apply Z.leb_le in C1.
    rewrite bytes_app, Hb, bytes_zeros.
    replace (Z.to_nat (n + e - n)) with (Z.to_nat e) by lia.
    match goal with |- JSON.parse_number ?x = _ =>
      replace x with ((if neg then [45] else []) ++ (d :: r ++ repeat 48 (Z.to_nat e))
                        ++ [] ++ rest)
        by (destruct neg; cbn [app]; rewrite <- ?app_assoc; reflexivity) end.
    pose proof (parse_number_shape neg d (r ++ repeat 48 (Z.to_nat e)) [] rest) as P.
    cbv zeta in P. rewrite app_nil_r in P. cbn [length] in P.
    change (d :: r ++ repeat 48 (Z.to_nat e)) with ((d :: r) ++ repeat 48 (Z.to_nat e)) in P.
    rewrite digits_value_zeros_after, Hv in P. 
    assert (Hnorm : Number.normalize
                      (if neg then (- (Z.abs m * 10 ^ Z.of_nat (Z.to_nat e)))%Z
                       else (Z.abs m * 10 ^ Z.of_nat (Z.to_nat e))%Z)
                      (0 - Z.of_nat 0)%Z = (m, e)).
    { replace (if neg then (- (Z.abs m * 10 ^ Z.of_nat (Z.to_nat e)))%Z
               else (Z.abs m * 10 ^ Z.of_nat (Z.to_nat e))%Z)
        with (m * 10 ^ Z.of_nat (Z.to_nat e))%Z
        by (rewrite <- Habs at 1; destruct neg; lia).
      unfold Number.normalize.
      assert (Hpow : (0 < 10 ^ Z.of_nat (Z.to_nat e))%Z) by (apply Z.pow_pos_nonneg; lia).
      replace (m * 10 ^ Z.of_nat (Z.to_nat e) =? 0)%Z with false
        by (symmetry; apply Z.eqb_neq; nia).
      rewrite normalize_aux_strip; [f_equal; lia | exact Hlow |].
      apply pretty_length_bound. rewrite Z.abs_mul, (Z.abs_eq (10 ^ _)) by lia. nia. }
    rewrite Hnorm in P. apply P.
    - apply Forall_app. split; [exact Hds|]. clear. induction (Z.to_nat e); constructor; auto.
    - intros E. contradiction.
    - constructor.
    - exact Hrest. }
  destruct ((0 <? n + e)%Z && (n + e <=? 21)%Z) eqn:C2.
  { (* a point inside the digits *)
    apply andb_true_iff in C2. destruct C2 as [C2 _]. apply Z.ltb_lt in C2.
    assert (Hlt : (n + e < n)%Z).
    { apply andb_false_iff in C1. destruct C1 as [C1|C1];
        [apply Z.leb_gt in C1; lia | apply Z.leb_gt in C1; lia]. }
    rewrite !bytes_app, !bytes_substring, Hb.
    change (Js.bytes ".") with [46].
    replace (Z.to_nat (n - (n + e))) with (length (d :: r) - Z.to_nat (n + e))%nat
      by (subst n; lia).
    remember (Z.to_nat (n + e)) as k eqn:Ek.
    change (skipn 0 (d :: r)) with (d :: r).
    assert (Hk : (0 < k < length (d :: r))%nat) by (subst k n; lia).
    assert (Ee : e = (Z.of_nat k - n)%Z) by lia. clear Ek.
    rewrite (firstn_all2 (n := (length (d :: r) - k)%nat)) by (rewrite length_skipn; lia).
    destruct k as [|k]; [lia|]. cbn [firstn].
    destruct (skipn (S k) (d :: r)) as [|f fp] eqn:Hfp.
    { apply (f_equal (@length N)) in Hfp. rewrite length_skipn in Hfp. cbn [length] in *. lia. }
    match goal with |- JSON.parse_number ?x = _ =>
      replace x with ((if neg then [45] else []) ++ (d :: firstn k r)
                        ++ (46 :: f :: fp) ++ rest)
        by (destruct neg; cbn [app]; rewrite <- ?app_assoc; reflexivity) end.
    pose proof (parse_number_shape neg d (firstn k r) (f :: fp) rest) as P.
    cbv zeta in P. rewrite <- Hfp in P.
    replace ((d :: firstn k r) ++ skipn (S k) (d :: r)) with (d :: r) in P
      by (symmetry; apply (firstn_skipn (S k) (d :: r))).
    rewrite Hv in P.
    assert (Hlen : (0 - Z.of_nat (length (skipn (S k) (d :: r))))%Z = e).
    { rewrite length_skipn. subst n. cbn [length] in *. lia. }
    rewrite Hlen, Habs in P. unfold Number.normalize in P.
    rewrite (proj2 (Z.eqb_neq m 0) Hm), (normalize_aux_lowest _ m e Hlow) in P.
    rewrite Hfp in P. apply P.
    - inversion Hds as [|? ? H1 H2]; subst. constructor; [exact H1|].
      rewrite <- (firstn_skipn k r) in H2. now apply Forall_app in H2.
    - intros E. contradiction.
    - rewrite <- Hfp. rewrite <- (firstn_skipn (S k) (d :: r)) in Hds.
      now apply Forall_app in Hds.
    - exact Hrest. }
  (* zero, a point, zeros, and the digits *)
  assert (C3 : ((-6 <? n + e)%Z && (n + e <=? 0)%Z) = true).
  { apply andb_true_iff. split; [now apply Z.ltb_lt|]. apply Z.leb_le.
    apply andb_false_iff in C2. destruct C2 as [C2|C2];
      [apply Z.ltb_ge in C2; lia | apply Z.leb_gt in C2; lia]. }
  rewrite C3. apply andb_true_iff in C3. destruct C3 as [_ C3]. apply Z.leb_le in C3.
  rewrite !bytes_app, bytes_zeros, Hb.
  change (Js.bytes "0.") with [48; 46].
  set (j := Z.to_nat (- (n + e))).
  destruct (repeat 48 j ++ d :: r) as [|f fp] eqn:Hfp.
  { destruct (repeat 48 j); discriminate. }
  match goal with |- JSON.parse_number ?x = _ =>
    replace x with ((if neg then [45] else []) ++ (48 :: [])
                      ++ (46 :: f :: fp) ++ rest)
      by (destruct neg; cbn [app]; rewrite <- ?app_assoc; reflexivity) end.
  pose proof (parse_number_shape neg 48 [] (f :: fp) rest) as P.
  cbv zeta in P. rewrite <- Hfp in P.
  change ([48] ++ repeat 48 j ++ d :: r) with (repeat 48 (S j) ++ d :: r) in P.
  rewrite digits_value_zeros_before, Hv in P.
  assert (Hlen : Z.of_nat (length (repeat 48%N j ++ d :: r)) = (- e)%Z).
  { rewrite length_app, repeat_length. subst n j. cbn [length] in *. lia. }
  rewrite Hlen, Habs in P. replace (0 - - e)%Z with e in P by lia. unfold Number.normalize in P.
  rewrite (proj2 (Z.eqb_neq m 0) Hm), (normalize_aux_lowest _ m e Hlow) in P.
  rewrite Hfp in P. apply P.
  - repeat constructor.
  - reflexivity.
  - rewrite <- Hfp. apply Forall_app. split; [|exact Hds].
    clear. induction j; constructor; auto.
  - exact Hrest.
Qed.

End JsonNumberTexts.

Section JsonTexts.

Lemma JsVal_nested_ind (P : JsVal -> Prop) :
  P VUndef -> P VNull -> (forall b, P (VBool b)) -> (forall m e, P (VNum m e)) ->
  (forall s, P (VStr s)) ->
  (forall l, Forall P l -> P (VArr l)) ->
  (forall o, Forall (fun kv => P (snd kv)) o -> P (VObj o)) ->
  forall v, P v.
Proof.
  intros HU HN HB HNum HS HA HO. fix IH 1. intros [ | | b | m e | s | l | o].
  - exact HU.
  - exact HN.
  - apply HB.
  - apply HNum.
  - apply HS.
  - apply HA. induction l as [|x l IHl]; constructor; [apply IH | exact IHl].
  - apply HO. induction o as [|[k x] o IHo]; constructor; [apply IH | exact IHo].
Qed.

Lemma bytes_concat (ss : list string) :
  Js.bytes (String.concat "," ss) = join (map Js.bytes ss).
Proof.
  induction ss as [|x r IH]; [reflexivity|].
  destruct r as [|y r]; [cbn; now rewrite app_nil_r|].
  change (String.concat "," (x :: y :: r)) with (x +:+ "," +:+ String.concat "," (y :: r)).
  rewrite !bytes_app, IH. reflexivity.
Qed.

Lemma print_arr (l : list JsVal) : print (VArr l) = 91 :: join (map print l) ++ [93].
Proof.
  unfold print at 1. cbn [JSON.stringify_val].
  rewrite !bytes_app, bytes_concat. change (Js.bytes "[") with [91].
  change (Js.bytes "]") with [93]. cbn [app]. do 3 f_equal.
  induction l as [|x r IH]; [reflexivity|]. cbn [map]. now rewrite IH.
Qed.

Lemma print_obj (o : list (string * JsVal)) :
  Forall (fun kv => snd kv <> VUndef) o ->
  print (VObj o) = 123 :: join (map member_text o) ++ [125].
Proof.
  intros H. unfold print at 1. cbn [JSON.stringify_val].
  rewrite !bytes_app, bytes_concat. change (Js.bytes "{") with [123].
  change (Js.bytes "}") with [125]. cbn [app]. do 3 f_equal.
  induction H as [|[k x] r Hx _ IH]; [reflexivity|]. cbn [map]. rewrite <- IH.
  cbn [snd] in Hx. unfold member_text, print. cbn [fst snd].
  destruct x; try contradiction; cbn [map]; rewrite !bytes_app; reflexivity.
Qed.

Lemma plain_not_undefined (v : JsVal) : plain v = true -> v <> VUndef.
Proof. now destruct v. Qed.

Lemma plain_items (l : list JsVal) :
  plain (VArr l) = true -> Forall (fun x => plain x = true) l.
Proof.
  induction l as [|x r IH]; [constructor|].
  change (plain (VArr (x :: r))) with (plain x && plain (VArr r)).
  intros H. apply andb_true_iff in H. destruct H. constructor; auto.
Qed.

Lemma plain_member (k : string) (x : JsVal) (r : list (string * JsVal)) :
  plain (VObj ((k, x) :: r)) = true ->
  plain_text k = true /\ Value.index_of_key k = None
  /\ Forall (fun kv => fst kv <> k) r /\ plain x = true /\ plain (VObj r) = true.
Proof.
  change (plain (VObj ((k, x) :: r)))
    with (plain_text k && fresh_name k r && plain x && plain (VObj r)).
  intros H. apply andb_true_iff in H. destruct H as [H Hr].
  apply andb_true_iff in H. destruct H as [H Hx].
  apply andb_true_iff in H. destruct H as [Hk Hf].
  unfold fresh_name in Hf. destruct (Value.index_of_key k); [discriminate|].
  apply negb_true_iff in Hf. repeat split; try assumption.
  apply Forall_forall. intros kv Hin E.
  assert (existsb (fun kv => String.eqb k (fst kv)) r = true); [|congruence].
  apply existsb_exists. exists kv. split; [now apply list_elem_of_In|].
  rewrite E. apply String.eqb_refl.
Qed.

Lemma plain_members (o : list (string * JsVal)) :
  plain (VObj o) = true -> Forall (fun kv => plain (snd kv) = true) o.
Proof.
  induction o as [|[k x] r IH]; [constructor|]. intros H.
  apply plain_member in H. destruct H as (_ & _ & _ & Hx & Hr). constructor; auto.
Qed.

Lemma set_fresh (k : string) (v : JsVal) (acc : list (string * JsVal)) :
  Value.index_of_key k = None -> ~ In k (map fst acc) ->
  Obj.set k v acc = acc ++ [(k, v)].
Proof.
  intros Hk. induction acc as [|[k' v'] r IH]; intros Hin; [reflexivity|].
  cbn [Obj.set]. cbn [map fst In] in Hin.
  destruct (String.eqb_spec k k') as [->|_]; [tauto|].
  rewrite Hk, IH by tauto. reflexivity.
Qed.

Lemma parse_number_first (l : list N) (x : JsVal * list N) :
  JSON.parse_number l = Some x ->
  exists c t, l = c :: t /\ (c = 45 \/ Js.is_digit c = true).
Proof.
  destruct l as [|c t]; [discriminate|]. intros H. exists c, t. split; [reflexivity|].
  destruct (N.eq_dec c 45) as [->|Hc]; [now left|]. right.
  destruct (Js.is_digit c) eqn:Hd; [reflexivity|]. exfalso.
  unfold JSON.parse_number in H.
  assert (E : match c :: t with 45 :: r => (true, r) | _ => (false, c :: t) end
              = (false, c :: t)).
  { destruct c as [|p]; [reflexivity|].
    do 6 (destruct p as [p|p|]; try reflexivity). congruence. }
  rewrite E in H. cbn [JSON.take_digits] in H. rewrite Hd in H. discriminate.
Qed.

Lemma print_first (v : JsVal) :
  plain v = true -> exists c t, print v = c :: t /\ opens c = true.
Proof.
  destruct v as [ | | b | m e | s | l | o]; intros H.
  - discriminate.
  - now exists 110, [117; 108; 108].
  - destruct b; [now exists 116, [114; 117; 101] | now exists 102, [97; 108; 115; 101]].
  - pose proof (parse_number_toString m e [] H eq_refl) as P. rewrite app_nil_r in P.
    apply parse_number_first in P. destruct P as (c & t & E & Hc).
    exists c, t. split; [exact E|]. unfold opens.
    destruct Hc as [->|Hc]; [reflexivity|]. rewrite Hc.
    now rewrite !orb_true_r.
  - unfold print. cbn [JSON.stringify_val]. rewrite (bytes_quote _ H). now eexists _, _.
  - rewrite print_arr. now eexists _, _.
  - rewrite print_obj. + now eexists _, _.
    + apply plain_members in H. eapply Forall_impl; [exact H|].
      intros kv. apply plain_not_undefined.
Qed.

Lemma opens_not_ws (c : N) : opens c = true -> JSON.is_ws c = false.
Proof.
  unfold opens, JSON.is_ws, Js.is_digit, Js.in_range. intros H.
  repeat (apply orb_true_iff in H; destruct H as [H|H]);
    try (apply N.eqb_eq in H; subst; reflexivity).
  apply andb_true_iff in H. destruct H as [H1 H2].
  apply N.leb_le in H1. apply N.leb_le in H2.
  repeat (apply orb_false_iff; split); apply N.eqb_neq; lia.
Qed.

Lemma opens_cases (c : N) :
  opens c = true ->
  c = 34 \/ c = 45 \/ c = 91 \/ c = 102 \/ c = 110 \/ c = 116 \/ c = 123
  \/ (48 <= c <= 57).
Proof.
  unfold opens, Js.is_digit, Js.in_range. intros H.
  repeat (apply orb_true_iff in H; destruct H as [H|H]);
    try (apply N.eqb_eq in H; subst; tauto).
  apply andb_true_iff in H. destruct H as [H1 H2].
  apply N.leb_le in H1. apply N.leb_le in H2. repeat right. lia.
Qed.

Lemma print_length (v : JsVal) : plain v = true -> (1 <= length (print v))%nat.
Proof.
  intros H. destruct (print_first v H) as (c & t & -> & _). cbn. lia.
Qed.

End JsonTexts.

Section JsonRoundTrip.

Lemma closes_not_ws (rest : list N) : closes rest = true -> JSON.skip_ws rest = rest.
Proof.
  intros H. destruct (closes_cases rest H) as [-> | (r & [-> | [-> | ->]])]; reflexivity.
Qed.

Lemma opens_skip_ws (c : N) (t : list N) :
  opens c = true -> JSON.skip_ws (c :: t) = c :: t.
Proof. intros H. cbn [JSON.skip_ws]. now rewrite (opens_not_ws c H). Qed.

Lemma array_opening (f : nat) (l : list N) (c : N) (t : list N) :
  l = c :: t -> opens c = true ->
  match JSON.skip_ws l with
  | 93 :: r' => Some (VArr [], r')
  | _ => JSON.parse_go f (JSON.MElements []) l
  end = JSON.parse_go f (JSON.MElements []) l.
Proof.
  intros -> H. rewrite (opens_skip_ws c t H). apply opens_cases in H.
  destruct c as [|p]; [reflexivity|].
  do 7 (destruct p as [p|p|]; try reflexivity). lia.
Qed.

Lemma parse_elements (l : list JsVal) :
  Forall RoundTrip l -> Forall (fun x => plain x = true) l -> l <> [] ->
  forall (fuel : nat) (acc : list JsVal) (rest : list N),
    (length (join (map print l)) + 1 < fuel)%nat ->
    JSON.parse_go fuel (JSON.MElements acc) (join (map print l) ++ 93 :: rest)
    = Some (VArr (rev acc ++ l), rest).
Proof.
  induction l as [|x r IH]; [congruence|].
  intros HR HP _ fuel acc rest Hf.
  inversion HR as [|? ? Hx HRr]; subst. inversion HP as [|? ? Px HPr]; subst.
  pose proof (print_length x Px) as Lx.
  destruct fuel as [|f]; [lia|]. cbn [JSON.parse_go].
  destruct r as [|y r].
  - cbn [map join] in *. rewrite app_nil_r in *.
    rewrite (Hx Px f (93 :: rest) eq_refl) by lia. reflexivity.
  - change (join (map print (x :: y :: r)))
      with (print x ++ 44 :: join (map print (y :: r))) in *.
    rewrite length_app in Hf. cbn [length] in Hf.
    rewrite <- app_assoc. cbn [app].
    rewrite (Hx Px f (44 :: join (map print (y :: r)) ++ 93 :: rest) eq_refl) by lia.
    cbn [JSON.skip_ws]. change (JSON.is_ws 44) with false. cbv iota.
    rewrite (IH HRr HPr ltac:(discriminate) f (x :: acc) rest) by lia.
    cbn [rev]. now rewrite <- app_assoc.
Qed.

Lemma parse_members (o : list (string * JsVal)) :
  Forall (fun kv => RoundTrip (snd kv)) o -> plain (VObj o) = true -> o <> [] ->
  forall (fuel : nat) (acc : list (string * JsVal)) (rest : list N),
    Forall (fun kv => ~ In (fst kv) (map fst acc)) o ->
    (length (join (map member_text o)) + 1 < fuel)%nat ->
    JSON.parse_go fuel (JSON.MMembers acc) (join (map member_text o) ++ 125 :: rest)
    = Some (VObj (acc ++ o), rest).
Proof.
  induction o as [|[k x] r IH]; [congruence|].
  intros HR HP _ fuel acc rest Hacc Hf.
  inversion HR as [|? ? Hx HRr]; subst. cbn [snd] in Hx.
  inversion Hacc as [|? ? Hk Haccr]; subst. cbn [fst] in Hk.
  destruct (plain_member k x r HP) as (Pk & Ik & Fk & Px & Pr).
  pose proof (print_length x Px) as Lx.
  destruct fuel as [|f]; [lia|].
  set (tail := match r with
               | [] => 125 :: rest
               | _ => 44 :: join (map member_text r) ++ 125 :: rest
               end).
  assert (Etext : join (map member_text ((k, x) :: r)) ++ 125 :: rest
                  = 34 :: flat_map escape (Js.bytes k) ++ 34 :: 58 :: print x ++ tail).
  { cbn [map join]. unfold member_text at 1. cbn [fst snd].
    rewrite (bytes_quote k Pk). subst tail. destruct r.
    - cbn [map app]. rewrite app_nil_r.
      repeat (progress (rewrite <- ?app_assoc; cbn [app])). reflexivity.
    - cbn [map app]. repeat (progress (rewrite <- ?app_assoc; cbn [app])). reflexivity. }
  assert (Ltext : (length (print x) + 2
                   + match r with [] => 0 | _ => 1 + length (join (map member_text r)) end
                   <= length (join (map member_text ((k, x) :: r))))%nat).
  { cbn [map join].
    change (member_text (k, x)) with (Js.bytes (JSON.quote k) ++ 58 :: print x).
    rewrite (bytes_quote k Pk). destruct r; cbn [map app length];
      rewrite !length_app; cbn [length]; rewrite ?length_app; cbn [length]; lia. }
  rewrite Etext. cbn [JSON.parse_go JSON.skip_ws]. change (JSON.is_ws 34) with false.
  cbv iota.
  rewrite parse_string_quoted
    by (rewrite length_app; pose proof (flat_map_escape_length (Js.bytes k)); lia).
  cbn [rev app]. rewrite of_bytes_bytes.
  cbn [JSON.skip_ws]. change (JSON.is_ws 58) with false. cbv iota.
  assert (Ctail : closes tail = true) by (subst tail; now destruct r).
  rewrite (Hx Px f tail Ctail) by lia.
  rewrite (set_fresh k x acc Ik Hk).
  subst tail. destruct r as [|kv r].
  - reflexivity.
  - cbn [JSON.skip_ws]. change (JSON.is_ws 44) with false. cbv iota.
    rewrite (IH HRr Pr ltac:(discriminate) f (acc ++ [(k, x)]) rest).
    + now rewrite <- app_assoc.
    + apply Forall_forall. intros kv' Hin. rewrite map_app, in_app_iff.
      cbn [map fst In]. intros [Hi | [Hi | []]].
      * rewrite Forall_forall in Haccr. exact (Haccr kv' Hin Hi).
      * rewrite Forall_forall in Fk. exact (Fk kv' Hin (eq_sym Hi)).
    + lia.
Qed.

Lemma expect_word (word : string) (v : JsVal) (rest : list N) :
  JSON.expect word v (Js.bytes word ++ rest) = Some (v, rest).
Proof.
  unfold JSON.expect. rewrite take_app_length, drop_app_length.
  now rewrite bool_decide_eq_true_2.
Qed.

(** Every plain value is read back from its text. *)
Lemma round_trip (v : JsVal) : RoundTrip v.
Proof.
  induction v as [ | | b | m e | s | l IHl | o IHo] using JsVal_nested_ind;
    intros Hp fuel rest Hrest Hf; (destruct fuel as [|f]; [lia|]).
  - discriminate.
  - exact (expect_word "null" VNull rest).
  - destruct b; [exact (expect_word "true" (VBool true) rest)
                | exact (expect_word "false" (VBool false) rest)].
  - destruct (print_first (VNum m e) Hp) as (c & t & Ec & Hc).
    pose proof (parse_number_toString m e rest Hp Hrest) as P.
    change (Js.bytes (Number.toString m e)) with (print (VNum m e)) in P.
    rewrite Ec in *. cbn [app] in *. cbn [JSON.parse_go].
    rewrite (opens_skip_ws c _ Hc).
    assert (Hnum : c = 45 \/ Js.is_digit c = true).
    { destruct (parse_number_first _ _ P) as (c' & t' & E & H). now inversion E. }
    assert (Hne : (c =? 123) = false /\ (c =? 91) = false /\ (c =? 34) = false
                  /\ (c =? 116) = false /\ (c =? 102) = false /\ (c =? 110) = false).
    { destruct Hnum as [->|Hd]; [now repeat split|].
      unfold Js.is_digit, Js.in_range in Hd. apply andb_true_iff in Hd.
      destruct Hd as [H1 H2]. apply N.leb_le in H1. apply N.leb_le in H2.
      repeat split; apply N.eqb_neq; lia. }
    destruct Hne as (-> & -> & -> & -> & -> & ->). exact P.
  - unfold print in *. cbn [JSON.stringify_val] in *. rewrite (bytes_quote s Hp) in *.
    cbn [app JSON.parse_go JSON.skip_ws]. change (JSON.is_ws 34) with false. cbv iota.
    change (34 =? 123) with false. change (34 =? 91) with false.
    change (34 =? 34) with true. cbv iota.
    rewrite <- app_assoc. cbn [app]. rewrite parse_string_quoted.
    + cbn [rev app]. now rewrite of_bytes_bytes.
    + rewrite length_app. pose proof (flat_map_escape_length (Js.bytes s)). lia.
  - rewrite print_arr in *. cbn [app length] in *. rewrite length_app in Hf.
    cbn [length] in Hf. rewrite <- app_assoc. cbn [app].
    cbn [JSON.parse_go JSON.skip_ws]. change (JSON.is_ws 91) with false. cbv iota.
    change (91 =? 123) with false. change (91 =? 91) with true. cbv iota.
    destruct l as [|x r]; [reflexivity|].
    pose proof (plain_items _ Hp) as HP. inversion HP as [|? ? Px _]; subst.
    destruct (print_first x Px) as (c & t & Ec & Hc).
    assert (Ehead : exists t', join (map print (x :: r)) ++ 93 :: rest = c :: t').
    { cbn [map join]. rewrite Ec. cbn [app]. now eexists. }
    destruct Ehead as (t' & Ehead).
    rewrite (array_opening f _ c t' Ehead Hc).
    rewrite (parse_elements (x :: r) IHl HP ltac:(discriminate) f [] rest) by lia.
    reflexivity.
  - assert (Hdef : Forall (fun kv => snd kv <> VUndef) o).
    { eapply Forall_impl; [exact (plain_members o Hp)|].
      intros kv. apply plain_not_undefined. }
    rewrite (print_obj o Hdef) in *. cbn [app length] in *. rewrite length_app in Hf.
    cbn [length] in Hf. rewrite <- app_assoc. cbn [app].
    cbn [JSON.parse_go JSON.skip_ws]. change (JSON.is_ws 123) with false. cbv iota.
    change (123 =? 123) with true. cbv iota.
    destruct o as [|[k x] r]; [reflexivity|].
    destruct (plain_member k x r Hp) as (Pk & _).
    assert (Ehead : exists t', join (map member_text ((k, x) :: r)) ++ 125 :: rest
                               = 34 :: t').
    { cbn [map join]. unfold member_text at 1. cbn [fst].
      rewrite (bytes_quote k Pk). cbn [app]. now eexists. }
    destruct Ehead as (t' & Ehead).
    rewrite Ehead at 1. cbn [JSON.skip_ws]. change (JSON.is_ws 34) with false. cbv iota.
    rewrite (parse_members ((k, x) :: r) IHo Hp ltac:(discriminate) f [] rest).
    + reflexivity.
    + apply Forall_forall. intros kv _ [].
    + lia.
Qed.

(** [JSON.parse(JSON.stringify(v))] is [v] for a plain value. *)
Lemma parse_stringify (v : JsVal) :
  plain v = true -> JSON.parse (JSON.stringify_val v) = Ok v.
Proof.
  intros Hp. unfold JSON.parse.
  pose proof (round_trip v Hp (2 * length (print v) + 2)%nat [] eq_refl ltac:(lia)) as R.
  rewrite app_nil_r in R. unfold print in R. cbv zeta. now rewrite R.
Qed.

End JsonRoundTrip.

(* ===================================================================== *)
(** * Properties: what is pushed on a list is read back *)
(* ===================================================================== *)

Section QueueRoundTrip.

Lemma decode_stringify (v : JsVal) :
  plain v = true -> decode (JSON.stringify_val v) = Ok v.
Proof.
  intros Hp. unfold decode.
  destruct (String.eqb_spec (JSON.stringify_val v) "") as [E|_].
  - pose proof (print_length v Hp) as L. unfold print in L. rewrite E in L.
    cbn in L. lia.
  - now apply parse_stringify.
Qed.

Lemma stringify_plain (v : JsVal) :
  plain v = true -> JSON.stringify v = Some (JSON.stringify_val v).
Proof. now destruct v. Qed.

Lemma failed_of_pending_store (l : list string) (w : World) (e : Event) :
  failed (record_event e (set_redis (RedisCmd.store_list MINT_QUEUE l (redis w)) w))
  = failed w.
Proof. unfold failed. cbn. now apply list_at_store_list_ne. Qed.

Lemma processed_of_store (key : string) (l : list string) (w : World) (e : Event) :
  processed (record_event e (set_redis (RedisCmd.store_list key l (redis w)) w))
  = processed w.
Proof. reflexivity. Qed.

Lemma enqueue_each_run (items : list JsVal) (w : World) :
  Forall (fun x => plain x = true) items ->
  exists w1,
    enqueue_each items w = (Ok tt, w1)
    /\ pending w1 = rev (map JSON.stringify_val items) ++ pending w
    /\ failed w1 = failed w /\ processed w1 = processed w
    /\ minted_casts w1 = minted_casts w.
Proof.
  intros H. revert w. induction H as [|x r Hx _ IH]; intros w.
  - exists w. now repeat split.
  - cbn [enqueue_each]. unfold bind at 1.
    pose proof (enqueueCast_run x w) as E. rewrite (stringify_plain x Hx) in E.
    rewrite E. destruct (IH (queued (JSON.stringify_val x) w)) as (w1 & R & P & F & S & T).
    exists w1. split; [exact R|]. unfold queued in *. rewrite pending_store in P.
    rewrite failed_of_pending_store in F. repeat split; try assumption.
    rewrite P. cbn [map rev]. now rewrite <- app_assoc.
Qed.

Lemma dequeue_times_run (items : list JsVal) (w : World) :
  Forall (fun x => plain x = true) items ->
  pending w = rev (map JSON.stringify_val items) ->
  exists w2,
    dequeue_times (length items) w = (Ok items, w2)
    /\ pending w2 = []
    /\ failed w2 = failed w /\ processed w2 = processed w
    /\ minted_casts w2 = minted_casts w.
Proof.
  intros H. revert w. induction H as [|x r Hx _ IH]; intros w Hw.
  - exists w. now repeat split.
  - cbn [length dequeue_times]. unfold bind at 1.
    pose proof (dequeueCast_run w) as D. cbn [map rev] in Hw. rewrite Hw, last_snoc in D.
    rewrite D, (decode_stringify x Hx), removelast_last.
    set (w' := record_event _ _).
    destruct (IH w') as (w2 & R & P & F & S & T).
    { subst w'. apply pending_store. }
    exists w2. unfold bind. rewrite R. split; [reflexivity|].
    subst w'. rewrite failed_of_pending_store in F. now repeat split.
Qed.

Lemma existsb_set (k k' : string) (v : JsVal) (o : list (string * JsVal)) :
  Value.index_of_key k = None ->
  existsb (fun kv => String.eqb k' (fst kv)) (Obj.set k v o)
  = existsb (fun kv => String.eqb k' (fst kv)) o || String.eqb k' k.
Proof.
  intros Hk. induction o as [|[k1 v1] r IH]; cbn [Obj.set existsb fst].
  - now rewrite orb_false_r.
  - destruct (String.eqb_spec k k1) as [->|_].
    + cbn [existsb fst]. destruct (String.eqb k' k1), (existsb _ r); reflexivity.
    + rewrite Hk. cbn [existsb fst]. rewrite IH. now rewrite orb_assoc.
Qed.

Lemma plain_set (k : string) (v : JsVal) (o : list (string * JsVal)) :
  plain_text k = true -> Value.index_of_key k = None -> plain v = true ->
  plain (VObj o) = true -> plain (VObj (Obj.set k v o)) = true.
Proof.
  intros Pk Ik Pv. induction o as [|[k1 v1] r IH]; intros Po.
  - cbn [Obj.set]. change (plain_text k && fresh_name k [] && plain v && true = true).
    unfold fresh_name. rewrite Pk, Ik, Pv. reflexivity.
  - change (plain_text k1 && fresh_name k1 r && plain v1 && plain (VObj r) = true) in Po.
    apply andb_true_iff in Po. destruct Po as [Po Pr].
    apply andb_true_iff in Po. destruct Po as [Po P1].
    apply andb_true_iff in Po. destruct Po as [Pk1 F1].
    cbn [Obj.set]. destruct (String.eqb_spec k k1) as [->|Hne].
    + change (plain_text k1 && fresh_name k1 r && plain v && plain (VObj r) = true).
      now rewrite Pk1, F1, Pv, Pr.
    + rewrite Ik.
      change (plain_text k1 && fresh_name k1 (Obj.set k v r) && plain v1
              && plain (VObj (Obj.set k v r)) = true).
      rewrite Pk1, P1, (IH Pr). unfold fresh_name in *.
      destruct (Value.index_of_key k1); [discriminate|].
      rewrite (existsb_set k k1 v r Ik). apply negb_true_iff in F1. rewrite F1.
      destruct (String.eqb_spec k1 k); [congruence | reflexivity].
Qed.

Lemma lookup_set_eq (k : string) (v : JsVal) (o : list (string * JsVal)) :
  Value.lookup_prop k (Obj.set k v o) = Some v.
Proof.
  induction o as [|[k1 v1] r IH]; cbn [Obj.set Value.lookup_prop].
  - now rewrite String.eqb_refl.
  - destruct (String.eqb_spec k k1) as [->|Hne].
    + cbn [Value.lookup_prop]. now rewrite String.eqb_refl.
    + assert (Skip : Value.lookup_prop k ((k1, v1) :: Obj.set k v r) = Some v).
      { cbn [Value.lookup_prop]. destruct (String.eqb_spec k k1); [congruence | exact IH]. }
      assert (Here : Value.lookup_prop k ((k, v) :: (k1, v1) :: r) = Some v).
      { cbn [Value.lookup_prop]. now rewrite String.eqb_refl. }
      destruct (Value.index_of_key k), (Value.index_of_key k1); try assumption.
      destruct (_ <? _); assumption.
Qed.

Lemma lookup_set_ne (k k' : string) (v : JsVal) (o : list (string * JsVal)) :
  k' <> k -> Value.lookup_prop k' (Obj.set k v o) = Value.lookup_prop k' o.
Proof.
  intros Hne. induction o as [|[k1 v1] r IH]; cbn [Obj.set Value.lookup_prop].
  - destruct (String.eqb_spec k' k); [congruence | reflexivity].
  - assert (Skip : Value.lookup_prop k' ((k1, v1) :: Obj.set k v r)
                   = if String.eqb k' k1 then Some v1 else Value.lookup_prop k' r).
    { cbn [Value.lookup_prop]. now rewrite IH. }
    assert (Here : Value.lookup_prop k' ((k, v) :: (k1, v1) :: r)
                   = if String.eqb k' k1 then Some v1 else Value.lookup_prop k' r).
    { cbn [Value.lookup_prop]. destruct (String.eqb_spec k' k); [congruence | reflexivity]. }
    destruct (String.eqb_spec k k1) as [->|Hne1].
    + cbn [Value.lookup_prop].
      destruct (String.eqb_spec k' k1); [congruence | reflexivity].
    + destruct (Value.index_of_key k), (Value.index_of_key k1); try assumption.
      destruct (_ <? _); assumption.
Qed.

Lemma failed_store (l : list string) (w : World) (e : Event) :
  failed (record_event e (set_redis (RedisCmd.store_list FAILED_MINT_QUEUE l (redis w)) w))
  = l.
Proof. unfold failed. cbn. apply list_at_store_list. Qed.

Lemma pending_of_failed_store (l : list string) (w : World) (e : Event) :
  pending (record_event e (set_redis (RedisCmd.store_list FAILED_MINT_QUEUE l (redis w)) w))
  = pending w.
Proof. unfold pending. cbn. now apply list_at_store_list_ne. Qed.

End QueueRoundTrip.

(** X22.  Plain items (no [undefined], numbers written without an exponent,
    strings without lone surrogates, objects with distinct names that are
    no array indices) enqueued on an empty pending list come back from as
    many calls of [dequeueCast] as values equal to the ones enqueued, in
    the order of enqueueing, and the list is empty again; the failed list,
    the dedup set and the history table are as before. *)
Theorem enqueued_items_come_back_in_order (items : list JsVal) (w : World) :
  pending w = [] ->
  Forall (fun x => plain x = true) items ->
  exists w1 w2,
    enqueue_each items w = (Ok tt, w1)
    /\ pending w1 = rev (map JSON.stringify_val items)
    /\ dequeue_times (length items) w1 = (Ok items, w2)
    /\ pending w2 = []
    /\ failed w2 = failed w /\ processed w2 = processed w
    /\ minted_casts w2 = minted_casts w.
Proof.
  intros Hw Hp. destruct (enqueue_each_run items w Hp) as (w1 & R1 & P1 & F1 & S1 & T1).
  rewrite Hw, app_nil_r in P1.
  destruct (dequeue_times_run items w1 Hp P1) as (w2 & R2 & P2 & F2 & S2 & T2).
  exists w1, w2. repeat split; try assumption; congruence.
Qed.

Lemma enqueued_items_come_back_in_order_witness :
  exists w1 w2,
    enqueue_each [mint_request "0xreply1" "0xabc"; mint_request "0xreply2" "0xdef"] world0
    = (Ok tt, w1)
    /\ pending w1
       = rev (map JSON.stringify_val
                [mint_request "0xreply1" "0xabc"; mint_request "0xreply2" "0xdef"])
    /\ dequeue_times 2 w1
       = (Ok [mint_request "0xreply1" "0xabc"; mint_request "0xreply2" "0xdef"], w2)
    /\ pending w2 = []
    /\ failed w2 = failed world0 /\ processed w2 = processed world0
    /\ minted_casts w2 = minted_casts world0.
Proof.
  apply (enqueued_items_come_back_in_order
           [mint_request "0xreply1" "0xabc"; mint_request "0xreply2" "0xdef"] world0).
  - reflexivity.
  - repeat constructor.
Defined.

(** X23.  The entry that [addToFailedQueue] pushes is read back by
    [getFailedMints] at the head of its answer, before the entries that
    were there: it carries the reason under [error], the time under
    [failedAt], and every other own property of the item unchanged.  This
    holds for an item with plain own properties, a reason and a time
    without lone surrogates, and a failed list whose entries are JSON
    texts.  The pending list is not touched. *)
Theorem failed_mint_is_read_back (env : Env) (data : JsVal) (error : string)
    (olds : list JsVal) (w : World) :
  plain (VObj (Obj.own_props data)) = true ->
  plain_text error = true ->
  plain_text (now env) = true ->
  parse_all (failed w) = Ok olds ->
  exists newest w1,
    addToFailedQueue env data error w = (Ok (N.of_nat (S (length olds))), w1)
    /\ failed w1 = failed_entry env data error :: failed w
    /\ pending w1 = pending w
    /\ getFailedMints w1 = (Ok (newest :: olds), w1)
    /\ Value.get newest "error" = VStr error
    /\ Value.get newest "failedAt" = VStr (now env)
    /\ (forall k, k <> "error" -> k <> "failedAt" ->
          Value.get newest k = Value.get (VObj (Obj.own_props data)) k).
Proof.
  intros Pd Pe Pn Hold.
  set (newest := VObj (Obj.set "failedAt" (VStr (now env))
                         (Obj.set "error" (VStr error) (Obj.own_props data)))).
  assert (Pnew : plain newest = true).
  { subst newest. apply plain_set; [reflexivity | reflexivity | exact Pn |].
    apply plain_set; [reflexivity | reflexivity | exact Pe | exact Pd]. }
  exists newest.
  exists (record_event (FailedPushed (failed_entry env data error))
            (set_redis (RedisCmd.store_list FAILED_MINT_QUEUE
                          (failed_entry env data error :: failed w) (redis w)) w)).
  rewrite failed_store, pending_of_failed_store, getFailedMints_run, failed_store.
  split; [|split; [reflexivity|split; [reflexivity|split; [|split; [|split]]]]].
  - unfold addToFailedQueue, bind, redis_ops.lPush, RedisCmd.LPUSH, emit, modify, ret.
    cbn [JSON.stringify default length]. fold (failed w).
    rewrite (parse_all_length _ _ Hold). reflexivity.
  - cbn [parse_all]. unfold failed_entry. fold newest.
    rewrite (parse_stringify newest Pnew), Hold. reflexivity.
  - subst newest. cbn [Value.get].
    rewrite lookup_set_ne by discriminate. now rewrite lookup_set_eq.
  - subst newest. cbn [Value.get]. now rewrite lookup_set_eq.
  - intros k H1 H2. subst newest. cbn [Value.get].
    now rewrite !lookup_set_ne by assumption.
Qed.

Lemma failed_mint_is_read_back_witness :
  exists newest w1,
    addToFailedQueue env_up (mint_request "0xreply1" "0xabc") "Cast not found" world0
    = (Ok (N.of_nat 1), w1)
    /\ failed w1
       = failed_entry env_up (mint_request "0xreply1" "0xabc") "Cast not found"
         :: failed world0
    /\ pending w1 = pending world0
    /\ getFailedMints w1 = (Ok [newest], w1)
    /\ Value.get newest "error" = VStr "Cast not found"
    /\ Value.get newest "failedAt" = VStr (now env_up)
    /\ (forall k, k <> "error" -> k <> "failedAt" ->
          Value.get newest k
          = Value.get (VObj (Obj.own_props (mint_request "0xreply1" "0xabc"))) k).
Proof.
  apply (failed_mint_is_read_back env_up (mint_request "0xreply1" "0xabc")
           "Cast not found" [] world0); reflexivity.
Defined.
